(** * FinnTrack: race channel and replay engines

    A shallow embedding of the FinnTrack worker sources:

    - [RaceStateTs]  src/raceState.ts, the Durable Object holding the roster,
      the latest telemetry and the spectator sockets of one race;
    - [IndexSmoothed]  the worker with the interpolating /replay handler and
      the range-checking /track handler (unnamed/part_003);
    - [IndexLastKnown]  the worker whose handleReplay keeps the last known
      point per boat (unnamed/part_004);
    - [IndexBuckets]  the worker whose handleReplay clamps hz to 0.1..10 and
      floors the step at 50 ms (unnamed/part_001);
    - [IndexTs]  src/index.ts, the worker that maps OwnTracks reports to
      updates and passes requests on to the channel of their race;
    - [IndexLastKnownTrack]  handleTrack and insertPointsD1 of part_004;
    - [IndexBucketsTrack]  normalizeTrackPayload and POST /track of part_001;
    - [RaceStateLatest]  the Durable Object of part_003, which keeps the
      last point of every boat.

    JavaScript numbers are idealised: a finite number is an exact rational
    ([Q]), and NaN and the two infinities are separate values ([JS.num]).
    Rounding of binary64 arithmetic is not modelled; [Binary64] evaluates the
    interpolation of the scenarios in binary64 beside the exact values.
    What is stated of the number and of the times of the frames of a replay
    is stated for windows given in whole milliseconds ([JS.exactMs]), where
    the counter of the frame loop is exact in binary64 as well.

    The two maps of the Durable Object are finite maps: the order in which
    JavaScript enumerates them is not modelled, and nothing proved here
    depends on it. A plain object used as a dictionary is a [JS.Dict]: its
    own properties and its prototype, which an assignment under "__proto__"
    replaces. The maps of the replay handlers, whose order is the order
    of the boats in a frame, keep their insertion order ([OMap]). The
    track_points table is a list of rows, and a query filters and sorts it. *)

From Stdlib Require Import QArith Qround Qminmax Qabs ZArith Lia Lqa.
From Stdlib Require Import Strings.String Strings.Ascii Lists.List.
From Stdlib Require Import Sorting.Sorted Sorting.Permutation.
From Stdlib Require Structures.OrderedTypeEx.
From Stdlib Require Floats.PrimFloat.
From stdpp Require Import gmap strings list fin_maps.

Local Open Scope string_scope.
Local Open Scope list_scope.
Local Open Scope Q_scope.

(* ===================================================================== *)
(** * Shared containers                                                   *)
(* ===================================================================== *)

(** A stable sort: insertion from the right, an element staying in front of
    the later elements it is not strictly above. It stands for the sorts the
    sources call but do not define ([Array.prototype.sort], SQL ORDER BY). *)
Module Stable.
Section Sort.
Context {A : Type} (le : A -> A -> bool).

Fixpoint insert (x : A) (l : list A) : list A :=
  match l with
  | [] => [x]
  | y :: l' => if le x y then x :: y :: l' else y :: insert x l'
  end.

Definition sort (l : list A) : list A := List.fold_right insert [] l.
End Sort.
End Stable.

(** A JavaScript [Map] with string keys: entries are kept in insertion
    order, and setting a present key keeps its position. *)
Module OMap.
Section Ops.
Context {A : Type}.

Definition t : Type := list (string * A).

Fixpoint get (k : string) (m : t) : option A :=
  match m with
  | [] => None
  | (k', v) :: m' => if String.eqb k k' then Some v else get k m'
  end.

Definition has (k : string) (m : t) : bool :=
  match get k m with Some _ => true | None => false end.

Fixpoint set (k : string) (v : A) (m : t) : t :=
  match m with
  | [] => [(k, v)]
  | (k', v') :: m' =>
      if String.eqb k k' then (k, v) :: m' else (k', v') :: set k v m'
  end.

Definition keys (m : t) : list string := List.map fst m.
Definition values (m : t) : list A := List.map snd m.
End Ops.
Arguments t : clear implicits.
End OMap.

(* ===================================================================== *)
(** * JavaScript values and coercions                                     *)
(* ===================================================================== *)

Module JS.

(** A JavaScript number. *)
Inductive num : Type :=
| Fin (q : Q)
| NaN
| PosInf
| NegInf.

(** [Number.isFinite(n)] *)
Definition isFinite (n : num) : bool :=
  match n with Fin _ => true | _ => false end.

(** The scalar values a parsed JSON field (or an absent field) can hold. *)
Inductive value : Type :=
| VUndefined
| VNull
| VBool (b : bool)
| VNumber (n : num)
| VString (s : string).

(** Truthiness, as tested by [!x], [x || y] and [x ? a : b]. *)
Definition truthy (v : value) : bool :=
  match v with
  | VUndefined | VNull => false
  | VBool b => b
  | VNumber (Fin q) => negb (Qeq_bool q 0)
  | VNumber NaN => false
  | VNumber _ => true
  | VString s => negb (String.eqb s "")
  end.

(** [a || b] *)
Definition or_else (a b : value) : value := if truthy a then a else b.

(** [a ?? b] on a value that is either defined or [undefined]. *)
Definition nullish {A : Type} (a : option A) (b : A) : A :=
  match a with Some x => x | None => b end.

(** [!s] for a string. *)
Definition emptyStr (s : string) : bool := String.eqb s "".

(** [a < b] on finite numbers. *)
Definition Qlt_bool (a b : Q) : bool := negb (Qle_bool b a).

(** [a + b] *)
Definition add (a b : num) : num :=
  match a, b with
  | Fin x, Fin y => Fin (x + y)
  | NaN, _ | _, NaN => NaN
  | PosInf, NegInf | NegInf, PosInf => NaN
  | PosInf, _ | _, PosInf => PosInf
  | NegInf, _ | _, NegInf => NegInf
  end.

(** [a <= b]: false as soon as one side is NaN. *)
Definition le (a b : num) : bool :=
  match a, b with
  | Fin x, Fin y => Qle_bool x y
  | NaN, _ | _, NaN => false
  | NegInf, _ => true
  | _, PosInf => true
  | _, _ => false
  end.

(** [a / b]. There is one zero, taken as positive. *)
Definition div (a b : num) : num :=
  match a, b with
  | NaN, _ | _, NaN => NaN
  | Fin x, Fin y =>
      if Qeq_bool y 0
      then (if Qeq_bool x 0 then NaN
            else if Qle_bool 0 x then PosInf else NegInf)
      else Fin (x / y)
  | Fin _, _ => Fin 0
  | PosInf, Fin y => if Qle_bool 0 y then PosInf else NegInf
  | NegInf, Fin y => if Qle_bool 0 y then NegInf else PosInf
  | _, _ => NaN
  end.

(** The conversions between strings and numbers and [String.prototype.trim]
    are built into the language; the development is parametric in them. *)
Record Coercions : Type := {
  StringToNumber : string -> num;   (* Number("...") *)
  NumberToString : num -> string;   (* String(n) *)
  Trim : string -> string           (* s.trim() *)
}.

Section Coerce.
Variable co : Coercions.

(** [Number(v)] *)
Definition ToNumber (v : value) : num :=
  match v with
  | VUndefined => NaN
  | VNull => Fin 0
  | VBool true => Fin 1
  | VBool false => Fin 0
  | VNumber n => n
  | VString s => StringToNumber co s
  end.

(** [String(v)] *)
Definition ToString (v : value) : string :=
  match v with
  | VUndefined => "undefined"
  | VNull => "null"
  | VBool true => "true"
  | VBool false => "false"
  | VNumber n => NumberToString co n
  | VString s => s
  end.
End Coerce.

(** [Math.floor] and [Math.round] on a finite number. [Math.round] rounds
    halves towards plus infinity. *)
Definition floor (x : Q) : Z := Qfloor x.
Definition round (x : Q) : Z := Qfloor (x + (1 # 2)).

(** [Math.round] on any number. *)
Definition roundNum (n : num) : num :=
  match n with Fin q => Fin (inject_Z (round q)) | _ => n end.

(** [arr.sort(cmp)]: stable, [cmp a b <= 0] keeps [a] in front. *)
Definition Array_sort {A : Type} (cmp : A -> A -> Z) (l : list A) : list A :=
  Stable.sort (fun a b => (cmp a b <=? 0)%Z) l.

(** What [searchParams.get] returns, as a value. *)
Definition param (p : option string) : value :=
  match p with Some s => VString s | None => VNull end.

(** A plain object filled as a dictionary, [const out = {}] followed by
    [out[k] = v]. The key "__proto__" is the accessor every plain object
    inherits: assigning an object under it replaces the prototype and
    creates no property. [own] holds the own properties, which is all that
    [Object.values], [Object.entries], [JSON.stringify] and the structured
    clone of the storage see; [proto] is what a later read of
    [out["__proto__"]] returns. *)
Record Dict (A : Type) : Type := {
  own : gmap string A;
  proto : option A
}.
Arguments own {A} d.
Arguments proto {A} d.

Definition protoKey : string := "__proto__".

(** [out[k]] for a key that was assigned. *)
Definition dictGet {A : Type} (k : string) (d : Dict A) : option A :=
  if String.eqb k protoKey then proto d else own d !! k.

#[global] Instance dict_lookup {A : Type} : Lookup string A (Dict A) :=
  dictGet.

(** The object left by [for (const [k, v] of m) out[k] = v]. *)
Definition dictOfMap {A : Type} (m : gmap string A) : Dict A :=
  {| own := delete protoKey m; proto := m !! protoKey |}.

(** An integer number of milliseconds of magnitude at most 2^52, as bound
    to a query. Sums and differences of such numbers, of the six hours of a
    window and of a step of at most 10000 are integers below 2^53, which
    binary64 holds exactly: on them the additions and the comparisons of
    the frame loops are the ones the worker performs. *)
Definition exactMs (q : Q) : bool :=
  Qeq_bool q (inject_Z (Qfloor q)) && (Z.abs (Qfloor q) <=? 2 ^ 52)%Z.

End JS.

Import JS.

(* ===================================================================== *)
(** * The track_points table                                              *)
(* ===================================================================== *)

Module TrackLog.

Record Row : Type := {
  row_raceId : string;
  row_boatId : string;
  row_t : Q;
  row_lat : Q;
  row_lon : Q;
  row_sog : option Q;        (* NULL when absent *)
  row_cog : option Q;
  row_name : option string
}.

(** [WHERE raceId = ? AND t >= ? AND t <= ?] *)
Definition inWindow (raceId : string) (from to : Q) (r : Row) : bool :=
  String.eqb (row_raceId r) raceId
  && Qle_bool from (row_t r) && Qle_bool (row_t r) to.

(** [ORDER BY boatId ASC, t ASC], text compared byte by byte. *)
Definition byBoatThenTime (a b : Row) : bool :=
  match String.compare (row_boatId a) (row_boatId b) with
  | Lt => true
  | Eq => Qle_bool (row_t a) (row_t b)
  | Gt => false
  end.

(** [ORDER BY t ASC] *)
Definition byTime (a b : Row) : bool := Qle_bool (row_t a) (row_t b).

Definition select (order : Row -> Row -> bool)
           (raceId : string) (from to : Q) (table : list Row) : list Row :=
  Stable.sort order (List.filter (inWindow raceId from to) table).


End TrackLog.

(* ===================================================================== *)
(** * src/raceState.ts                                                    *)
(* ===================================================================== *)

Module RaceStateTs.

Record BoatRosterEntry : Type := {
  r_boatId : string;
  r_boatName : string;
  r_nation : option string;
  r_joinedAt : Q;             (* epoch ms *)
  r_lastSeen : option Q       (* epoch ms (last telemetry) *)
}.

Record Telemetry : Type := {
  t_boatId : string;
  t_lat : num;
  t_lon : num;
  t_t : Q;                    (* epoch ms *)
  t_sog : option Q;
  t_cog : option Q;
  t_heading : option Q;
  t_heel : option Q
}.

(** View format sent to the frontend. *)
Record BoatView : Type := {
  v_boatId : string;
  v_boatName : string;
  v_nation : option string;
  v_joinedAt : Q;
  v_live : bool;
  v_lastSeen : option Q;
  v_lat : option num;
  v_lng : option num;
  v_speed : option Q;
  v_heading : option Q;
  v_timestamp : option Q
}.

Definition LIVE_MS : Q := 120000.

(** What [state.storage] holds under STORAGE_KEY. *)
Record Saved : Type := {
  saved_roster : option (list (string * BoatRosterEntry));
  saved_latest : option (list (string * Telemetry))
}.

(** A spectator socket is known by its identity. *)
Definition WebSocket : Type := nat.

(** The Durable Object: its in-memory fields, its storage, and the
    "races:index" entry of the HISTORY namespace it writes to. *)
Record State : Type := {
  roster : gmap string BoatRosterEntry;
  latest : gmap string Telemetry;
  sockets : list WebSocket;
  loaded : bool;
  storage : option Saved;
  racesIndex : list string
}.

(** Events pushed to the sockets: the message objects handed to
    [JSON.stringify]. *)
Inductive Event : Type :=
| Full (now : Q) (boats : Dict BoatView)
| Update (now : Q) (boat : string) (data : BoatView).

(** The fields of a request body that the handlers read. *)
Record Body : Type := {
  b_raceId : value;
  b_boatId : value;
  b_boatName : value;
  b_nation : value;
  b_lat : value;
  b_lon : value;
  b_t : value;
  b_sog : value;
  b_speed : value;
  b_cog : value;
  b_course : value;
  b_heading : value;
  b_heel : value
}.

(** The request text: empty (read as [{}]), not JSON, or a parsed body. *)
Inductive Payload : Type :=
| BadJson
| Json (body : Body).

Record Request : Type := {
  method : string;
  path : string;
  upgradeWebSocket : bool;   (* Upgrade header equals "websocket", any case *)
  payload : Payload
}.

(** What the environment supplies during one [fetch]: the readings of
    [Date.now()] at each call site, the outcome of the storage and KV
    writes, the sockets whose [send] throws, and the server end of a new
    WebSocketPair. *)
Record Env : Type := {
  now_t : Q;          (* default of t in /update *)
  now_joined : Q;     (* joinedAt of a new roster entry *)
  now_view : Q;       (* boatsView *)
  now_event : Q;      (* the now field of events and responses *)
  putFails : bool;    (* state.storage.put rejects *)
  kvFails : bool;     (* a HISTORY call rejects *)
  sendFails : WebSocket -> bool;
  newSocket : WebSocket
}.

Inductive Response : Type :=
| Text (status : Z) (text : string)
| BoatsList (now : Q) (boats : list BoatView)         (* 200, ok: true *)
| JoinAck (boatId : string) (boatsCount : nat)        (* 200, ok: true *)
| Switching (server : WebSocket).                     (* 101 *)

(** [fetch] either resolves to a response or rejects. *)
Inductive Outcome : Type :=
| Returned (r : Response)
| Rejected.

Section Handlers.
Variable co : Coercions.
Variable localeCompare : string -> string -> Z.

Definition safeNum (v : value) : option Q :=
  let n := match v with VNumber n => n | _ => ToNumber co v end in
  match n with Fin q => Some q | _ => None end.

Inductive Check : Type :=
| CheckOk
| CheckFail (msg : string).

Definition mustHaveTelemetryFields (body : Body) : Check :=
  let boatId := ToString co (or_else (b_boatId body) (VString "")) in
  let lat := safeNum (b_lat body) in
  let lon := safeNum (b_lon body) in
  if emptyStr boatId then CheckFail "Missing boatId"
  else if negb (bool_decide (is_Some lat)) then CheckFail "Missing lat"
  else if negb (bool_decide (is_Some lon)) then CheckFail "Missing lon"
  else CheckOk.

(** ** Storage *)

(** [new Map(entries)]: the pairs are set in turn. *)
Definition mapOfEntries {A : Type} (l : list (string * A)) : gmap string A :=
  List.fold_left (fun m p => <[p.1 := p.2]> m) l ∅.

Definition loadOnce (s : State) : State :=
  if loaded s then s
  else
    let r := match storage s with
             | Some sv => match saved_roster sv with
                          | Some l => mapOfEntries l
                          | None => roster s
                          end
             | None => roster s
             end in
    let l := match storage s with
             | Some sv => match saved_latest sv with
                          | Some l => mapOfEntries l
                          | None => latest s
                          end
             | None => latest s
             end in
    {| roster := r; latest := l; sockets := sockets s; loaded := true;
       storage := storage s; racesIndex := racesIndex s |}.

(** [persist]: [None] when the write rejects. *)
Definition persist (e : Env) (s : State) : option State :=
  if putFails e then None
  else Some {| roster := roster s; latest := latest s;
               sockets := sockets s; loaded := loaded s;
               storage := Some {| saved_roster := Some (map_to_list (roster s));
                                  saved_latest := Some (map_to_list (latest s)) |};
               racesIndex := racesIndex s |}.

(** ** Broadcasting: a socket whose send throws is dropped. *)

Definition broadcast (e : Env) (ev : Event) (s : State)
  : State * list (WebSocket * Event) :=
  ({| roster := roster s; latest := latest s;
      sockets := List.filter (fun ws => negb (sendFails e ws)) (sockets s);
      loaded := loaded s; storage := storage s;
      racesIndex := racesIndex s |},
   List.map (fun ws => (ws, ev))
            (List.filter (fun ws => negb (sendFails e ws)) (sockets s))).

(** ** Boat views *)

(** [lastSeen ? ... : false]: a number is falsy when it is 0. *)
Definition liveAt (t : Q) (lastSeen : option Q) : bool :=
  match lastSeen with
  | Some ls => if Qeq_bool ls 0 then false else Qle_bool (t - ls) LIVE_MS
  | None => false
  end.

Definition viewOf (t : Q) (cache : gmap string Telemetry)
           (boatId : string) (entry : BoatRosterEntry) : BoatView :=
  let telem := cache !! boatId in
  let lastSeen := match r_lastSeen entry with
                  | Some x => Some x
                  | None => t_t <$> telem
                  end in
  {| v_boatId := boatId;
     v_boatName := r_boatName entry;
     v_nation := r_nation entry;
     v_joinedAt := r_joinedAt entry;
     v_live := liveAt t lastSeen;
     v_lastSeen := lastSeen;
     v_lat := t_lat <$> telem;
     v_lng := t_lon <$> telem;
     v_speed := telem ≫= t_sog;
     v_heading := match telem ≫= t_heading with
                  | Some h => Some h
                  | None => telem ≫= t_cog
                  end;
     v_timestamp := t_t <$> telem |}.

(** [out] is a plain object: a roster entry under "__proto__" becomes the
    prototype of the view and not one of its properties. *)
Definition boatsView (e : Env) (s : State) : Dict BoatView :=
  dictOfMap
    (map_imap (fun boatId entry =>
                 Some (viewOf (now_view e) (latest s) boatId entry))
              (roster s)).

(** The comparator handed to [Array.prototype.sort]. *)
Definition compareViews (a b : BoatView) : Z :=
  if negb (Bool.eqb (v_live a) (v_live b))
  then (if v_live a then (-1)%Z else 1%Z)
  else localeCompare (v_boatName a) (v_boatName b).

(** [Object.values(boatsObj)], the own properties, is taken in the order
    of the map's entry list; the sort then arranges it. *)
Definition boatsViewArray (e : Env) (s : State) : list BoatView :=
  Array_sort compareViews ((map_to_list (own (boatsView e s))).*2).

(** ** Race index *)

Definition updateRacesIndex (e : Env) (raceId : string) (s : State) : State :=
  if kvFails e then s
  else if bool_decide (raceId ∈ racesIndex s) then s
  else {| roster := roster s; latest := latest s; sockets := sockets s;
          loaded := loaded s; storage := storage s;
          racesIndex := racesIndex s ++ [raceId] |}.

Definition setRoster (r : gmap string BoatRosterEntry) (s : State) : State :=
  {| roster := r; latest := latest s; sockets := sockets s;
     loaded := loaded s; storage := storage s; racesIndex := racesIndex s |}.

Definition setLatest (l : gmap string Telemetry) (s : State) : State :=
  {| roster := roster s; latest := l; sockets := sockets s;
     loaded := loaded s; storage := storage s; racesIndex := racesIndex s |}.

Definition addSocket (ws : WebSocket) (s : State) : State :=
  {| roster := roster s; latest := latest s;
     sockets := if bool_decide (ws ∈ sockets s) then sockets s
                else sockets s ++ [ws];
     loaded := loaded s; storage := storage s; racesIndex := racesIndex s |}.

Definition Result : Type := Outcome * State * list (WebSocket * Event).

(** ** POST /join *)

Definition optString (v : value) : option string :=
  if truthy v then Some (ToString co v) else None.

Definition join (e : Env) (p : Payload) (s : State) : Result :=
  match p with
  | BadJson => (Returned (Text 400 "Bad JSON"), s, [])
  | Json body =>
    let raceId := ToString co (or_else (b_raceId body) (VString "")) in
    let boatId := ToString co (or_else (b_boatId body) (VString "")) in
    let boatName :=
      ToString co (or_else (or_else (b_boatName body) (VString boatId))
                           (VString "")) in
    let nation := optString (b_nation body) in
    if emptyStr raceId then (Returned (Text 400 "Missing raceId"), s, [])
    else if emptyStr boatId then (Returned (Text 400 "Missing boatId"), s, [])
    else
      let s1 := updateRacesIndex e raceId s in
      let existing := roster s1 !! boatId in
      let joinedAt := nullish (r_joinedAt <$> existing) (now_joined e) in
      let s2 := setRoster (<[boatId :=
                   {| r_boatId := boatId; r_boatName := boatName;
                      r_nation := nation; r_joinedAt := joinedAt;
                      r_lastSeen := existing ≫= r_lastSeen |}]> (roster s1)) s1 in
      match persist e s2 with
      | None => (Rejected, s2, [])
      | Some s3 =>
        let boats := boatsView e s3 in
        let '(s4, sent) := broadcast e (Full (now_event e) boats) s3 in
        (Returned (JoinAck boatId (size (roster s4))), s4, sent)
      end
  end.

(** ** POST /update *)

(** [safeNum(body.t) ?? nowMs()] *)
Definition timeOf (e : Env) (body : Body) : Q :=
  nullish (safeNum (b_t body)) (now_t e).

(** The Telemetry object built from the body. *)
Definition telemetryOf (e : Env) (body : Body) : Telemetry :=
  {| t_boatId := ToString co (b_boatId body);
     t_lat := ToNumber co (b_lat body);
     t_lon := ToNumber co (b_lon body);
     t_t := timeOf e body;
     t_sog := match safeNum (b_sog body) with
              | Some x => Some x
              | None => safeNum (b_speed body)
              end;
     t_cog := match safeNum (b_cog body) with
              | Some x => Some x
              | None => safeNum (b_course body)
              end;
     t_heading := safeNum (b_heading body);
     t_heel := safeNum (b_heel body) |}.

(** The roster entry created when an update arrives before a join. *)
Definition autoEntry (e : Env) (body : Body) : BoatRosterEntry :=
  let boatId := ToString co (b_boatId body) in
  {| r_boatId := boatId;
     r_boatName := ToString co (or_else (b_boatName body) (VString boatId));
     r_nation := optString (b_nation body);
     r_joinedAt := now_joined e;
     r_lastSeen := None |}.

(** [entry.lastSeen = t] *)
Definition seenAt (t : Q) (entry : BoatRosterEntry) : BoatRosterEntry :=
  {| r_boatId := r_boatId entry; r_boatName := r_boatName entry;
     r_nation := r_nation entry; r_joinedAt := r_joinedAt entry;
     r_lastSeen := Some t |}.

(** The view broadcast for the boat just updated. *)
Definition updateView (boatId : string) (entry : BoatRosterEntry)
           (t : Q) (telem : Telemetry) : BoatView :=
  {| v_boatId := boatId;
     v_boatName := r_boatName entry;
     v_nation := r_nation entry;
     v_joinedAt := r_joinedAt entry;
     v_live := true;
     v_lastSeen := Some t;
     v_lat := Some (t_lat telem);
     v_lng := Some (t_lon telem);
     v_speed := t_sog telem;
     v_heading := match t_heading telem with
                  | Some h => Some h
                  | None => t_cog telem
                  end;
     v_timestamp := Some (t_t telem) |}.

Definition update (e : Env) (p : Payload) (s : State) : Result :=
  match p with
  | BadJson => (Returned (Text 400 "Bad JSON"), s, [])
  | Json body =>
    let raceId := ToString co (or_else (b_raceId body) (VString "")) in
    if emptyStr raceId then (Returned (Text 400 "Missing raceId"), s, [])
    else
      match mustHaveTelemetryFields body with
      | CheckFail msg => (Returned (Text 400 msg), s, [])
      | CheckOk =>
        let boatId := ToString co (b_boatId body) in
        let t := timeOf e body in
        let s1 := updateRacesIndex e raceId s in
        (* Auto-create roster entry if update arrives before join *)
        let s2 :=
          if bool_decide (is_Some (roster s1 !! boatId)) then s1
          else setRoster (<[boatId := autoEntry e body]> (roster s1)) s1 in
        let telem := telemetryOf e body in
        let s3 := setLatest (<[boatId := telem]> (latest s2)) s2 in
        match roster s3 !! boatId with
        | None => (Rejected, s3, [])       (* entry.lastSeen on undefined *)
        | Some entry0 =>
          let entry := seenAt t entry0 in
          let s4 := setRoster (<[boatId := entry]> (roster s3)) s3 in
          match persist e s4 with
          | None => (Rejected, s4, [])
          | Some s5 =>
            let boatView := updateView boatId entry t telem in
            let '(s6, sent) :=
              broadcast e (Update (now_event e) boatId boatView) s5 in
            (Returned (Text 200 "OK"), s6, sent)
          end
        end
      end
  end.

(** ** GET /ws/live *)

Definition wsLive (e : Env) (r : Request) (s : State) : Result :=
  if negb (upgradeWebSocket r)
  then (Returned (Text 426 "Expected WebSocket"), s, [])
  else
    let server := newSocket e in
    let s1 := addSocket server s in
    let boats := boatsView e s1 in
    if sendFails e server then (Rejected, s1, [])
    else (Returned (Switching server), s1,
          [(server, Full (now_event e) boats)]).

(** ** The request handler *)

Definition fetch (e : Env) (r : Request) (s : State) : Result :=
  let s := loadOnce s in
  if String.eqb (path r) "/ws/live" then wsLive e r s
  else if String.eqb (method r) "GET" && String.eqb (path r) "/boats"
  then (Returned (BoatsList (now_event e) (boatsViewArray e s)), s, [])
  else if String.eqb (method r) "POST" && String.eqb (path r) "/join"
  then join e (payload r) s
  else if String.eqb (method r) "POST" && String.eqb (path r) "/update"
  then update e (payload r) s
  else (Returned (Text 404 "Not found"), s, []).

End Handlers.

(** A channel that has never been used: nothing in memory, nothing stored. *)
Definition initial : State :=
  {| roster := ∅; latest := ∅; sockets := []; loaded := false;
     storage := None; racesIndex := [] |}.

(** The object is evicted and constructed again: the fields take their
    initial values, the storage and the HISTORY namespace remain. *)
Definition evict (s : State) : State :=
  {| roster := ∅; latest := ∅; sockets := []; loaded := false;
     storage := storage s; racesIndex := racesIndex s |}.

(** The close and error listeners of a socket. *)
Definition onClose (ws : WebSocket) (s : State) : State :=
  {| roster := roster s; latest := latest s;
     sockets := List.filter (fun w => negb (Nat.eqb w ws)) (sockets s);
     loaded := loaded s; storage := storage s; racesIndex := racesIndex s |}.

End RaceStateTs.

(* ===================================================================== *)
(** * The loops of the replay handlers                                    *)
(* ===================================================================== *)

(** A loop is run with fuel. [Done] is a normal exit, [Threw] an uncaught
    TypeError, [OutOfFuel] a loop still running when the fuel is spent. *)
Inductive Run (A : Type) : Type :=
| Done (a : A)
| Threw
| OutOfFuel.
Arguments Done {A} a.
Arguments Threw {A}.
Arguments OutOfFuel {A}.

(** Fuel for [for (t = from; t <= to; t += stepMs)]: one unit per frame and
    one for the test that leaves the loop. *)
Definition loopFuel (from to stepMs : Q) : nat :=
  S (Z.to_nat (Qfloor ((to - from) / stepMs) + 1)).

(* ===================================================================== *)
(** * unnamed/part_003: /track validation and the interpolating /replay   *)
(* ===================================================================== *)

Module IndexSmoothed.
Import TrackLog.

Record TrackPoint : Type := {
  tp_raceId : string;
  tp_boatId : string;
  tp_t : Q;                  (* unix ms *)
  tp_lat : Q;
  tp_lon : Q;
  tp_sog : option Q;
  tp_cog : option Q;
  tp_name : option string
}.

Record LiveBoat : Type := {
  lb_boatId : string;
  lb_name : option string;
  lb_lat : Q;
  lb_lon : Q;
  lb_sog : option Q;
  lb_cog : option Q;
  lb_t : Q
}.

Record Frame : Type := { f_t : Q; f_boats : list LiveBoat }.

Definition clamp (n lo hi : Q) : Q := Qmax lo (Qmin hi n).

Definition isFiniteNumber (x : value) : bool :=
  match x with VNumber (Fin _) => true | _ => false end.

(** An optional numeric field, as the value [isFiniteNumber] inspects. *)
Definition optValue (o : option Q) : value :=
  match o with Some q => VNumber (Fin q) | None => VUndefined end.

(** [a + (b - a) * x], over the exact rationals. The worker rounds after
    each of the three operations, so that its value at [x = 1] can differ
    from [b] in the last place; what is proved of [interp] below is which
    points it is given, and its values in the scenarios, which [Binary64]
    computes as well. *)
Definition lerp (a b x : Q) : Q := a + (b - a) * x.

(** [isFiniteNumber(a) && isFiniteNumber(b) ? lerp(a, b, x) : (a ?? b)] *)
Definition lerpField (a b : option Q) (x : Q) : option Q :=
  if isFiniteNumber (optValue a) && isFiniteNumber (optValue b)
  then match a, b with
       | Some u, Some v => Some (lerp u v x)
       | _, _ => None
       end
  else match a with Some u => Some u | None => b end.

Definition interp (p0 p1 : TrackPoint) (t : Q) : LiveBoat :=
  let span := tp_t p1 - tp_t p0 in
  let alpha := if Qle_bool span 0 then 0 else (t - tp_t p0) / span in
  let x := clamp alpha 0 1 in
  {| lb_boatId := tp_boatId p0;
     lb_name := match tp_name p0 with Some n => Some n | None => tp_name p1 end;
     lb_lat := lerp (tp_lat p0) (tp_lat p1) x;
     lb_lon := lerp (tp_lon p0) (tp_lon p1) x;
     lb_sog := lerpField (tp_sog p0) (tp_sog p1) x;
     lb_cog := lerpField (tp_cog p0) (tp_cog p1) x;
     lb_t := t |}.

Definition toTrackPoint (r : Row) : TrackPoint :=
  {| tp_raceId := row_raceId r; tp_boatId := row_boatId r; tp_t := row_t r;
     tp_lat := row_lat r; tp_lon := row_lon r; tp_sog := row_sog r;
     tp_cog := row_cog r; tp_name := row_name r |}.

(** The rows grouped per boat, boats in the order of their first row. *)
Definition groupStep (byBoat : OMap.t (list TrackPoint)) (r : Row)
  : OMap.t (list TrackPoint) :=
  let tp := toTrackPoint r in
  let byBoat := if OMap.has (tp_boatId tp) byBoat then byBoat
                else OMap.set (tp_boatId tp) [] byBoat in
  OMap.set (tp_boatId tp) (nullish (OMap.get (tp_boatId tp) byBoat) [] ++ [tp])
           byBoat.

Definition groupByBoat (rows : list Row) : OMap.t (list TrackPoint) :=
  List.fold_left groupStep rows [].

(** [while (i + 1 < pts.length && pts[i + 1].t < t) i++] *)
Fixpoint advance (fuel : nat) (pts : list TrackPoint) (t : Q) (i : nat) : nat :=
  match fuel with
  | O => i
  | S k =>
      match pts !! (i + 1)%nat with
      | Some p => if Qlt_bool (tp_t p) t then advance k pts t (i + 1)%nat else i
      | None => i
      end
  end.

Definition pointAt (boatId : string) (p : TrackPoint) (t : Q) : LiveBoat :=
  {| lb_boatId := boatId; lb_name := tp_name p; lb_lat := tp_lat p;
     lb_lon := tp_lon p; lb_sog := tp_sog p; lb_cog := tp_cog p; lb_t := t |}.

(** What one boat contributes to the frame at [t], its cursor being [i];
    [None] when a point read is undefined. *)
Definition sample (boatId : string) (pts : list TrackPoint) (t : Q) (i : nat)
  : option LiveBoat :=
  match pts !! 0%nat, pts !! (length pts - 1)%nat with
  | Some first, Some last =>
      if Qle_bool t (tp_t first) then Some (pointAt boatId first t)
      else if Qle_bool (tp_t last) t then Some (pointAt boatId last t)
      else match pts !! i, pts !! (i + 1)%nat with
           | Some p0, Some p1 => Some (interp p0 p1 t)
           | _, _ => None
           end
  | _, _ => None
  end.

(** The body of the frame loop: every boat in turn. *)
Fixpoint frameBoats (t : Q) (entries : list (string * list TrackPoint))
         (idx : gmap string nat) (boats : list LiveBoat)
  : option (gmap string nat * list LiveBoat) :=
  match entries with
  | [] => Some (idx, boats)
  | (boatId, pts) :: rest =>
      if Nat.eqb (length pts) 0 then frameBoats t rest idx boats
      else
        let i := advance (length pts) pts t (nullish (idx !! boatId) 0%nat) in
        let idx := <[boatId := i]> idx in
        match sample boatId pts t i with
        | Some b => frameBoats t rest idx (boats ++ [b])
        | None => None
        end
  end.

(** [for (let t = from; t <= to; t += stepMs)]. The counter is an exact
    rational; it is the worker's counter as long as the sums are whole
    numbers below 2^53, as they are for a window of [exactMs] bounds. *)
Fixpoint frameLoop (fuel : nat) (to : Q) (stepMs : Z)
         (byBoat : OMap.t (list TrackPoint))
         (t : Q) (idx : gmap string nat) (frames : list Frame)
  : Run (list Frame) :=
  match fuel with
  | O => OutOfFuel
  | S k =>
      if Qle_bool t to then
        match frameBoats t byBoat idx [] with
        | Some (idx, boats) =>
            frameLoop k to stepMs byBoat (t + inject_Z stepMs) idx
                      (frames ++ [{| f_t := t; f_boats := boats |}])
        | None => Threw
        end
      else Done frames
  end.

(** [for (const boatId of byBoat.keys()) idx.set(boatId, 0)] *)
Definition initialIdx (byBoat : OMap.t (list TrackPoint)) : gmap string nat :=
  List.fold_left (fun m k => <[k := 0%nat]> m) (OMap.keys byBoat) ∅.

Definition replayFrames (rows : list Row) (from to : Q) (stepMs : Z)
  : Run (list Frame) :=
  let byBoat := groupByBoat rows in
  frameLoop (loopFuel from to (inject_Z stepMs)) to stepMs byBoat from
            (initialIdx byBoat) [].

Record Query : Type := {
  q_raceId : option string;
  q_from : option string;
  q_to : option string;
  q_hz : option string
}.

Inductive Response : Type :=
| BadRequest (msg : string)                               (* 400 *)
| ServerError (msg : string)                              (* 500 *)
| Replay (raceId : string) (from to hz : Q) (stepMs : Z)
         (frames : list Frame).                           (* 200, ok: true *)

Definition maxWindowMs : Q := 6 * 60 * 60 * 1000.

Section Handlers.
Variable co : Coercions.

Definition hzOf (hzRaw : num) : Q :=
  clamp (match hzRaw with Fin q => q | _ => 4 end) 1 10.

Definition stepMsOf (hz : Q) : Z := floor (1000 / hz).

(** GET /replay. [dbFails] says that the D1 read rejects. *)
Definition replay (dbFails : bool) (q : Query) (table : list Row)
  : Run Response :=
  if negb (truthy (param (q_raceId q))) then Done (BadRequest "Missing raceId")
  else
    let raceId := ToString co (param (q_raceId q)) in
    let from := ToNumber co (param (q_from q)) in
    let to := ToNumber co (param (q_to q)) in
    let hzRaw := ToNumber co (or_else (param (q_hz q)) (VString "4")) in
    match from, to with
    | Fin from, Fin to =>
        if Qle_bool to from then Done (BadRequest "to must be > from")
        else if Qlt_bool maxWindowMs (to - from)
        then Done (BadRequest "time window too large (max 6 hours)")
        else
          let hz := hzOf hzRaw in
          let stepMs := stepMsOf hz in
          if dbFails then Done (ServerError "D1 read failed")
          else
            let rows := select byBoatThenTime raceId from to table in
            match replayFrames rows from to stepMs with
            | Done frames => Done (Replay raceId from to hz stepMs frames)
            | Threw => Threw
            | OutOfFuel => OutOfFuel
            end
    | _, _ => Done (BadRequest "from/to must be unix ms")
    end.

(** POST /track, up to the point that is stored: the validation of the
    body and the TrackPoint built from it. [now] is [Date.now()]. *)
Record TrackBody : Type := {
  p_raceId : value;
  p_boatId : value;
  p_lat : value;
  p_lon : value;
  p_t : value;
  p_sog : value;
  p_cog : value;
  p_name : value
}.

Definition Qabs_gt (x bound : Q) : bool := Qlt_bool bound (Qabs x).

Definition finiteOf (v : value) : option Q :=
  match v with VNumber (Fin q) => Some q | _ => None end.

Definition trackPoint (now : Q) (p : TrackBody) : string + TrackPoint :=
  let raceId := Trim co (ToString co (or_else (p_raceId p) (VString ""))) in
  let boatId := Trim co (ToString co (or_else (p_boatId p) (VString ""))) in
  if emptyStr raceId then inl "raceId is required"
  else if emptyStr boatId then inl "boatId is required"
  else
    match ToNumber co (p_lat p), ToNumber co (p_lon p) with
    | Fin lat, Fin lon =>
        if Qabs_gt lat 90 || Qabs_gt lon 180 then inl "lat/lon out of range"
        else
          inr {| tp_raceId := raceId; tp_boatId := boatId;
                 tp_t := match finiteOf (p_t p) with
                         | Some t => inject_Z (floor t)
                         | None => now
                         end;
                 tp_lat := lat; tp_lon := lon;
                 tp_sog := finiteOf (p_sog p);
                 tp_cog := finiteOf (p_cog p);
                 tp_name := if truthy (p_name p)
                            then Some (String.substring 0 80
                                         (ToString co (p_name p)))
                            else None |}
    | _, _ => inl "lat/lon must be numbers"
    end.
End Handlers.

End IndexSmoothed.

(* ===================================================================== *)
(** * The interpolation of part_003 in binary64                           *)
(* ===================================================================== *)

(** [lerp] and the weight computed by [interp], over the kernel's binary64
    numbers: the arithmetic the worker really runs, kept beside the exact
    one to evaluate the scenarios in both. *)
Module Binary64.
Import PrimFloat.

Definition min (a b : float) : float :=
  if orb (is_nan a) (is_nan b) then nan else if ltb b a then b else a.

Definition max (a b : float) : float :=
  if orb (is_nan a) (is_nan b) then nan else if ltb a b then b else a.

Definition clamp (n lo hi : float) : float := max lo (min hi n).

Definition lerp (a b x : float) : float := add a (mul (sub b a) x).

(** [x] of [interp(p0, p1, t)], from the times of the two points. *)
Definition weight (t0 t1 t : float) : float :=
  let span := sub t1 t0 in
  let alpha := if leb span 0%float then 0%float else div (sub t t0) span in
  clamp alpha 0%float 1%float.

(** The latitude of scenario B at t = 2000, and that of a boat a quarter of
    the way from (t=500, lat=0) to (t=2500, lat=20). *)
Definition midpointB : float :=
  lerp 0%float 4%float (weight 0%float 4000%float 2000%float).
Definition quarterWay : float :=
  lerp 0%float 20%float (weight 500%float 2500%float 1000%float).
Definition two : float := 2%float.
Definition five : float := 5%float.

End Binary64.

(* ===================================================================== *)
(** * unnamed/part_004: handleReplay, last known point per boat           *)
(* ===================================================================== *)

Module IndexLastKnown.
Import TrackLog.

Record Boat : Type := {
  bt_boatId : string;
  bt_name : option string;
  bt_lat : Q;
  bt_lon : Q;
  bt_sog : option Q;
  bt_cog : option Q;
  bt_t : Q
}.

Record Frame : Type := { f_t : num; f_boats : list Boat }.

Definition toBoat (p : Row) : Boat :=
  {| bt_boatId := row_boatId p; bt_name := row_name p; bt_lat := row_lat p;
     bt_lon := row_lon p; bt_sog := row_sog p; bt_cog := row_cog p;
     bt_t := row_t p |}.

(** [while (cursor < points.length && Number(points[cursor].t) <= t)] *)
Fixpoint consume (fuel : nat) (points : list Row) (t : num)
         (cursor : nat) (boatsLatest : OMap.t Row) : nat * OMap.t Row :=
  match fuel with
  | O => (cursor, boatsLatest)
  | S k =>
      match points !! cursor with
      | Some p =>
          if le (Fin (row_t p)) t
          then consume k points t (S cursor) (OMap.set (row_boatId p) p boatsLatest)
          else (cursor, boatsLatest)
      | None => (cursor, boatsLatest)
      end
  end.

(** [for (let t = from; t <= effectiveTo; t += stepMs)], with an exact
    counter as in [IndexSmoothed.frameLoop]. *)
Fixpoint frameLoop (fuel : nat) (points : list Row) (effectiveTo : Q)
         (stepMs : num) (t : num) (cursor : nat) (boatsLatest : OMap.t Row)
         (frames : list Frame) : Run (list Frame) :=
  match fuel with
  | O => OutOfFuel
  | S k =>
      if le t (Fin effectiveTo) then
        let '(cursor, boatsLatest) :=
          consume (length points) points t cursor boatsLatest in
        let boats := List.map toBoat (OMap.values boatsLatest) in
        frameLoop k points effectiveTo stepMs (add t stepMs) cursor boatsLatest
                  (frames ++ [{| f_t := t; f_boats := boats |}])
      else Done frames
  end.

(** The fuel of the frame loop; a step that is not a finite number ends the
    loop after the first frame. *)
Definition framesFuel (from effectiveTo : Q) (stepMs : num) : nat :=
  match stepMs with
  | Fin s => loopFuel from effectiveTo s
  | _ => 2%nat
  end.

Definition replayFrames (points : list Row) (from effectiveTo : Q)
           (stepMs : num) : Run (list Frame) :=
  frameLoop (framesFuel from effectiveTo stepMs) points effectiveTo stepMs
            (Fin from) 0%nat [] [].

Record Query : Type := {
  q_raceId : option string;
  q_from : option string;
  q_to : option string;
  q_hz : option string
}.

Inductive Response : Type :=
| Error400 (msg : string)
| Replay (raceId : string) (from to : Q) (hz stepMs : num)
         (frames : list Frame).                           (* 200, ok: true *)

Definition maxWindowMs : Q := 6 * 60 * 60 * 1000.

Section Handlers.
Variable co : Coercions.

(** [clamp] is imported from ./utils, which is not among the sources. *)
Variable clamp : num -> Q -> Q -> num.

Definition stepMsOf (safeHz : num) : num := roundNum (div (Fin 1000) safeHz).

(** [dbFails] says that the D1 read rejects; nothing catches it. *)
Definition handleReplay (dbFails : bool) (q : Query) (table : list Row)
  : Run Response :=
  let raceId := ToString co (or_else (param (q_raceId q)) (VString "")) in
  if emptyStr raceId then Done (Error400 "raceId is required")
  else
    let from := ToNumber co (param (q_from q)) in
    let to := ToNumber co (param (q_to q)) in
    let hz := ToNumber co (or_else (param (q_hz q)) (VString "1")) in
    match from, to with
    | Fin from, Fin to =>
        if Qle_bool to from then Done (Error400 "to must be > from")
        else
          let safeHz := clamp hz (1 # 10) 10 in
          let stepMs := stepMsOf safeHz in
          let windowMs := to - from in
          let effectiveTo :=
            if Qlt_bool maxWindowMs windowMs then from + maxWindowMs else to in
          if dbFails then Threw
          else
            let points := select byTime raceId from effectiveTo table in
            match replayFrames points from effectiveTo stepMs with
            | Done frames =>
                Done (Replay raceId from effectiveTo safeHz stepMs frames)
            | Threw => Threw
            | OutOfFuel => OutOfFuel
            end
    | _, _ => Done (Error400 "from/to must be unix ms")
    end.
End Handlers.

End IndexLastKnown.

(* ===================================================================== *)
(** * unnamed/part_001: handleReplay, hz clamped to 0.1..10               *)
(* ===================================================================== *)

Module IndexBuckets.
Import TrackLog.

Record TrackPoint : Type := {
  tp_raceId : string;
  tp_boatId : string;
  tp_name : option string;
  tp_lat : Q;
  tp_lon : Q;
  tp_sog : option Q;
  tp_cog : option Q;
  tp_t : Q                   (* unix ms *)
}.

Record Frame : Type := { f_t : Q; f_boats : list TrackPoint }.

Definition toTrackPoint (r : Row) : TrackPoint :=
  {| tp_raceId := row_raceId r; tp_boatId := row_boatId r;
     tp_name := row_name r; tp_lat := row_lat r; tp_lon := row_lon r;
     tp_sog := row_sog r; tp_cog := row_cog r; tp_t := row_t r |}.

(** [while (rowIdx < rows.length && Number(rows[rowIdx].t) <= ts)] *)
Fixpoint consume (fuel : nat) (rows : list Row) (ts : Q)
         (rowIdx : nat) (lastByBoat : OMap.t TrackPoint)
  : nat * OMap.t TrackPoint :=
  match fuel with
  | O => (rowIdx, lastByBoat)
  | S k =>
      match rows !! rowIdx with
      | Some r =>
          if Qle_bool (row_t r) ts
          then consume k rows ts (S rowIdx)
                       (OMap.set (row_boatId r) (toTrackPoint r) lastByBoat)
          else (rowIdx, lastByBoat)
      | None => (rowIdx, lastByBoat)
      end
  end.

(** [for (let ts = from; ts <= to; ts += stepMs)], with an exact counter
    as in [IndexSmoothed.frameLoop]. *)
Fixpoint frameLoop (fuel : nat) (rows : list Row) (to : Q) (stepMs : Z)
         (ts : Q) (rowIdx : nat) (lastByBoat : OMap.t TrackPoint)
         (frames : list Frame) : Run (list Frame) :=
  match fuel with
  | O => OutOfFuel
  | S k =>
      if Qle_bool ts to then
        let '(rowIdx, lastByBoat) :=
          consume (length rows) rows ts rowIdx lastByBoat in
        frameLoop k rows to stepMs (ts + inject_Z stepMs) rowIdx lastByBoat
                  (frames ++ [{| f_t := ts; f_boats := OMap.values lastByBoat |}])
      else Done frames
  end.

Record Query : Type := {
  q_raceId : option string;
  q_from : option string;
  q_to : option string;
  q_hz : option string
}.

Inductive Response : Type :=
| Bad (msg : string)                                      (* 400 *)
| Replay (raceId : string) (from to hz : Q) (stepMs : Z)
         (frames : list Frame).                           (* 200, ok: true *)

Section Handlers.
Variable co : Coercions.

Definition toNumber (v : value) : option Q :=
  match v with
  | VNumber (Fin q) => Some q
  | VString s =>
      if negb (emptyStr (Trim co s)) && isFinite (StringToNumber co s)
      then match StringToNumber co s with Fin q => Some q | _ => None end
      else None
  | _ => None
  end.

(** [Math.max(0.1, Math.min(10, toNumber(...) ?? 2))]  clamp 0.1..10 *)
Definition hzOf (hzParam : option string) : Q :=
  Qmax (1 # 10) (Qmin 10 (nullish (toNumber (param hzParam)) 2)).

(** [Math.max(50, Math.round(1000 / hz))]  at least 50ms steps *)
Definition stepMsOf (hz : Q) : Z := Z.max 50 (round (1000 / hz)).

(** [dbFails] says that the D1 read rejects; nothing catches it. *)
Definition handleReplay (dbFails : bool) (q : Query) (table : list Row)
  : Run Response :=
  let raceId := match q_raceId q with
                | Some s => ToString co (or_else (VString (Trim co s)) (VString ""))
                | None => ""
                end in
  let from := toNumber (param (q_from q)) in
  let to := toNumber (param (q_to q)) in
  let hz := hzOf (q_hz q) in
  if emptyStr raceId then Done (Bad "raceId is required")
  else
    match from, to with
    | Some from, Some to =>
        if negb (Qlt_bool from to) then Done (Bad "to must be > from")
        else
          let stepMs := stepMsOf hz in
          if dbFails then Threw
          else
            let rows := select byTime raceId from to table in
            match frameLoop (loopFuel from to (inject_Z stepMs)) rows to stepMs
                            from 0%nat [] [] with
            | Done frames => Done (Replay raceId from to hz stepMs frames)
            | Threw => Threw
            | OutOfFuel => OutOfFuel
            end
    | _, _ => Done (Bad "from/to must be unix ms")
    end.
End Handlers.

End IndexBuckets.

(* ===================================================================== *)
(** * src/index.ts: the worker in front of the race channels              *)
(* ===================================================================== *)

Module IndexTs.
Import RaceStateTs.

(** A parsed JSON body, read field by field: [fields k] is [body?.k],
    [undefined] for a field that is absent and for every field of a body
    that is not an object. *)
Definition Fields : Type := string -> value.

Inductive Payload : Type :=
| NotJson
| Parsed (fields : Fields).

Record Request : Type := {
  method : string;
  path : string;
  q_raceId : option string;      (* url.searchParams.get("raceId") *)
  q_boatId : option string;
  q_name : option string;
  q_key : option string;
  upgradeWebSocket : bool;
  payload : Payload
}.

(** What ownTracksToUpdatePayload returns when it is not null. *)
Record UpdatePayload : Type := {
  u_raceId : string;
  u_boatId : string;
  u_lat : Q;
  u_lon : Q;
  u_t : Q;
  u_sog : option Q;
  u_cog : option Q;
  u_name : option string
}.

(** [a ?? b] on values. *)
Definition coalesce (a b : value) : value :=
  match a with VUndefined | VNull => b | _ => a end.

(** [a || b] on strings. *)
Definition orStr (a b : string) : string := if emptyStr a then b else a.

Definition finite (n : num) : option Q :=
  match n with Fin q => Some q | _ => None end.

Inductive Response : Type :=
| Plain (status : Z) (text : string)
| Redirect                                       (* 302, /finntrack.html *)
| RaceList                                       (* listPredefinedRaces() *)
| FromChannel (r : RaceStateTs.Response).        (* withCors(resp) *)

Inductive Outcome : Type :=
| Returned (r : Response)
| Rejected.

(** The Durable Objects of the RACE_STATE namespace, by name, and the
    "races:index" entry of the HISTORY namespace they share. *)
Record World : Type := {
  channels : gmap string State;
  history : list string
}.

(** The object [stubForRace(env, raceId)] talks to. *)
Definition channelOf (w : World) (raceId : string) : State :=
  let s := default initial (channels w !! raceId) in
  {| roster := roster s; latest := latest s; sockets := sockets s;
     loaded := loaded s; storage := storage s; racesIndex := history w |}.

(** The body of an /update request as the channel reads it. *)
Definition bodyOf (f : Fields) : Body :=
  {| b_raceId := f "raceId"; b_boatId := f "boatId";
     b_boatName := f "boatName"; b_nation := f "nation";
     b_lat := f "lat"; b_lon := f "lon"; b_t := f "t";
     b_sog := f "sog"; b_speed := f "speed"; b_cog := f "cog";
     b_course := f "course"; b_heading := f "heading"; b_heel := f "heel" |}.

Definition optNumber (o : option Q) : value :=
  match o with Some q => VNumber (Fin q) | None => VUndefined end.

Definition optText (o : option string) : value :=
  match o with Some s => VString s | None => VUndefined end.

(** [JSON.stringify(updatePayload)], parsed again. *)
Definition fieldsOf (u : UpdatePayload) : Fields :=
  fun k =>
    if String.eqb k "raceId" then VString (u_raceId u)
    else if String.eqb k "boatId" then VString (u_boatId u)
    else if String.eqb k "lat" then VNumber (Fin (u_lat u))
    else if String.eqb k "lon" then VNumber (Fin (u_lon u))
    else if String.eqb k "t" then VNumber (Fin (u_t u))
    else if String.eqb k "sog" then optNumber (u_sog u)
    else if String.eqb k "cog" then optNumber (u_cog u)
    else if String.eqb k "name" then optText (u_name u)
    else VUndefined.

Definition toChannelPayload (p : Payload) : RaceStateTs.Payload :=
  match p with
  | NotJson => BadJson
  | Parsed f => Json (bodyOf f)
  end.

Section Handlers.
Variable co : Coercions.
Variable localeCompare : string -> string -> Z.

(** [String.prototype.toLowerCase] is built in. *)
Variable toLowerCase : string -> string.

(** [env.OWNTRACKS_KEY] *)
Variable ownTracksKey : option string.

(** [String(v || "").trim()] *)
Definition trimmed (v : value) : string :=
  Trim co (ToString co (or_else v (VString ""))).

(** [now] is the reading of [Date.now()]. *)
Definition ownTracksToUpdatePayload (now : Q) (r : Request) (body : Fields)
  : option UpdatePayload :=
  let raceId := trimmed (param (q_raceId r)) in
  if emptyStr raceId then None
  else
    let boatId :=
      orStr (trimmed (param (q_boatId r)))
        (orStr (trimmed (body "boatId"))
           (orStr (trimmed (body "userid"))
              (orStr (trimmed (body "user"))
                 (orStr (trimmed (body "tid"))
                        (trimmed (body "deviceid")))))) in
    if emptyStr boatId then None
    else
      let lat := ToNumber co (body "lat") in
      let lon := ToNumber co (coalesce (coalesce (body "lon") (body "lng"))
                                       (body "longitude")) in
      match lat, lon with
      | Fin lat, Fin lon =>
          let t := ToNumber co (coalesce (coalesce (body "tst") (body "t"))
                                         (VNumber (Fin (now / 1000)))) in
          let t := match t with
                   | Fin q => q
                   | _ => inject_Z (floor (now / 1000))
                   end in
          let t := if Qlt_bool 1000000000000 t
                   then inject_Z (floor (t / 1000)) else t in
          let sog := ToNumber co (coalesce (coalesce (body "vel") (body "sog"))
                                           (body "speed")) in
          let cog := ToNumber co (coalesce (body "cog") (body "heading")) in
          let name := trimmed (or_else (body "name") (param (q_name r))) in
          Some {| u_raceId := raceId; u_boatId := boatId;
                  u_lat := lat; u_lon := lon; u_t := t;
                  u_sog := finite sog; u_cog := finite cog;
                  u_name := if emptyStr name then None else Some name |}
      | _, _ => None
      end.

Definition Result : Type := Outcome * World * list (WebSocket * Event).

(** [await stubForRace(env, raceId).fetch(req)]: the object named [raceId]
    handles the request; a rejection is not caught. *)
Definition forward (e : Env) (raceId : string) (req : RaceStateTs.Request)
           (w : World) : Result :=
  let '(out, s, sent) :=
    RaceStateTs.fetch co localeCompare e req (channelOf w raceId) in
  (match out with
   | RaceStateTs.Returned resp => Returned (FromChannel resp)
   | RaceStateTs.Rejected => Rejected
   end,
   {| channels := <[raceId := s]> (channels w); history := racesIndex s |},
   sent).

Definition updateRequest (body : Body) : RaceStateTs.Request :=
  {| RaceStateTs.method := "POST"; RaceStateTs.path := "/update";
     RaceStateTs.upgradeWebSocket := false;
     RaceStateTs.payload := Json body |}.

Definition sameRequest (r : Request) : RaceStateTs.Request :=
  {| RaceStateTs.method := method r; RaceStateTs.path := path r;
     RaceStateTs.upgradeWebSocket := upgradeWebSocket r;
     RaceStateTs.payload := toChannelPayload (payload r) |}.

Definition ingestOwnTracks (e : Env) (now : Q) (r : Request) (w : World)
  : Result :=
  if negb (String.eqb (method r) "POST")
  then (Returned (Plain 405 "Method Not Allowed"), w, [])
  else if match ownTracksKey with
          | Some k =>
              negb (emptyStr k)
              && (let key := ToString co (or_else (param (q_key r)) (VString "")) in
                  emptyStr key || negb (String.eqb key k))
          | None => false
          end
  then (Returned (Plain 401 "Unauthorized"), w, [])
  else
    match payload r with
    | NotJson => (Returned (Plain 400 "Bad JSON"), w, [])
    | Parsed body =>
        let t := toLowerCase (ToString co (or_else (body "_type") (VString ""))) in
        if negb (emptyStr t) && negb (String.eqb t "location")
        then (Returned (Plain 200 "ok"), w, [])
        else
          match ownTracksToUpdatePayload now r body with
          | None =>
              (Returned (Plain 400 "Missing raceId/boatId/lat/lon"), w, [])
          | Some u =>
              forward e (u_raceId u) (updateRequest (bodyOf (fieldsOf u))) w
          end
    end.

Definition readOnlyPath (p : string) : bool :=
  String.eqb p "/boats" || String.eqb p "/replay-multi"
  || String.eqb p "/autocourse" || String.eqb p "/export/gpx"
  || String.eqb p "/export/kml".

(** The worker's [fetch]. [e] is what the environment supplies to the
    channel during the call, [now] the worker's own reading of the clock. *)
Definition fetch (e : Env) (now : Q) (r : Request) (w : World) : Result :=
  if String.eqb (method r) "OPTIONS" then (Returned (Plain 204 ""), w, [])
  else if (String.eqb (method r) "GET" || String.eqb (method r) "HEAD")
          && (String.eqb (path r) "/" || String.eqb (path r) "/index.html"
              || String.eqb (path r) "/finntrack")
  then (Returned Redirect, w, [])
  else if String.eqb (method r) "GET" && String.eqb (path r) "/race/list"
  then (Returned RaceList, w, [])
  else if String.eqb (method r) "GET" && String.eqb (path r) "/health"
  then (Returned (Plain 200 "ok"), w, [])
  else if String.eqb (path r) "/ingest/owntracks"
  then ingestOwnTracks e now r w
  else if String.eqb (path r) "/ws/live"
  then
    if negb (truthy (param (q_raceId r)))
    then (Returned (Plain 400 "Missing raceId"), w, [])
    else forward e (ToString co (param (q_raceId r))) (sameRequest r) w
  else if readOnlyPath (path r)
  then
    if negb (truthy (param (q_raceId r)))
    then (Returned (Plain 400 "Missing raceId"), w, [])
    else forward e (ToString co (param (q_raceId r))) (sameRequest r) w
  else if String.eqb (method r) "POST" && String.eqb (path r) "/update"
  then
    match payload r with
    | NotJson => (Returned (Plain 400 "Bad JSON"), w, [])
    | Parsed body =>
        let raceId := ToString co (or_else (body "raceId") (VString "")) in
        if emptyStr raceId
        then (Returned (Plain 400 "Missing raceId"), w, [])
        else forward e raceId (updateRequest (bodyOf body)) w
    end
  else (Returned (Plain 404 "Not found"), w, []).

End Handlers.

(** No object has been created and the index is empty. *)
Definition empty : World := {| channels := ∅; history := [] |}.

End IndexTs.

(* ===================================================================== *)
(** * unnamed/part_004: handleTrack and insertPointsD1                    *)
(* ===================================================================== *)

Module IndexLastKnownTrack.
Import TrackLog.

(** A parsed JSON object, read field by field: [fields k] is the value of
    field [k], [undefined] when the field is absent. An element of [boats]
    that is not an object reads as no field at all. *)
Definition Fields : Type := string -> value.

(** The request body: not JSON, the JSON [null], an object with a [boats]
    array, or any other value (an object without such an array, or a
    number, string or boolean, which have none of the fields read). *)
Inductive Payload : Type :=
| NotJson
| Null
| Batch (body : Fields) (boats : list Fields)
| Single (body : Fields).

Record TrackPoint : Type := {
  tp_raceId : string;
  tp_boatId : string;
  tp_name : option string;
  tp_lat : Q;
  tp_lon : Q;
  tp_sog : option Q;
  tp_cog : option Q;
  tp_t : Q
}.

Inductive Response : Type :=
| Error400 (msg : string)
| Accepted (n : nat).                                  (* 200, ok: true *)

(** [v != null] *)
Definition notNull (v : value) : bool :=
  match v with VUndefined | VNull => false | _ => true end.

Definition finite (n : num) : option Q :=
  match n with Fin q => Some q | _ => None end.



Section Handlers.
Variable co : Coercions.

(** The point built from one element of [boats], or from the body of a
    single-point request; [now] is the reading of [Date.now()]. *)
Definition pointOf (raceId : string) (now : Q) (b : Fields)
  : string + TrackPoint :=
  let boatId := ToString co (or_else (or_else (b "boatId") (b "id"))
                                     (VString "")) in
  if emptyStr boatId then inl "boatId is required"
  else
    match ToNumber co (b "lat"), ToNumber co (b "lon") with
    | Fin lat, Fin lon =>
        match (if notNull (b "t") then ToNumber co (b "t") else Fin now) with
        | Fin t =>
            let sog := if notNull (b "sog") then finite (ToNumber co (b "sog"))
                       else None in
            let cog := if notNull (b "cog") then finite (ToNumber co (b "cog"))
                       else None in
            inr {| tp_raceId := raceId; tp_boatId := boatId;
                   tp_name := if notNull (b "name")
                              then Some (ToString co (b "name")) else None;
                   tp_lat := lat; tp_lon := lon;
                   tp_sog := sog; tp_cog := cog; tp_t := t |}
        | _ => inl "t must be unix ms"
        end
    | _, _ => inl "lat/lon must be numbers"
    end.

(** [for (const b of body.boats)]: the first element that fails ends the
    request. *)
Fixpoint collect (raceId : string) (now : Q) (boats : list Fields)
         (points : list TrackPoint) : string + list TrackPoint :=
  match boats with
  | [] => inr points
  | b :: rest =>
      match pointOf raceId now b with
      | inl msg => inl msg
      | inr p => collect raceId now rest (points ++ [p])
      end
  end.

Definition raceIdOf (body : Fields) : string :=
  ToString co (or_else (or_else (body "raceId") (body "raceID")) (VString "")).

(** handleTrack: the response, and the points handed to the Durable Object
    and to [insertPointsD1]. Reading a field of [null] throws. *)
Definition handleTrack (now : Q) (p : Payload)
  : Run (Response * list TrackPoint) :=
  match p with
  | NotJson => Done (Error400 "Invalid JSON", [])
  | Null => Threw
  | Batch body boats =>
      let raceId := raceIdOf body in
      if emptyStr raceId then Done (Error400 "raceId is required", [])
      else
        match collect raceId now boats [] with
        | inl msg => Done (Error400 msg, [])
        | inr points =>
            if Nat.eqb (length points) 0 then Done (Error400 "no points", [])
            else Done (Accepted (length points), points)
        end
  | Single body =>
      let raceId := raceIdOf body in
      if emptyStr raceId then Done (Error400 "raceId is required", [])
      else
        match pointOf raceId now body with
        | inl msg => Done (Error400 msg, [])
        | inr pt => Done (Accepted 1, [pt])
        end
  end.

End Handlers.
End IndexLastKnownTrack.

(* ===================================================================== *)
(** * unnamed/part_001: normalizeTrackPayload and POST /track             *)
(* ===================================================================== *)

Module IndexBucketsTrack.
Import TrackLog IndexBuckets.

(** A parsed JSON object, read field by field; [undefined] stands for an
    absent field. *)
Definition Fields : Type := string -> value.

(** The request body: not JSON; a value that is no object ([null], a
    number, a string, a boolean); an object whose [boats] is an array, with
    the elements of the array ([None] for an element that is no object);
    any other object. *)
Inductive Payload : Type :=
| NotJson
| NotObject
| Batch (body : Fields) (boats : list (option Fields))
| Single (body : Fields).

Inductive Response : Type :=
| Bad (msg : string)                                   (* 400 *)
| Accepted (n : nat).                                  (* 200, ok: true *)

Section Handlers.
Variable co : Coercions.

(** [typeof v === "string" ? v.trim() : ""] *)
Definition trimmedString (v : value) : string :=
  match v with VString s => Trim co s | _ => "" end.

(** [typeof v === "string" ? v : undefined] *)
Definition stringOnly (v : value) : option string :=
  match v with VString s => Some s | _ => None end.

(** The point built from an element of [boats] or from a single-point
    body. *)
Definition pointOf (raceId : string) (b : Fields) : string + TrackPoint :=
  let boatId := trimmedString (b "boatId") in
  if emptyStr boatId then inl "boatId is required"
  else
    match toNumber co (b "lat"), toNumber co (b "lon") with
    | Some lat, Some lon =>
        match toNumber co (b "t") with
        | Some t =>
            inr {| tp_raceId := raceId; tp_boatId := boatId;
                   tp_name := stringOnly (b "name");
                   tp_lat := lat; tp_lon := lon;
                   tp_sog := toNumber co (b "sog");
                   tp_cog := toNumber co (b "cog"); tp_t := t |}
        | None => inl "t is required (unix ms)"
        end
    | _, _ => inl "lat/lon are required numbers"
    end.

(** [for (const b of boats)] *)
Fixpoint collect (raceId : string) (boats : list (option Fields))
         (points : list TrackPoint) : string + list TrackPoint :=
  match boats with
  | [] => inr points
  | None :: _ => inl "boats[] must be objects"
  | Some b :: rest =>
      match pointOf raceId b with
      | inl msg => inl msg
      | inr p => collect raceId rest (points ++ [p])
      end
  end.

(** The body of normalizeTrackPayload once [body] is known to be parsed. *)
Definition normalizeTrackPayload (p : Payload) : string + list TrackPoint :=
  match p with
  | NotJson | NotObject => inl "Invalid JSON"
  | Batch body boats =>
      let raceId := trimmedString (body "raceId") in
      if emptyStr raceId then inl "raceId is required"
      else collect raceId boats []
  | Single body =>
      let raceId := trimmedString (body "raceId") in
      if emptyStr raceId then inl "raceId is required"
      else match pointOf raceId body with
           | inl msg => inl msg
           | inr pt => inr [pt]
           end
  end.

(** POST /track: the response and the points sent to the Durable Object.
    [normalized[0].raceId] throws when the array is empty. *)
Definition track (p : Payload) : Run (Response * list TrackPoint) :=
  match p with
  | NotJson => Done (Bad "Invalid JSON", [])
  | _ =>
      match normalizeTrackPayload p with
      | inl msg => Done (Bad msg, [])
      | inr [] => Threw
      | inr (first :: rest) =>
          Done (Accepted (length (first :: rest)), first :: rest)
      end
  end.

End Handlers.
End IndexBucketsTrack.

(* ===================================================================== *)
(** * unnamed/part_003: the Durable Object behind /live and /track        *)
(* ===================================================================== *)

(** The class RaceState of part_003: the last point of every boat, pruned
    after two minutes, and the sockets watching. The body of /ingest is the
    TrackPoint the worker has validated and written to D1. The order in
    which the map is enumerated is not modelled; the sort arranges it. *)
Module RaceStateLatest.
Import IndexSmoothed.

Definition ACTIVE_MS : Q := 120000.

Definition WebSocket : Type := nat.

Record State : Type := {
  boats : gmap string LiveBoat;
  watchers : list WebSocket;
  storage : option (gmap string LiveBoat)    (* under the key "boats" *)
}.

Inductive Payload : Type :=
| BadJson
| Json (p : TrackPoint).

Record Request : Type := {
  method : string;
  path : string;
  upgradeIsWebsocket : bool;     (* the Upgrade header is "websocket" *)
  payload : Payload
}.

Record Env : Type := {
  now_prune : Q;                 (* Date.now() in prune *)
  now_sent : Q;                  (* the t of a snapshot *)
  putFails : bool;
  sendFails : WebSocket -> bool;
  newSocket : WebSocket
}.

Inductive Event : Type :=
| Snapshot (boats : list LiveBoat) (t : Q)
| Point (boat : LiveBoat).

Inductive Response : Type :=
| Text (status : Z) (text : string)
| Latest (boats : list LiveBoat) (t : Q)               (* 200, ok: true *)
| Switching (server : WebSocket).                      (* 101 *)

Inductive Outcome : Type :=
| Returned (r : Response)
| Rejected.

Definition Result : Type := Outcome * State * list (WebSocket * Event).

(** The constructor, run to its end before any request is handled. *)
Definition construct (stored : option (gmap string LiveBoat)) : State :=
  {| boats := match stored with Some saved => saved | None => ∅ end;
     watchers := []; storage := stored |}.

Section Handlers.
Variable localeCompare : string -> string -> Z.

(** [now - boat.t > this.ACTIVE_MS] *)
Definition stale (now : Q) (boat : LiveBoat) : bool :=
  Qlt_bool ACTIVE_MS (now - lb_t boat).

Definition prune (e : Env) (s : State) : State :=
  {| boats := filter (fun kb => stale (now_prune e) kb.2 = false) (boats s);
     watchers := watchers s; storage := storage s |}.

Definition snapshot (e : Env) (s : State) : State * list LiveBoat :=
  let s := prune e s in
  (s, Array_sort (fun a b => localeCompare (lb_boatId a) (lb_boatId b))
                 ((map_to_list (boats s)).*2)).

(** A watcher whose send throws is closed and dropped. *)
Definition broadcast (e : Env) (ev : Event) (s : State)
  : State * list (WebSocket * Event) :=
  ({| boats := boats s;
      watchers := List.filter (fun ws => negb (sendFails e ws)) (watchers s);
      storage := storage s |},
   List.map (fun ws => (ws, ev))
            (List.filter (fun ws => negb (sendFails e ws)) (watchers s))).

(** The map is copied into a plain object, [obj[k] = v], and the object is
    stored: what the storage holds are its own properties. *)
Definition persist (e : Env) (s : State) : option State :=
  if putFails e then None
  else Some {| boats := boats s; watchers := watchers s;
               storage := Some (own (dictOfMap (boats s))) |}.

Definition liveBoatOf (p : TrackPoint) : LiveBoat :=
  {| lb_boatId := tp_boatId p; lb_name := tp_name p; lb_lat := tp_lat p;
     lb_lon := tp_lon p; lb_sog := tp_sog p; lb_cog := tp_cog p;
     lb_t := tp_t p |}.

Definition fetch (e : Env) (r : Request) (s : State) : Result :=
  if String.eqb (path r) "/ws" then
    if negb (upgradeIsWebsocket r)
    then (Returned (Text 426 "Expected websocket"), s, [])
    else
      let server := newSocket e in
      let s1 := {| boats := boats s;
                   watchers := if bool_decide (server ∈ watchers s)
                               then watchers s else watchers s ++ [server];
                   storage := storage s |} in
      let '(s2, boats) := snapshot e s1 in
      if sendFails e server then (Rejected, s2, [])
      else (Returned (Switching server), s2,
            [(server, Snapshot boats (now_sent e))])
  else if String.eqb (path r) "/ingest" && String.eqb (method r) "POST" then
    match payload r with
    | BadJson => (Returned (Text 400 "Bad JSON"), s, [])
    | Json p =>
        let boat := liveBoatOf p in
        let s1 := {| boats := <[tp_boatId p := boat]> (boats s);
                     watchers := watchers s; storage := storage s |} in
        match persist e s1 with
        | None => (Rejected, s1, [])
        | Some s2 =>
            let '(s3, sent) := broadcast e (Point boat) s2 in
            (Returned (Text 200 "ok"), s3, sent)
        end
    end
  else if String.eqb (path r) "/latest" then
    let '(s1, boats) := snapshot e s in
    (Returned (Latest boats (now_sent e)), s1, [])
  else (Returned (Text 404 "Not found"), s, []).

End Handlers.
End RaceStateLatest.

(* ===================================================================== *)
(** * A reading of the built-in coercions, for the scenarios              *)
(* ===================================================================== *)

(** Unsigned decimal integers convert both ways; the empty string reads as
    0 and any other text as NaN; the spaces trimmed are the ASCII ones. *)
Module Sample.

Definition isDigit (c : ascii) : bool :=
  (48 <=? nat_of_ascii c)%nat && (nat_of_ascii c <=? 57)%nat.

Fixpoint digits (s : string) (acc : Z) : option Z :=
  match s with
  | EmptyString => Some acc
  | String c s' =>
      if isDigit c
      then digits s' (10 * acc + Z.of_nat (nat_of_ascii c - 48))%Z
      else None
  end.

Definition stringToNumber (s : string) : num :=
  match digits s 0%Z with
  | Some z => Fin (inject_Z z)
  | None => NaN
  end.

Fixpoint natDigits (fuel n : nat) (acc : string) : string :=
  match fuel with
  | O => acc
  | S k =>
      let acc := String (ascii_of_nat (48 + n mod 10)) acc in
      if (n / 10 =? 0)%nat then acc else natDigits k (n / 10)%nat acc
  end.

Definition numberToString (n : num) : string :=
  match n with
  | Fin q => if Qle_bool 0 q
             then natDigits (S (Z.to_nat (Qfloor q))) (Z.to_nat (Qfloor q)) ""
             else "-" ++ natDigits (S (Z.to_nat (Qfloor (- q))))
                                   (Z.to_nat (Qfloor (- q))) ""
  | NaN => "NaN"
  | PosInf => "Infinity"
  | NegInf => "-Infinity"
  end%string.

Definition isSpace (c : ascii) : bool :=
  let n := nat_of_ascii c in
  (n =? 32)%nat || ((9 <=? n)%nat && (n <=? 13)%nat).

Fixpoint trimLeft (s : string) : string :=
  match s with
  | String c s' => if isSpace c then trimLeft s' else s
  | EmptyString => EmptyString
  end.

Fixpoint trimRight (s : string) : string :=
  match s with
  | EmptyString => EmptyString
  | String c s' =>
      match trimRight s' with
      | EmptyString => if isSpace c then EmptyString else String c EmptyString
      | r => String c r
      end
  end.

Definition coercions : Coercions :=
  {| StringToNumber := stringToNumber;
     NumberToString := numberToString;
     Trim := fun s => trimRight (trimLeft s) |}.

End Sample.

(* ===================================================================== *)
(** * The stable sort arranges and keeps                                  *)
(* ===================================================================== *)

Section StableFacts.
Context {A : Type} (le : A -> A -> bool).

Lemma stable_insert_perm x l : Permutation (Stable.insert le x l) (x :: l).
Proof.
  induction l as [|y l IH]; simpl; [done|].
  destruct (le x y); [done|].
  rewrite IH. apply perm_swap.
Qed.

Lemma stable_sort_perm l : Permutation (Stable.sort le l) l.
Proof.
  induction l as [|x l IH]; simpl; [done|].
  rewrite stable_insert_perm. by constructor.
Qed.

Lemma strongly_sorted_impl (R R' : A -> A -> Prop) l :
  (forall a b, R a b -> R' a b) -> StronglySorted R l -> StronglySorted R' l.
Proof.
  intros HR. induction 1 as [|x l Hs IH Hx]; constructor; [done|].
  eapply Forall_impl; [exact Hx|]. auto.
Qed.

Hypothesis le_total : forall a b, le a b = true \/ le b a = true.
Hypothesis le_trans :
  forall a b c, le a b = true -> le b c = true -> le a c = true.

Lemma stable_insert_sorted x l :
  StronglySorted (fun a b => le a b = true) l ->
  StronglySorted (fun a b => le a b = true) (Stable.insert le x l).
Proof.
  induction 1 as [|y l Hs IH Hy]; simpl.
  - repeat constructor.
  - destruct (le x y) eqn:Hxy.
    + constructor; [by constructor|].
      constructor; [done|].
      eapply Forall_impl; [exact Hy|]. intros z Hz. simpl in *. eauto.
    + constructor; [done|].
      eapply Permutation_Forall; [symmetry; apply stable_insert_perm|].
      constructor; [|done].
      destruct (le_total x y); congruence.
Qed.

Lemma stable_sort_sorted l :
  StronglySorted (fun a b => le a b = true) (Stable.sort le l).
Proof.
  induction l as [|x l IH]; simpl; [constructor|].
  by apply stable_insert_sorted.
Qed.
End StableFacts.

(* ===================================================================== *)
(** * Properties of the race channel (src/raceState.ts)                   *)
(* ===================================================================== *)

Section RaceChannel.
Import RaceStateTs.
Variable co : Coercions.
Variable localeCompare : string -> string -> Z.

Abbreviation update := (RaceStateTs.update co).
Abbreviation join := (RaceStateTs.join co).
Abbreviation fetch := (RaceStateTs.fetch co localeCompare).
Abbreviation safeNum := (RaceStateTs.safeNum co).

(** The ids a request carries, as the handlers compute them. *)
Definition raceIdOf (body : Body) : string :=
  ToString co (or_else (b_raceId body) (VString "")).
Definition boatIdOf (body : Body) : string :=
  ToString co (or_else (b_boatId body) (VString "")).

Lemma emptyStr_true s : emptyStr s = true <-> s = "".
Proof. unfold emptyStr. apply String.eqb_eq. Qed.

Lemma emptyStr_false s : emptyStr s = false <-> s <> "".
Proof. unfold emptyStr. apply String.eqb_neq. Qed.

(** Once the boatId check has passed, [String(body.boatId)] is the id
    that was checked. *)
Lemma boatId_checked body :
  boatIdOf body <> "" -> ToString co (b_boatId body) = boatIdOf body.
Proof.
  unfold boatIdOf, or_else. destruct (truthy (b_boatId body)); [done|].
  simpl. congruence.
Qed.

Lemma mustHave_ok body :
  mustHaveTelemetryFields co body = CheckOk <->
  boatIdOf body <> "" /\ is_Some (safeNum (b_lat body))
  /\ is_Some (safeNum (b_lon body)).
Proof.
  unfold mustHaveTelemetryFields. fold (boatIdOf body).
  destruct (emptyStr (boatIdOf body)) eqn:Hb.
  - apply emptyStr_true in Hb. split; [discriminate|]. intros [? _]. done.
  - apply emptyStr_false in Hb.
    repeat case_bool_decide; simpl; split; try discriminate; try tauto.
Qed.

Lemma mustHave_fail body msg :
  mustHaveTelemetryFields co body = CheckFail msg ->
  boatIdOf body = "" \/ safeNum (b_lat body) = None
  \/ safeNum (b_lon body) = None.
Proof.
  unfold mustHaveTelemetryFields. fold (boatIdOf body).
  destruct (emptyStr (boatIdOf body)) eqn:Hb.
  - apply emptyStr_true in Hb. auto.
  - repeat case_bool_decide; simpl; try discriminate; intros _.
    + right; right. destruct (safeNum (b_lon body)); [|done].
      exfalso; eauto.
    + right; left. destruct (safeNum (b_lat body)); [|done].
      exfalso; eauto.
    + right; left. destruct (safeNum (b_lat body)); [|done].
      exfalso; eauto.
Qed.

(** The condition under which /update answers 400 to a JSON body. *)
Definition invalidUpdate (body : Body) : Prop :=
  raceIdOf body = "" \/ boatIdOf body = ""
  \/ safeNum (b_lat body) = None \/ safeNum (b_lon body) = None.

Lemma invalidUpdate_dec body : invalidUpdate body \/ ~ invalidUpdate body.
Proof.
  unfold invalidUpdate.
  destruct (String.string_dec (raceIdOf body) "");
    destruct (String.string_dec (boatIdOf body) "");
    destruct (safeNum (b_lat body)); destruct (safeNum (b_lon body));
    try (left; tauto); right; intros [?|[?|[?|?]]]; congruence.
Qed.

Lemma update_invalid e body s :
  invalidUpdate body ->
  exists msg, update e (Json body) s = (Returned (Text 400 msg), s, []).
Proof.
  intros Hinv. unfold RaceStateTs.update. fold (raceIdOf body).
  destruct (emptyStr (raceIdOf body)) eqn:Hr; [eauto|].
  apply emptyStr_false in Hr.
  destruct (mustHaveTelemetryFields co body) as [|msg] eqn:Hc; [|eauto].
  apply mustHave_ok in Hc as (Hb & [? Hlat] & [? Hlon]).
  destruct Hinv as [?|[?|[?|?]]]; congruence.
Qed.


Lemma fetch_update e r s :
  method r = "POST" -> path r = "/update" ->
  fetch e r s = update e (payload r) (loadOnce s).
Proof. intros Hm Hp. unfold RaceStateTs.fetch. rewrite Hm, Hp. reflexivity. Qed.

Lemma fetch_join e r s :
  method r = "POST" -> path r = "/join" ->
  fetch e r s = join e (payload r) (loadOnce s).
Proof. intros Hm Hp. unfold RaceStateTs.fetch. rewrite Hm, Hp. reflexivity. Qed.


(** ** What an accepted update does *)

Lemma updateRacesIndex_fields e raceId s :
  roster (updateRacesIndex e raceId s) = roster s
  /\ latest (updateRacesIndex e raceId s) = latest s
  /\ sockets (updateRacesIndex e raceId s) = sockets s
  /\ storage (updateRacesIndex e raceId s) = storage s
  /\ loaded (updateRacesIndex e raceId s) = loaded s.
Proof.
  unfold updateRacesIndex.
  destruct (kvFails e); [done|]. case_bool_decide; done.
Qed.

(** The roster entry an update works on: the one present, or the one it
    creates. *)
Definition entryFor (e : Env) (body : Body) (s : State) : BoatRosterEntry :=
  match roster s !! ToString co (b_boatId body) with
  | Some entry => entry
  | None => autoEntry co e body
  end.

(** The event an accepted update broadcasts. *)
Definition updateEvent (e : Env) (body : Body) (s : State) : Event :=
  let boatId := ToString co (b_boatId body) in
  let t := timeOf co e body in
  Update (now_event e) boatId
         (updateView boatId (seenAt t (entryFor e body s)) t
                     (telemetryOf co e body)).

Lemma update_accepted e body s s' sent :
  update e (Json body) s = (Returned (Text 200 "OK"), s', sent) ->
  let boatId := ToString co (b_boatId body) in
  ~ invalidUpdate body
  /\ putFails e = false
  /\ latest s' = <[boatId := telemetryOf co e body]> (latest s)
  /\ roster s' = <[boatId := seenAt (timeOf co e body) (entryFor e body s)]>
                   (roster s)
  /\ sent = List.map (fun ws => (ws, updateEvent e body s))
                     (List.filter (fun ws => negb (sendFails e ws)) (sockets s)).
Proof.
  intros Hu boatId.
  destruct (invalidUpdate_dec body) as [Hi|Hv].
  { destruct (update_invalid e body s Hi) as [msg Hm].
    rewrite Hm in Hu. discriminate. }
  split; [done|].
  revert Hu. unfold RaceStateTs.update. fold (raceIdOf body).
  destruct (emptyStr (raceIdOf body)) eqn:Hr; [discriminate|].
  destruct (mustHaveTelemetryFields co body) as [|m] eqn:Hc; [|discriminate].
  cbv zeta. fold boatId.
  destruct (updateRacesIndex_fields e (raceIdOf body) s)
    as (Hro & Hla & Hso & _ & _).
  set (s1 := updateRacesIndex e (raceIdOf body) s) in *.
  unfold entryFor, updateEvent. fold boatId. unfold entryFor. fold boatId.
  rewrite <- Hro, <- Hla, <- Hso.
  destruct (roster s1 !! boatId) as [entry|] eqn:Hlook.
  - rewrite bool_decide_true by eauto. simpl. rewrite Hlook.
    unfold persist. destruct (putFails e); [discriminate|]. simpl.
    intros [= <- <-]. done.
  - rewrite bool_decide_false by (intros [? ?]; discriminate). simpl.
    rewrite lookup_insert_eq.
    unfold persist. destruct (putFails e); [discriminate|]. simpl.
    intros [= <- <-]. simpl. rewrite insert_insert_eq. done.
Qed.

(** C4. An accepted update puts the sample built from the request in the
    cache under the boat's id, whatever sample was cached before and whatever
    its [t]: no comparison with the cached [t] takes place. The samples of
    the other boats are left alone. *)
Theorem update_overwrites_telemetry e r body s s' sent :
  method r = "POST" -> path r = "/update" -> payload r = Json body ->
  fetch e r s = (Returned (Text 200 "OK"), s', sent) ->
  latest s' = <[ToString co (b_boatId body) := telemetryOf co e body]>
                (latest (loadOnce s))
  /\ latest s' !! ToString co (b_boatId body) = Some (telemetryOf co e body)
  /\ (forall old,
        latest (loadOnce s) !! ToString co (b_boatId body) = Some old ->
        t_t (telemetryOf co e body) < t_t old ->
        latest s' !! ToString co (b_boatId body) = Some (telemetryOf co e body)).
Proof.
  intros Hm Hp Hb Hu. rewrite fetch_update, Hb in Hu by done.
  apply update_accepted in Hu as (_ & _ & Hl & _).
  rewrite Hl. split; [done|]. split; [apply lookup_insert_eq|].
  intros old _ _. apply lookup_insert_eq.
Qed.

(** ** Join *)

Lemma join_spec e body s :
  raceIdOf body <> "" -> boatIdOf body <> "" ->
  let '(out, s', sent) := join e (Json body) s in
  latest s' = latest s
  /\ (forall old, roster s !! boatIdOf body = Some old ->
        exists new, roster s' !! boatIdOf body = Some new
                    /\ r_joinedAt new = r_joinedAt old)
  /\ (forall other, other <> boatIdOf body ->
        roster s' !! other = roster s !! other)
  /\ (putFails e = false ->
        out = Returned (JoinAck (boatIdOf body) (size (roster s')))
        /\ size (roster s') =
           match roster s !! boatIdOf body with
           | Some _ => size (roster s)
           | None => S (size (roster s))
           end).
Proof.
  intros Hr Hb. unfold RaceStateTs.join.
  fold (raceIdOf body). fold (boatIdOf body).
  apply emptyStr_false in Hr as Hr'. apply emptyStr_false in Hb as Hb'.
  rewrite Hr', Hb'. cbv zeta.
  destruct (updateRacesIndex_fields e (raceIdOf body) s)
    as (Hro & Hla & Hso & _ & _).
  set (s1 := updateRacesIndex e (raceIdOf body) s) in *.
  unfold persist. destruct (putFails e) eqn:Hput; simpl.
  - rewrite Hla, Hro. split; [done|]. split.
    + intros old Hold. rewrite lookup_insert_eq. eexists. split; [done|].
      simpl. rewrite Hold. done.
    + split; [|discriminate].
      intros other Hne. rewrite lookup_insert_ne by done. done.
  - rewrite Hla, Hro. split; [done|]. split.
    + intros old Hold. rewrite lookup_insert_eq. eexists. split; [done|].
      simpl. rewrite Hold. done.
    + split.
      { intros other Hne. rewrite lookup_insert_ne by done. done. }
      intros _. split; [done|].
      rewrite map_size_insert.
      destruct (roster s !! boatIdOf body); done.
Qed.

Lemma join_adds_entry e body s :
  raceIdOf body <> "" -> boatIdOf body <> "" ->
  is_Some (roster (join e (Json body) s).1.2 !! boatIdOf body).
Proof.
  intros Hr Hb. unfold RaceStateTs.join.
  fold (raceIdOf body). fold (boatIdOf body).
  apply emptyStr_false in Hr as Hr'. apply emptyStr_false in Hb as Hb'.
  rewrite Hr', Hb'. cbv zeta.
  unfold persist. destruct (putFails e); simpl;
    rewrite lookup_insert_eq; eauto.
Qed.

(** C6. A join whose raceId and boatId are not empty leaves the telemetry
    map as it was, keeps the [joinedAt] of an entry that existed, and, when
    the snapshot is stored, answers with the size of the roster it leaves:
    one more than before for a new boat, the same for a known one. *)
Theorem join_keeps_joinedAt_and_telemetry e r body s :
  method r = "POST" -> path r = "/join" -> payload r = Json body ->
  raceIdOf body <> "" -> boatIdOf body <> "" ->
  let s0 := loadOnce s in
  let '(out, s', sent) := fetch e r s in
  latest s' = latest s0
  /\ (forall old, roster s0 !! boatIdOf body = Some old ->
        exists new, roster s' !! boatIdOf body = Some new
                    /\ r_joinedAt new = r_joinedAt old)
  /\ (forall other, other <> boatIdOf body ->
        roster s' !! other = roster s0 !! other)
  /\ (putFails e = false ->
        out = Returned (JoinAck (boatIdOf body) (size (roster s')))
        /\ size (roster s') =
           match roster s0 !! boatIdOf body with
           | Some _ => size (roster s0)
           | None => S (size (roster s0))
           end).
Proof.
  intros Hm Hp Hb Hr Hbo. cbv zeta. rewrite fetch_join, Hb by done.
  apply join_spec; done.
Qed.

(** ** Views *)

(** Reading back a key of the map copied into a plain object gives its
    value, the prototype under "__proto__"; the own properties are the
    entries under the other keys. *)
Lemma dictOfMap_lookup {A} (m : gmap string A) k : dictOfMap m !! k = m !! k.
Proof.
  unfold lookup at 1, dict_lookup, dictGet, dictOfMap. simpl.
  destruct (String.eqb k protoKey) eqn:Hk.
  - apply String.eqb_eq in Hk. by subst k.
  - apply String.eqb_neq in Hk. by rewrite lookup_delete_ne.
Qed.

Lemma dictOfMap_own {A} (m : gmap string A) k :
  own (dictOfMap m) !! k = if String.eqb k protoKey then None else m !! k.
Proof.
  unfold dictOfMap. simpl. destruct (String.eqb k protoKey) eqn:Hk.
  - apply String.eqb_eq in Hk. subst k. apply lookup_delete_eq.
  - apply String.eqb_neq in Hk. by rewrite lookup_delete_ne.
Qed.

Lemma boatsView_lookup e s boatId :
  boatsView e s !! boatId
  = viewOf (now_view e) (latest s) boatId <$> roster s !! boatId.
Proof.
  unfold boatsView. rewrite dictOfMap_lookup, map_lookup_imap.
  destruct (roster s !! boatId); done.
Qed.

Lemma boatsView_own e s boatId :
  own (boatsView e s) !! boatId
  = if String.eqb boatId protoKey then None
    else viewOf (now_view e) (latest s) boatId <$> roster s !! boatId.
Proof.
  unfold boatsView. rewrite dictOfMap_own, map_lookup_imap.
  destruct (String.eqb boatId protoKey); [done|].
  destruct (roster s !! boatId); done.
Qed.

(** [entry.lastSeen ?? telem?.t] *)
Definition lastSeenOf (s : State) (boatId : string) (entry : BoatRosterEntry)
  : option Q :=
  match r_lastSeen entry with
  | Some x => Some x
  | None => t_t <$> latest s !! boatId
  end.

Lemma liveAt_true now lastSeen :
  liveAt now lastSeen = true <->
  exists ls, lastSeen = Some ls /\ ~ ls == 0 /\ now - ls <= LIVE_MS.
Proof.
  unfold liveAt. destruct lastSeen as [ls|].
  - destruct (Qeq_bool ls 0) eqn:Hz.
    + apply Qeq_bool_iff in Hz. split; [discriminate|].
      intros (? & [= <-] & Hn & _). done.
    + apply Qeq_bool_neq in Hz. rewrite Qle_bool_iff. split.
      * intros. eexists. done.
      * intros (? & [= <-] & _ & ?). done.
  - split; [discriminate|]. intros (? & ? & _). discriminate.
Qed.

(** With the clock past the first two minutes of 1970, a last report at
    time 0 is stale either way, and the test reads as the claim has it. *)
Lemma liveAt_recent now lastSeen :
  LIVE_MS < now ->
  (liveAt now lastSeen = true <->
   exists ls, lastSeen = Some ls /\ now - ls <= LIVE_MS).
Proof.
  intros Hnow. rewrite liveAt_true. split.
  - intros (ls & ? & _ & ?). eauto.
  - intros (ls & ? & Hle). exists ls. split; [done|]. split; [|done].
    intros Hz. rewrite Hz in Hle. lra.
Qed.

(** The order [boatsViewArray] sorts by: live before stale, and among
    boats of one kind the names in the order of [localeCompare]. *)
Definition before (a b : BoatView) : Prop :=
  (v_live a = true /\ v_live b = false)
  \/ (v_live a = v_live b
      /\ (localeCompare (v_boatName a) (v_boatName b) <= 0)%Z).

Lemma compareViews_before a b :
  (compareViews localeCompare a b <=? 0)%Z = true <-> before a b.
Proof.
  unfold compareViews, before. rewrite Z.leb_le.
  destruct (v_live a), (v_live b); simpl; split; intros; try lia;
    try (right; split; [done|lia]); try (left; done);
    try (destruct H as [[? ?]|[? ?]]; congruence).
Qed.

(** The view built from a channel has, for every roster entry kept as a
    property, its boat: live exactly when its last report is at most 120000
    ms before the clock (whose reading is past the first two minutes of
    1970), with the cached latitude and longitude; the list form holds the
    properties of the view in order, live boats first, then by name. *)
Lemma roster_views e s :
  LIVE_MS < now_view e ->
  (forall a b, (localeCompare a b <= 0)%Z \/ (localeCompare b a <= 0)%Z) ->
  (forall a b c, (localeCompare a b <= 0)%Z -> (localeCompare b c <= 0)%Z ->
                 (localeCompare a c <= 0)%Z) ->
  (forall boatId entry, roster s !! boatId = Some entry ->
     boatId <> protoKey ->
     exists v, own (boatsView e s) !! boatId = Some v
       /\ In v (boatsViewArray localeCompare e s)
       /\ v_lastSeen v = lastSeenOf s boatId entry
       /\ (v_live v = true <->
           exists ls, v_lastSeen v = Some ls /\ now_view e - ls <= LIVE_MS)
       /\ v_lat v = t_lat <$> latest s !! boatId
       /\ v_lng v = t_lon <$> latest s !! boatId)
  /\ Permutation (boatsViewArray localeCompare e s)
                 ((map_to_list (own (boatsView e s))).*2)
  /\ StronglySorted before (boatsViewArray localeCompare e s).
Proof.
  intros Hnow Htot Htrans.
  assert (Hperm : Permutation (boatsViewArray localeCompare e s)
                              ((map_to_list (own (boatsView e s))).*2))
    by apply stable_sort_perm.
  split; [|split; [done|]].
  - intros boatId entry Hentry Hkey.
    apply String.eqb_neq in Hkey.
    exists (viewOf (now_view e) (latest s) boatId entry).
    split; [rewrite boatsView_own, Hkey, Hentry; done|].
    split.
    { apply list_elem_of_In. rewrite Hperm. apply list_elem_of_fmap.
      exists (boatId, viewOf (now_view e) (latest s) boatId entry).
      split; [done|]. apply elem_of_map_to_list.
      rewrite boatsView_own, Hkey, Hentry. done. }
    split; [done|]. split; [|done].
    simpl. apply liveAt_recent. done.
  - unfold boatsViewArray, Array_sort.
    eapply strongly_sorted_impl;
      [|apply stable_sort_sorted].
    + intros a b Hab. apply compareViews_before. exact Hab.
    + intros a b. unfold compareViews.
      destruct (v_live a), (v_live b); simpl; rewrite ?Z.leb_le;
        try (left; lia); try (right; lia); apply Htot.
    + intros a b c. rewrite !compareViews_before. unfold before.
      intros [[? ?]|[? ?]] [[? ?]|[? ?]]; try congruence.
      * left. split; congruence.
      * left. split; congruence.
      * right. split; [congruence|]. eauto.
Qed.

(** ** The incremental event *)

(** C10. The event an accepted update sends to every socket that takes it
    says [live: true] and carries the reported time as [lastSeen], with no
    look at the clock; when that time lies more than 120000 ms before the
    clock, the view built from the state the update leaves marks the same
    boat stale. *)
Theorem update_event_says_live e r body s s' sent :
  method r = "POST" -> path r = "/update" -> payload r = Json body ->
  fetch e r s = (Returned (Text 200 "OK"), s', sent) ->
  let boatId := ToString co (b_boatId body) in
  let t := timeOf co e body in
  sent = List.map (fun ws => (ws, updateEvent e body (loadOnce s)))
           (List.filter (fun ws => negb (sendFails e ws))
                        (sockets (loadOnce s)))
  /\ (exists data,
        updateEvent e body (loadOnce s) = Update (now_event e) boatId data
        /\ v_live data = true /\ v_lastSeen data = Some t)
  /\ (LIVE_MS < now_view e - t ->
      exists v, boatsView e s' !! boatId = Some v
                /\ v_live v = false /\ v_lastSeen v = Some t).
Proof.
  intros Hm Hp Hb Hu boatId t. rewrite fetch_update, Hb in Hu by done.
  apply update_accepted in Hu as (_ & _ & _ & Hro & Hsent).
  split; [done|]. split.
  - eexists. split; [reflexivity|]. done.
  - intros Hold. rewrite boatsView_lookup, Hro.
    fold boatId. fold t. rewrite lookup_insert_eq. simpl.
    eexists. split; [done|]. split; [|done]. simpl.
    destruct (Qeq_bool t 0); [done|].
    destruct (Qle_bool (now_view e - t) LIVE_MS) eqn:Hle; [|done].
    apply Qle_bool_iff in Hle. lra.
Qed.

(** ** Roster and telemetry membership *)

(** The states a channel goes through: requests of any kind in any order,
    sockets closing, and the object being evicted and built again. *)
Inductive reachable : State -> Prop :=
| reach_initial : reachable initial
| reach_fetch e r s : reachable s -> reachable (fetch e r s).1.2
| reach_close ws s : reachable s -> reachable (onClose ws s)
| reach_evict s : reachable s -> reachable (evict s).

Definition covers (s : State) : Prop :=
  forall boatId, is_Some (latest s !! boatId) -> is_Some (roster s !! boatId).

(** What is stored has the two lists, and the roster list has the keys of
    the telemetry list. *)
Definition storedCovers (s : State) : Prop :=
  match storage s with
  | None => True
  | Some sv =>
      exists lr ll, saved_roster sv = Some lr /\ saved_latest sv = Some ll
                    /\ forall k, k ∈ ll.*1 -> k ∈ lr.*1
  end.

Lemma mapOfEntries_lookup {A} (l : list (string * A)) k :
  is_Some (mapOfEntries l !! k) <-> k ∈ l.*1.
Proof.
  unfold mapOfEntries.
  assert (H : forall m : gmap string A,
             is_Some (fold_left (fun m p => <[p.1 := p.2]> m) l m !! k)
             <-> k ∈ l.*1 \/ is_Some (m !! k)).
  { induction l as [|[k' v] l IH]; intros m; simpl.
    - rewrite elem_of_nil. tauto.
    - rewrite IH, elem_of_cons. simpl.
      destruct (decide (k' = k)) as [->|Hne].
      + rewrite lookup_insert_eq. split; [eauto|]. intros _. right. eauto.
      + rewrite lookup_insert_ne by done. split.
        * intros [?|?]; auto.
        * intros [[?|?]|?]; auto. congruence. }
  rewrite H, lookup_empty. split; [intros [?|[? ?]]; done|auto].
Qed.

Lemma keys_map_to_list {A} (m : gmap string A) k :
  k ∈ (map_to_list m).*1 <-> is_Some (m !! k).
Proof.
  rewrite list_elem_of_fmap. split.
  - intros [[k' v] [-> Hin]]. apply elem_of_map_to_list in Hin. eauto.
  - intros [v Hv]. exists (k, v). split; [done|].
    by apply elem_of_map_to_list.
Qed.

Lemma loadOnce_covers s :
  covers s -> storedCovers s ->
  covers (loadOnce s) /\ storedCovers (loadOnce s).
Proof.
  intros Hc Hs. unfold loadOnce. destruct (loaded s); [done|].
  unfold covers, storedCovers in *. simpl.
  destruct (storage s) as [sv|]; [|done].
  destruct Hs as (lr & ll & -> & -> & Hk). split; [|eauto].
  intros k. rewrite !mapOfEntries_lookup. auto.
Qed.

Lemma persist_covers e s s' :
  covers s -> persist e s = Some s' -> covers s' /\ storedCovers s'.
Proof.
  unfold persist. destruct (putFails e); [discriminate|].
  intros Hc [= <-]. split; [done|].
  unfold storedCovers. simpl. do 2 eexists. split; [done|]. split; [done|].
  intros k. rewrite !keys_map_to_list. apply Hc.
Qed.

Lemma updateRacesIndex_covers e raceId s :
  covers s /\ storedCovers s ->
  covers (updateRacesIndex e raceId s)
  /\ storedCovers (updateRacesIndex e raceId s).
Proof.
  destruct (updateRacesIndex_fields e raceId s) as (Hr & Hl & _ & Hst & _).
  unfold covers, storedCovers. rewrite Hr, Hl, Hst. done.
Qed.

Lemma join_covers e p s :
  covers s /\ storedCovers s ->
  covers (join e p s).1.2 /\ storedCovers (join e p s).1.2.
Proof.
  intros Hinv. unfold RaceStateTs.join. destruct p as [|body]; [done|].
  destruct (emptyStr _); [done|]. destruct (emptyStr _); [done|].
  cbv zeta.
  apply (updateRacesIndex_covers e
           (ToString co (or_else (b_raceId body) (VString "")))) in Hinv.
  destruct Hinv as [Hc Hs].
  match goal with
  | |- context [persist e ?s2] =>
      assert (Hc2 : covers s2);
      [|assert (Hs2 : storedCovers s2) by exact Hs;
        destruct (persist e s2) as [s3|] eqn:Hp]
  end.
  - intros k Hk. simpl in *.
    destruct (decide
      (ToString co (or_else (b_boatId body) (VString "")) = k)) as [->|Hne].
    + rewrite lookup_insert_eq. eauto.
    + rewrite lookup_insert_ne by done. apply Hc. done.
  - apply persist_covers in Hp as [? ?]; [|done]. simpl. done.
  - simpl. done.
Qed.

Lemma update_covers e p s :
  covers s /\ storedCovers s ->
  covers (update e p s).1.2 /\ storedCovers (update e p s).1.2.
Proof.
  intros Hinv. unfold RaceStateTs.update. destruct p as [|body]; [done|].
  destruct (emptyStr _); [done|].
  destruct (mustHaveTelemetryFields co body); [|done].
  cbv zeta.
  apply (updateRacesIndex_covers e
           (ToString co (or_else (b_raceId body) (VString "")))) in Hinv.
  destruct Hinv as [Hc Hs].
  set (s1 := updateRacesIndex e _ s) in *.
  set (boatId := ToString co (b_boatId body)).
  set (s2 := if bool_decide (is_Some (roster s1 !! boatId)) then s1 else _).
  assert (H2 : covers s2 /\ storedCovers s2 /\ is_Some (roster s2 !! boatId)).
  { subst s2. case_bool_decide as Hd.
    - done.
    - split; [|split; [done|simpl; rewrite lookup_insert_eq; eauto]].
      intros k Hk. simpl in *.
      destruct (decide (boatId = k)) as [->|Hne].
      + rewrite lookup_insert_eq. eauto.
      + rewrite lookup_insert_ne by done. apply Hc. done. }
  destruct H2 as (Hc2 & Hs2 & [entry0 He]).
  simpl. rewrite He.
  match goal with
  | |- context [persist e ?s4] =>
      assert (Hc4 : covers s4);
      [|assert (Hs4 : storedCovers s4) by exact Hs2;
        destruct (persist e s4) as [s5|] eqn:Hp]
  end.
  - intros k Hk. simpl in *.
    destruct (decide (boatId = k)) as [->|Hne].
    + rewrite lookup_insert_eq. eauto.
    + rewrite lookup_insert_ne by done. rewrite lookup_insert_ne in Hk by done.
      apply Hc2. done.
  - apply persist_covers in Hp as [? ?]; [|done]. simpl. done.
  - simpl. done.
Qed.

Lemma fetch_covers e r s :
  covers s /\ storedCovers s ->
  covers (fetch e r s).1.2 /\ storedCovers (fetch e r s).1.2.
Proof.
  intros [Hc Hs]. apply loadOnce_covers in Hc as Hinv; [|done].
  unfold RaceStateTs.fetch.
  destruct (String.eqb (path r) "/ws/live").
  { unfold wsLive. destruct (negb _); [done|].
    destruct (sendFails e _); done. }
  destruct (_ && _); [done|].
  destruct (_ && _); [by apply join_covers|].
  destruct (_ && _); [by apply update_covers|].
  done.
Qed.

Lemma reachable_covers s : reachable s -> covers s /\ storedCovers s.
Proof.
  induction 1 as [|e r s _ IH|ws s _ IH|s _ IH].
  - split; [|done]. intros k. simpl. rewrite lookup_empty. done.
  - by apply fetch_covers.
  - done.
  - destruct IH as [_ Hs]. split; [|done].
    intros k. simpl. rewrite lookup_empty. done.
Qed.

(** C7. In every state a channel can reach, each boat that has a cached
    sample has a roster entry; and there are reachable states in which a
    boat has a roster entry and no sample (it joined and has not reported). *)
Theorem roster_covers_telemetry :
  (forall s, reachable s ->
     forall boatId, is_Some (latest s !! boatId) ->
                    is_Some (roster s !! boatId))
  /\ (exists s boatId, reachable s /\ is_Some (roster s !! boatId)
                       /\ latest s !! boatId = None).
Proof.
  split.
  - intros s Hs. apply reachable_covers in Hs as [Hc _]. exact Hc.
  - set (e := {| now_t := 0; now_joined := 0; now_view := 0; now_event := 0;
                 putFails := false; kvFails := false;
                 sendFails := fun _ => false; newSocket := 0%nat |}).
    set (body := {| b_raceId := VString "R1"; b_boatId := VString "B1";
                    b_boatName := VUndefined; b_nation := VUndefined;
                    b_lat := VUndefined; b_lon := VUndefined;
                    b_t := VUndefined; b_sog := VUndefined;
                    b_speed := VUndefined; b_cog := VUndefined;
                    b_course := VUndefined; b_heading := VUndefined;
                    b_heel := VUndefined |}).
    set (r := {| method := "POST"; path := "/join";
                 upgradeWebSocket := false; payload := Json body |}).
    exists (fetch e r initial).1.2, "B1".
    split; [apply reach_fetch, reach_initial|].
    rewrite fetch_join by done. simpl payload.
    split.
    + apply (join_adds_entry e body (loadOnce initial)); done.
    + pose proof (join_spec e body (loadOnce initial)) as Hj.
      destruct (join e (Json body) (loadOnce initial)) as [[out s'] sent].
      destruct Hj as (Hl & _); [done|done|]. simpl.
      rewrite Hl. simpl. apply lookup_empty.
Qed.
End RaceChannel.

(* ===================================================================== *)
(** * The /track handler of part_003 checks the range                     *)
(* ===================================================================== *)

Section Track.
Import IndexSmoothed.
Variable co : Coercions.

Lemma Qabs_gt_false (x bound : Q) : Qabs_gt x bound = false <-> Qabs x <= bound.
Proof.
  unfold Qabs_gt, Qlt_bool. rewrite negb_false_iff. apply Qle_bool_iff.
Qed.

(** A point is stored only with ids that are not empty and a finite
    position inside [-90, 90] x [-180, 180]; a finite position outside is
    answered 400. *)
Lemma track_checks_range now p :
  (forall tp, trackPoint co now p = inr tp ->
     tp_raceId tp <> "" /\ tp_boatId tp <> ""
     /\ ToNumber co (p_lat p) = Fin (tp_lat tp)
     /\ ToNumber co (p_lon p) = Fin (tp_lon tp)
     /\ Qabs (tp_lat tp) <= 90 /\ Qabs (tp_lon tp) <= 180)
  /\ (forall lat lon,
        ToNumber co (p_lat p) = Fin lat -> ToNumber co (p_lon p) = Fin lon ->
        90 < Qabs lat \/ 180 < Qabs lon ->
        exists msg, trackPoint co now p = inl msg).
Proof.
  unfold trackPoint. split.
  - intros tp.
    destruct (emptyStr _) eqn:Hr; [discriminate|].
    destruct (emptyStr (Trim co (ToString co (or_else (p_boatId p) _)))) eqn:Hb;
      [discriminate|].
    destruct (ToNumber co (p_lat p)) as [lat| | |]; try discriminate.
    destruct (ToNumber co (p_lon p)) as [lon| | |]; try discriminate.
    destruct (Qabs_gt lat 90) eqn:Hlat; [discriminate|].
    destruct (Qabs_gt lon 180) eqn:Hlon; [discriminate|].
    simpl. intros [= <-]. simpl.
    apply Qabs_gt_false in Hlat, Hlon.
    unfold emptyStr in Hr, Hb. apply String.eqb_neq in Hr, Hb. done.
  - intros lat lon -> -> Hout.
    destruct (emptyStr _); [eauto|]. destruct (emptyStr _); [eauto|].
    destruct (Qabs_gt lat 90) eqn:Hlat; [simpl; eauto|].
    destruct (Qabs_gt lon 180) eqn:Hlon; [simpl; eauto|].
    apply Qabs_gt_false in Hlat, Hlon. exfalso. destruct Hout; lra.
Qed.
End Track.

(* ===================================================================== *)
(** * The step of the replay handlers                                     *)
(* ===================================================================== *)

Section ReplayStep.
Variable co : Coercions.

Lemma round_between (x : Q) (lo hi : Z) :
  inject_Z lo <= x -> x <= inject_Z hi -> (lo <= round x <= hi)%Z.
Proof.
  intros Hlo Hhi. unfold round. split.
  - rewrite <- (Qfloor_Z lo). apply Qfloor_resp_le. lra.
  - assert (H : (Qfloor (x + (1 # 2)) < hi + 1)%Z); [|lia].
    rewrite Zlt_Qlt, inject_Z_plus.
    pose proof (Qfloor_le (x + (1 # 2))) as Hf.
    change (inject_Z 1) with 1. lra.
Qed.

Lemma floor_between (x : Q) (lo hi : Z) :
  inject_Z lo <= x -> x <= inject_Z hi -> (lo <= floor x <= hi)%Z.
Proof.
  intros Hlo Hhi. unfold floor. split.
  - rewrite <- (Qfloor_Z lo). by apply Qfloor_resp_le.
  - rewrite <- (Qfloor_Z hi). by apply Qfloor_resp_le.
Qed.

Lemma clamp_between (n lo hi : Q) :
  lo <= hi -> lo <= Qmax lo (Qmin hi n) <= hi.
Proof.
  intros Hle. split; [apply Q.le_max_l|].
  apply Q.max_lub; [done|apply Q.le_min_l].
Qed.


Lemma thousand_over_between (hz lo hi : Q) :
  0 < lo -> lo <= hz -> hz <= hi ->
  1000 / hi <= 1000 / hz <= 1000 / lo.
Proof.
  intros Hlo H1 H2. split.
  - apply Qle_shift_div_l; [lra|].
    unfold Qdiv. rewrite <- Qmult_assoc, (Qmult_comm (/ hi)).
    rewrite Qmult_assoc. apply Qle_shift_div_r; [lra|].
    nra.
  - apply Qle_shift_div_l; [lra|].
    unfold Qdiv. rewrite <- Qmult_assoc, (Qmult_comm (/ hz)).
    rewrite Qmult_assoc. apply Qle_shift_div_r; [lra|].
    nra.
Qed.


Lemma buckets_step_bounds (hz : Q) :
  (1 # 10) <= hz <= 10 ->
  (100 <= round (1000 / hz) <= 10000)%Z.
Proof.
  intros [H1 H2].
  destruct (thousand_over_between hz (1 # 10) 10) as [Ha Hb]; try done.
  apply round_between.
  - eapply Qle_trans; [|exact Ha]. done.
  - eapply Qle_trans; [exact Hb|]. done.
Qed.

(** The interpolating handler of part_003 clamps to [1, 10] and takes the
    floor: its step lies between 100 and 1000. *)
Lemma smoothed_step_bounds (hzRaw : num) :
  let hz := IndexSmoothed.hzOf hzRaw in
  1 <= hz <= 10
  /\ (100 <= IndexSmoothed.stepMsOf hz <= 1000)%Z.
Proof.
  intros hz.
  assert (Hhz : 1 <= hz <= 10) by (apply clamp_between; done).
  split; [done|].
  destruct (thousand_over_between hz 1 10) as [Ha Hb]; try tauto; [done|].
  apply floor_between.
  - eapply Qle_trans; [|exact Ha]. done.
  - eapply Qle_trans; [exact Hb|]. done.
Qed.

(** handleReplay of part_004 rounds and has no floor: whenever the clamp
    it imports yields a finite rate within [0.1, 10], its step lies between
    100 and 10000 as well. *)
Lemma lastKnown_step_bounds (h : Q) :
  (1 # 10) <= h <= 10 ->
  exists z, IndexLastKnown.stepMsOf (Fin h) = Fin (inject_Z z)
            /\ (100 <= z <= 10000)%Z.
Proof.
  intros Hh. unfold IndexLastKnown.stepMsOf. simpl.
  destruct (Qeq_bool h 0) eqn:Hz.
  { apply Qeq_bool_iff in Hz. lra. }
  simpl. eexists. split; [done|]. apply buckets_step_bounds. done.
Qed.

End ReplayStep.

(* ===================================================================== *)
(** * Facts about the ordered map                                         *)
(* ===================================================================== *)

Section OMapFacts.
Context {A : Type}.
Implicit Types (m : OMap.t A) (k : string) (v : A).

Lemma omap_get_set_same k v m : OMap.get k (OMap.set k v m) = Some v.
Proof.
  induction m as [|[k' v'] m IH]; simpl.
  - by rewrite String.eqb_refl.
  - destruct (String.eqb k k') eqn:Hk; simpl; rewrite ?String.eqb_refl, ?Hk; done.
Qed.

Lemma omap_get_set_other k k' v m :
  k <> k' -> OMap.get k' (OMap.set k v m) = OMap.get k' m.
Proof.
  intros Hne. induction m as [|[k0 v0] m IH]; simpl.
  - apply String.eqb_neq in Hne. rewrite String.eqb_sym in Hne.
    by rewrite Hne.
  - destruct (String.eqb k k0) eqn:Hk; simpl.
    + apply String.eqb_eq in Hk as <-.
      assert (String.eqb k' k = false) as ->; [|done].
      apply String.eqb_neq. congruence.
    + by rewrite IH.
Qed.

Lemma omap_get_In k v m : OMap.get k m = Some v -> In (k, v) m.
Proof.
  induction m as [|[k' v'] m IH]; simpl; [done|].
  destruct (String.eqb k k') eqn:Hk.
  - apply String.eqb_eq in Hk as <-. intros [= <-]. by left.
  - intros. right. auto.
Qed.

Lemma omap_get_keys k m : is_Some (OMap.get k m) <-> In k (OMap.keys m).
Proof.
  induction m as [|[k' v'] m IH]; simpl.
  - split; [intros [? ?]; done|done].
  - destruct (String.eqb k k') eqn:Hk.
    + apply String.eqb_eq in Hk as <-. split; eauto.
    + apply String.eqb_neq in Hk. rewrite IH. split; [auto|].
      intros [?|?]; [congruence|done].
Qed.

Lemma omap_keys_set k v m :
  OMap.keys (OMap.set k v m)
  = if OMap.has k m then OMap.keys m else OMap.keys m ++ [k].
Proof.
  unfold OMap.has. induction m as [|[k' v'] m IH]; simpl; [done|].
  destruct (String.eqb k k') eqn:Hk; simpl.
  - apply String.eqb_eq in Hk as <-. done.
  - rewrite IH. destruct (OMap.get k m); done.
Qed.

Lemma omap_set_nodup k v m :
  NoDup (OMap.keys m) -> NoDup (OMap.keys (OMap.set k v m)).
Proof.
  intros Hnd. rewrite omap_keys_set. unfold OMap.has.
  destruct (OMap.get k m) eqn:Hg; [done|].
  apply NoDup_app. split; [done|]. split; [|apply NoDup_singleton].
  intros x Hx ->%list_elem_of_singleton.
  apply list_elem_of_In, omap_get_keys in Hx as [? ?]. congruence.
Qed.

Lemma omap_In_get k v m : NoDup (OMap.keys m) -> In (k, v) m -> OMap.get k m = Some v.
Proof.
  induction m as [|[k' v'] m IH]; simpl; [done|].
  intros Hnd%NoDup_cons [Heq|Hin].
  - injection Heq as -> ->. by rewrite String.eqb_refl.
  - destruct Hnd as [Hk' Hnd].
    destruct (String.eqb k k') eqn:Hk; [|auto].
    apply String.eqb_eq in Hk as ->. exfalso. apply Hk'.
    apply list_elem_of_In. unfold OMap.keys.
    apply (in_map fst) in Hin. done.
Qed.

Lemma omap_values_In v m :
  In v (OMap.values m) <-> exists k, In (k, v) m.
Proof.
  unfold OMap.values. rewrite in_map_iff. split.
  - intros [[k v'] [<- ?]]. eauto.
  - intros [k ?]. exists (k, v). done.
Qed.
End OMapFacts.

(* ===================================================================== *)
(** * The frame loops end                                                 *)
(* ===================================================================== *)

Section LoopFuel.

Lemma Qlt_bool_iff (a b : Q) : Qlt_bool a b = true <-> a < b.
Proof.
  unfold Qlt_bool. rewrite negb_true_iff.
  destruct (Qle_bool b a) eqn:H.
  - apply Qle_bool_iff in H. split; [discriminate|]. lra.
  - split; [|done]. intros _.
    destruct (Qlt_le_dec a b) as [?|Hle]; [done|].
    apply Qle_bool_iff in Hle. congruence.
Qed.

Lemma Qle_bool_false (a b : Q) : Qle_bool a b = false <-> b < a.
Proof.
  pose proof (Qlt_bool_iff b a) as H. unfold Qlt_bool in H.
  rewrite negb_true_iff in H. done.
Qed.

(** The frames still to come when the loop variable is [t]. *)
Definition remaining (to step t : Q) : nat :=
  Z.to_nat (Qfloor ((to - t) / step) + 1).

Lemma loopFuel_remaining from to step :
  loopFuel from to step = S (remaining to step from).
Proof. reflexivity. Qed.

Lemma remaining_step (to step t : Q) :
  0 < step -> t <= to ->
  (remaining to step (t + step) < remaining to step t)%nat.
Proof.
  intros Hstep Hle. unfold remaining.
  set (x := (to - t) / step).
  assert (Hx : 0 <= x).
  { apply Qle_shift_div_l; [done|]. lra. }
  assert (Heq : (to - (t + step)) / step == x - 1).
  { unfold x. field. lra. }
  rewrite Heq.
  assert (H0 : (0 <= Qfloor x)%Z).
  { rewrite <- (Qfloor_Z 0). by apply Qfloor_resp_le. }
  assert (H1 : (Qfloor (x - 1) + 1 <= Qfloor x)%Z).
  { rewrite <- (Qfloor_Z (Qfloor (x - 1) + 1)). apply Qfloor_resp_le.
    rewrite inject_Z_plus. pose proof (Qfloor_le (x - 1)).
    change (inject_Z 1) with 1. lra. }
  lia.
Qed.
End LoopFuel.

(* ===================================================================== *)
(** * The interpolating replay (part_003)                                 *)
(* ===================================================================== *)

Section Smoothed.
Import TrackLog IndexSmoothed.

(** The cursor [i] of a boat is in range, and past the first point only
    over points that lie before [t]. *)
Definition cursorOk (pts : list TrackPoint) (t : Q) (i : nat) : Prop :=
  (i < length pts)%nat
  /\ (i = 0%nat \/ exists p, pts !! i = Some p /\ tp_t p < t).

Lemma cursorOk_later pts t t' i : t <= t' -> cursorOk pts t i -> cursorOk pts t' i.
Proof.
  intros Hle [Hi [->|(p & Hp & Hlt)]]; split; auto.
  right. exists p. split; [done|]. lra.
Qed.

Lemma advance_spec pts t fuel i :
  (length pts <= fuel + i + 1)%nat -> cursorOk pts t i ->
  cursorOk pts t (advance fuel pts t i)
  /\ (forall p, pts !! (advance fuel pts t i + 1)%nat = Some p -> t <= tp_t p).
Proof.
  revert i. induction fuel as [|fuel IH]; intros i Hfuel Hok; simpl.
  - split; [done|]. intros p Hp. apply lookup_lt_Some in Hp. lia.
  - destruct (pts !! (i + 1)%nat) as [p|] eqn:Hp;
      [|split; [done|intros ? ?; congruence]].
    destruct (Qlt_bool (tp_t p) t) eqn:Hlt.
    + apply Qlt_bool_iff in Hlt. apply IH; [lia|].
      split; [by apply lookup_lt_Some in Hp|]. right. eauto.
    + split; [done|]. intros p' Hp'. rewrite Hp in Hp'. injection Hp' as <-.
      unfold Qlt_bool in Hlt. rewrite negb_false_iff in Hlt.
      by apply Qle_bool_iff in Hlt.
Qed.

Lemma sample_defined boatId pts t i :
  cursorOk pts t i ->
  (forall p, pts !! (i + 1)%nat = Some p -> t <= tp_t p) ->
  exists b, sample boatId pts t i = Some b.
Proof.
  intros [Hi Hbefore] Hafter. unfold sample.
  destruct (pts !! 0%nat) as [first|] eqn:Hfirst.
  2:{ apply lookup_ge_None in Hfirst. lia. }
  destruct (pts !! (length pts - 1)%nat) as [last|] eqn:Hlast.
  2:{ apply lookup_ge_None in Hlast. lia. }
  destruct (Qle_bool t (tp_t first)) eqn:H1; [eauto|].
  destruct (Qle_bool (tp_t last) t) eqn:H2; [eauto|].
  apply Qle_bool_false in H1, H2.
  destruct (pts !! i) as [p0|] eqn:Hp0.
  2:{ apply lookup_ge_None in Hp0. lia. }
  destruct (pts !! (i + 1)%nat) as [p1|] eqn:Hp1; [eauto|].
  exfalso. apply lookup_ge_None in Hp1.
  assert (Hi' : i = (length pts - 1)%nat) by lia.
  destruct Hbefore as [Hz|(p & Hp & Hlt)].
  - rewrite <- Hi', Hz, Hfirst in Hlast. injection Hlast as <-. lra.
  - injection Hp as <-. rewrite Hi', Hlast in Hp0. injection Hp0 as <-. lra.
Qed.

(** What a boat's entry in the frame at [t] is while [t] has not passed
    its first point: that point, with the frame's time. *)
Definition entryOk (t : Q) (boatId : string) (pts : list TrackPoint)
           (b : LiveBoat) : Prop :=
  lb_boatId b = boatId
  /\ forall first, pts !! 0%nat = Some first -> t <= tp_t first ->
                   b = pointAt boatId first t.

Lemma sample_entryOk boatId pts t i b :
  (forall p, In p pts -> tp_boatId p = boatId) ->
  sample boatId pts t i = Some b -> entryOk t boatId pts b.
Proof.
  intros Hid. unfold sample.
  destruct (pts !! 0%nat) as [first|] eqn:Hfirst; [|discriminate].
  destruct (pts !! (length pts - 1)%nat) as [last|] eqn:Hlast; [|discriminate].
  destruct (Qle_bool t (tp_t first)) eqn:H1.
  { intros [= <-]. split; [done|].
    intros f0 Hf0 _. rewrite Hfirst in Hf0. by injection Hf0 as <-. }
  apply Qle_bool_false in H1.
  destruct (Qle_bool (tp_t last) t) eqn:H2.
  { intros [= <-]. split; [done|].
    intros f0 Hf0 ?. rewrite Hfirst in Hf0. injection Hf0 as <-. lra. }
  destruct (pts !! i) as [p0|] eqn:Hp0; [|discriminate].
  destruct (pts !! (i + 1)%nat) as [p1|]; [|discriminate].
  intros [= <-]. split.
  - simpl. apply Hid. apply list_elem_of_In. by eapply list_elem_of_lookup_2.
  - intros f0 Hf0 ?. rewrite Hfirst in Hf0. injection Hf0 as <-. lra.
Qed.

(** Every boat's cursor is fine for the frame at [t]. *)
Definition cursorsOk (entries : OMap.t (list TrackPoint)) (t : Q)
           (idx : gmap string nat) : Prop :=
  forall b pts, In (b, pts) entries -> pts <> [] ->
                cursorOk pts t (nullish (idx !! b) 0%nat).

(** Each group holds points of its own boat. *)
Definition ownPoints (entries : OMap.t (list TrackPoint)) : Prop :=
  forall b pts, In (b, pts) entries -> forall p, In p pts -> tp_boatId p = b.

Lemma frameBoats_spec t entries :
  NoDup (OMap.keys entries) -> ownPoints entries ->
  forall idx boats, cursorsOk entries t idx ->
  exists idx' boats',
    frameBoats t entries idx boats = Some (idx', boats')
    /\ cursorsOk entries t idx'
    /\ (forall k, ~ In k (OMap.keys entries) -> idx' !! k = idx !! k)
    /\ (forall e, In e boats -> In e boats')
    /\ (forall b pts, In (b, pts) entries -> pts <> [] ->
          exists e, In e boats' /\ entryOk t b pts e).
Proof.
  induction entries as [|[b pts] rest IH]; intros Hnd Hown idx boats Hok.
  - exists idx, boats. simpl. repeat split; try done.
  - simpl in Hnd. apply NoDup_cons in Hnd as [Hb Hnd].
    rewrite list_elem_of_In in Hb.
    assert (Hown' : ownPoints rest).
    { intros b' pts' Hin. apply (Hown b' pts'). by right. }
    assert (Hne : forall b' pts', In (b', pts') rest -> b' <> b).
    { intros b' pts' Hin ->. apply Hb. apply (in_map fst) in Hin. done. }
    simpl. destruct (Nat.eqb (length pts) 0) eqn:Hlen.
    + apply Nat.eqb_eq in Hlen. apply nil_length_inv in Hlen as ->.
      destruct (IH Hnd Hown' idx boats) as (idx' & boats' & Hf & Hc & Hk & Hb' & He).
      { intros b' pts' Hin. apply Hok. by right. }
      exists idx', boats'. split; [done|]. split; [|split; [|split; [done|]]].
      * intros b' pts' [[= <- <-]|Hin] Hpts; [done|]. by apply Hc.
      * intros k Hk'. apply Hk. intros ?. apply Hk'. by right.
      * intros b' pts' [[= <- <-]|Hin] Hpts; [done|]. by apply He.
    + apply Nat.eqb_neq in Hlen.
      assert (Hpts : pts <> []) by (intros ->; done).
      set (i := advance (length pts) pts t (nullish (idx !! b) 0%nat)).
      destruct (advance_spec pts t (length pts) (nullish (idx !! b) 0%nat))
        as [Hi Hafter]; [lia|apply Hok; [by left|done]|].
      fold i in Hi, Hafter.
      destruct (sample_defined b pts t i Hi Hafter) as [b0 Hs].
      rewrite Hs.
      destruct (IH Hnd Hown' (<[b := i]> idx) (boats ++ [b0]))
        as (idx' & boats' & Hf & Hc & Hk & Hb' & He).
      { intros b' pts' Hin Hp'. rewrite lookup_insert_ne.
        - apply Hok; [by right|done].
        - intros ->. by eapply Hne. }
      exists idx', boats'. split; [done|]. split; [|split; [|split]].
      * intros b' pts' [[= <- <-]|Hin] Hp'; [|by apply Hc].
        rewrite Hk by done. rewrite lookup_insert_eq. done.
      * intros k Hk'. rewrite Hk.
        -- apply lookup_insert_ne. intros ->. apply Hk'. by left.
        -- intros ?. apply Hk'. by right.
      * intros e He'. apply Hb'. apply in_or_app. by left.
      * intros b' pts' [[= <- <-]|Hin] Hp'; [|by apply He].
        exists b0. split.
        -- apply Hb'. apply in_or_app. right. by left.
        -- eapply sample_entryOk; [|done]. apply (Hown b pts). by left.
Qed.

Lemma cursorsOk_later entries t t' idx :
  t <= t' -> cursorsOk entries t idx -> cursorsOk entries t' idx.
Proof.
  intros Hle Hok b pts Hin Hpts. eapply cursorOk_later; [done|]. by apply Hok.
Qed.

(** What the frame loop returns: it ends normally, keeps the frames it was
    given, and adds frames that hold an entry for every boat with points. *)
Definition fullFrame (byBoat : OMap.t (list TrackPoint)) (f : Frame) : Prop :=
  forall b pts, In (b, pts) byBoat -> pts <> [] ->
                exists e, In e (f_boats f) /\ entryOk (f_t f) b pts e.

Lemma frameLoop_spec to stepMs byBoat :
  0 < inject_Z stepMs -> NoDup (OMap.keys byBoat) -> ownPoints byBoat ->
  forall fuel t idx frames,
    (remaining to (inject_Z stepMs) t < fuel)%nat ->
    cursorsOk byBoat t idx ->
    exists out,
      frameLoop fuel to stepMs byBoat t idx frames = Done out
      /\ forall f, In f out ->
           In f frames \/ (t <= f_t f /\ f_t f <= to /\ fullFrame byBoat f).
Proof.
  intros Hstep Hnd Hown. induction fuel as [|fuel IH];
    intros t idx frames Hfuel Hok; [lia|].
  simpl. destruct (Qle_bool t to) eqn:Hle.
  - apply Qle_bool_iff in Hle.
    destruct (frameBoats_spec t byBoat Hnd Hown idx [] Hok)
      as (idx' & boats' & Hf & Hc & _ & _ & He).
    rewrite Hf.
    pose proof (remaining_step to (inject_Z stepMs) t Hstep Hle) as Hrem.
    destruct (IH (t + inject_Z stepMs) idx'
                 (frames ++ [{| f_t := t; f_boats := boats' |}]))
      as (out & Hout & Hin); [lia| |].
    { eapply cursorsOk_later; [|done]. lra. }
    exists out. split; [done|].
    intros f Hf'. destruct (Hin f Hf') as [Hold|(H1 & H2 & H3)].
    + apply in_app_or in Hold as [?|[<-|[]]]; [by left|].
      right. simpl. split; [lra|]. split; [done|]. exact He.
    + right. split; [lra|]. done.
  - exists frames. split; [done|]. by left.
Qed.

(** More fuel does not change what a finished loop returned. *)
Lemma frameLoop_more_fuel to stepMs byBoat fuel fuel' t idx frames out :
  frameLoop fuel to stepMs byBoat t idx frames = Done out ->
  (fuel <= fuel')%nat ->
  frameLoop fuel' to stepMs byBoat t idx frames = Done out.
Proof.
  revert fuel' t idx frames. induction fuel as [|fuel IH];
    intros fuel' t idx frames; [discriminate|].
  destruct fuel' as [|fuel']; [lia|]. simpl.
  destruct (Qle_bool t to); [|done].
  destruct (frameBoats t byBoat idx []) as [[idx' boats']|]; [|done].
  intros Hrun Hle. apply IH; [done|lia].
Qed.

(** ** The groups *)

(** The points of a boat among the rows, in the order of the rows. *)
Definition ptsOf (b : string) (rows : list Row) : list TrackPoint :=
  List.map toTrackPoint
           (List.filter (fun r => String.eqb (row_boatId r) b) rows).

Lemma groupStep_get m r b :
  OMap.get b (groupStep m r)
  = if String.eqb (row_boatId r) b
    then Some (nullish (OMap.get b m) [] ++ [toTrackPoint r])
    else OMap.get b m.
Proof.
  unfold groupStep. simpl tp_boatId. unfold OMap.has.
  destruct (String.eqb (row_boatId r) b) eqn:Hb.
  - apply String.eqb_eq in Hb as ->.
    rewrite omap_get_set_same.
    destruct (OMap.get b m) eqn:Hg; simpl;
      rewrite ?Hg, ?omap_get_set_same; done.
  - apply String.eqb_neq in Hb.
    rewrite omap_get_set_other by done.
    destruct (OMap.get (row_boatId r) m); [done|].
    by rewrite omap_get_set_other.
Qed.

Lemma groupStep_nodup m r :
  NoDup (OMap.keys m) -> NoDup (OMap.keys (groupStep m r)).
Proof.
  intros Hnd. unfold groupStep. apply omap_set_nodup.
  destruct (OMap.has _ m); [done|]. by apply omap_set_nodup.
Qed.

Lemma group_fold_get rows : forall m b,
  OMap.get b (List.fold_left groupStep rows m)
  = match OMap.get b m, ptsOf b rows with
    | None, [] => None
    | o, l => Some (nullish o [] ++ l)
    end.
Proof.
  induction rows as [|r rows IH]; intros m b; simpl.
  - destruct (OMap.get b m); simpl; [by rewrite app_nil_r|done].
  - rewrite IH, groupStep_get. unfold ptsOf. simpl.
    destruct (String.eqb (row_boatId r) b); simpl.
    + rewrite <- app_assoc. simpl.
      destruct (OMap.get b m); simpl; done.
    + done.
Qed.

Lemma group_fold_nodup rows : forall m,
  NoDup (OMap.keys m) -> NoDup (OMap.keys (List.fold_left groupStep rows m)).
Proof.
  induction rows as [|r rows IH]; intros m Hnd; simpl; [done|].
  apply IH. by apply groupStep_nodup.
Qed.

Lemma groupByBoat_nodup rows : NoDup (OMap.keys (groupByBoat rows)).
Proof. apply group_fold_nodup. constructor. Qed.

Lemma groupByBoat_get rows b :
  OMap.get b (groupByBoat rows)
  = match ptsOf b rows with [] => None | l => Some l end.
Proof. unfold groupByBoat. rewrite group_fold_get. done. Qed.

Lemma groupByBoat_In rows b pts :
  In (b, pts) (groupByBoat rows) <-> pts <> [] /\ pts = ptsOf b rows.
Proof.
  split.
  - intros Hin. apply omap_In_get in Hin; [|apply groupByBoat_nodup].
    rewrite groupByBoat_get in Hin.
    destruct (ptsOf b rows) eqn:Hp; [done|]. by injection Hin as <-.
  - intros [Hne ->]. apply omap_get_In. rewrite groupByBoat_get.
    destruct (ptsOf b rows); done.
Qed.

Lemma groupByBoat_own rows : ownPoints (groupByBoat rows).
Proof.
  intros b pts [_ ->]%groupByBoat_In p Hp. unfold ptsOf in Hp.
  apply in_map_iff in Hp as (r & <- & Hr).
  apply List.filter_In in Hr as [_ Hr]. by apply String.eqb_eq in Hr.
Qed.

Lemma idx_initial keys : forall (m : gmap string nat) b,
  nullish (m !! b) 0%nat = 0%nat ->
  nullish (List.fold_left (fun m k => <[k := 0%nat]> m) keys m !! b) 0%nat
  = 0%nat.
Proof.
  induction keys as [|k keys IH]; intros m b Hm; simpl; [done|].
  apply IH. destruct (decide (k = b)) as [->|Hne].
  - by rewrite lookup_insert_eq.
  - by rewrite lookup_insert_ne.
Qed.

(** The loop of a replay ends, with a frame for every step and in every
    frame an entry for every boat that has a point among the rows. *)
Lemma replayFrames_spec rows from to stepMs :
  (0 < stepMs)%Z ->
  exists frames,
    replayFrames rows from to stepMs = Done frames
    /\ forall f, In f frames ->
         from <= f_t f /\ f_t f <= to /\ fullFrame (groupByBoat rows) f.
Proof.
  intros Hstep. unfold replayFrames.
  assert (Hs : 0 < inject_Z stepMs).
  { change 0 with (inject_Z 0). by rewrite <- Zlt_Qlt. }
  destruct (frameLoop_spec to stepMs (groupByBoat rows) Hs
              (groupByBoat_nodup rows) (groupByBoat_own rows)
              (loopFuel from to (inject_Z stepMs)) from
              (initialIdx (groupByBoat rows)) [])
    as (out & Hout & Hin).
  - rewrite loopFuel_remaining. lia.
  - intros b pts Hin Hpts. unfold initialIdx. rewrite idx_initial by done.
    split; [|by left]. destruct pts; [done|simpl; lia].
  - exists out. split; [done|]. intros f Hf.
    destruct (Hin f Hf) as [[]|?]. done.
Qed.
End Smoothed.

(* ===================================================================== *)
(** * What a query returns                                                *)
(* ===================================================================== *)

Section Select.
Import TrackLog.

Lemma string_compare_refl (s : string) : String.compare s s = Eq.
Proof.
  pose proof (String.compare_antisym s s) as H.
  destruct (String.compare s s); simpl in H; done.
Qed.

Lemma string_compare_lt_trans (a b c : string) :
  String.compare a b = Lt -> String.compare b c = Lt -> String.compare a c = Lt.
Proof.
  intros H1 H2. apply OrderedTypeEx.String_as_OT.cmp_lt.
  eapply OrderedTypeEx.String_as_OT.lt_trans;
    apply OrderedTypeEx.String_as_OT.cmp_lt; done.
Qed.

Lemma byTime_total a b : byTime a b = true \/ byTime b a = true.
Proof.
  unfold byTime. rewrite !Qle_bool_iff.
  destruct (Qlt_le_dec (row_t b) (row_t a)); [right; lra|by left].
Qed.

Lemma byTime_trans a b c :
  byTime a b = true -> byTime b c = true -> byTime a c = true.
Proof. unfold byTime. rewrite !Qle_bool_iff. lra. Qed.

Lemma byBoatThenTime_total a b :
  byBoatThenTime a b = true \/ byBoatThenTime b a = true.
Proof.
  unfold byBoatThenTime.
  rewrite (String.compare_antisym (row_boatId b) (row_boatId a)).
  destruct (String.compare (row_boatId a) (row_boatId b)); simpl; auto.
  apply byTime_total.
Qed.

Lemma byBoatThenTime_trans a b c :
  byBoatThenTime a b = true -> byBoatThenTime b c = true ->
  byBoatThenTime a c = true.
Proof.
  unfold byBoatThenTime.
  destruct (String.compare (row_boatId a) (row_boatId b)) eqn:Hab; [| |done].
  - apply String.compare_eq_iff in Hab as ->.
    destruct (String.compare (row_boatId b) (row_boatId c)); [|done|done].
    apply byTime_trans.
  - intros _.
    destruct (String.compare (row_boatId b) (row_boatId c)) eqn:Hbc; [| |done].
    + apply String.compare_eq_iff in Hbc as <-. by rewrite Hab.
    + by rewrite (string_compare_lt_trans _ _ _ Hab Hbc).
Qed.

Lemma select_In order raceId from to table r :
  In r (select order raceId from to table)
  <-> In r table /\ row_raceId r = raceId
      /\ from <= row_t r /\ row_t r <= to.
Proof.
  unfold select. rewrite <- !list_elem_of_In.
  rewrite (stable_sort_perm order), list_elem_of_In.
  rewrite List.filter_In. unfold inWindow.
  rewrite !andb_true_iff, !Qle_bool_iff, String.eqb_eq.
  rewrite list_elem_of_In. tauto.
Qed.

Lemma strongly_sorted_filter {A} (R : A -> A -> Prop) (f : A -> bool) l :
  StronglySorted R l -> StronglySorted R (List.filter f l).
Proof.
  induction 1 as [|x l Hs IH Hx]; simpl; [constructor|].
  destruct (f x); [|done]. constructor; [done|].
  apply List.Forall_forall. intros y [Hy _]%List.filter_In.
  eapply List.Forall_forall in Hx; done.
Qed.

(** The rows come back in ascending time when the order is by time. *)
Lemma select_byTime_sorted raceId from to table :
  StronglySorted (fun a b => row_t a <= row_t b)
                 (select byTime raceId from to table).
Proof.
  eapply strongly_sorted_impl;
    [|apply stable_sort_sorted; [apply byTime_total|apply byTime_trans]].
  intros a b. unfold byTime. by rewrite Qle_bool_iff.
Qed.

(** Ordered by boat and then time, the rows of one boat are in ascending
    time. *)
Lemma select_byBoat_sorted raceId from to table b :
  StronglySorted (fun x y => row_t x <= row_t y)
    (List.filter (fun r => String.eqb (row_boatId r) b)
                 (select byBoatThenTime raceId from to table)).
Proof.
  assert (Hs : StronglySorted (fun x y => byBoatThenTime x y = true)
                 (select byBoatThenTime raceId from to table)).
  { apply stable_sort_sorted;
      [apply byBoatThenTime_total|apply byBoatThenTime_trans]. }
  apply (strongly_sorted_filter _ (fun r => String.eqb (row_boatId r) b)) in Hs.
  revert Hs. generalize (select byBoatThenTime raceId from to table).
  intros l. induction l as [|x l IH]; simpl; [constructor|].
  destruct (String.eqb (row_boatId x) b) eqn:Hx; [|done].
  intros Hs. apply StronglySorted_inv in Hs as [Hs Hall].
  constructor; [by apply IH|].
  apply List.Forall_forall. intros y Hy.
  eapply List.Forall_forall in Hall; [|done].
  apply List.filter_In in Hy as [_ Hy].
  apply String.eqb_eq in Hx, Hy. unfold byBoatThenTime in Hall.
  rewrite Hx, Hy, string_compare_refl in Hall. by apply Qle_bool_iff.
Qed.
(** ** The rows of a query do not depend on the order of the table *)





End Select.

(* ===================================================================== *)
(** * The last-known replay (part_004)                                    *)
(* ===================================================================== *)

Section LastKnown.
Import TrackLog IndexLastKnown.

(** The map the cursor has built after the rows of a prefix. *)
Definition latestOf (prefix : list Row) : OMap.t Row :=
  List.fold_left (fun m p => OMap.set (row_boatId p) p m) prefix [].

(** The rows reported at or before [t]. *)
Definition known (t : Q) (rows : list Row) : list Row :=
  List.filter (fun r => Qle_bool (row_t r) t) rows.

(** The rows of one boat. *)
Definition ofBoat (b : string) (rows : list Row) : list Row :=
  List.filter (fun r => String.eqb (row_boatId r) b) rows.

Lemma latestOf_snoc prefix p :
  latestOf (prefix ++ [p]) = OMap.set (row_boatId p) p (latestOf prefix).
Proof. unfold latestOf. by rewrite fold_left_app. Qed.

Lemma latestOf_nodup prefix : NoDup (OMap.keys (latestOf prefix)).
Proof.
  induction prefix as [|p prefix IH] using rev_ind; [constructor|].
  rewrite latestOf_snoc. by apply omap_set_nodup.
Qed.

(** Under a boat's id the map holds the boat's last row of the prefix. *)
Lemma latestOf_get prefix b :
  OMap.get b (latestOf prefix) = last (ofBoat b prefix).
Proof.
  induction prefix as [|p prefix IH] using rev_ind; [done|].
  rewrite latestOf_snoc. unfold ofBoat in *. rewrite List.filter_app. simpl.
  destruct (String.eqb (row_boatId p) b) eqn:Hb.
  - apply String.eqb_eq in Hb as <-. rewrite omap_get_set_same.
    by rewrite last_snoc.
  - apply String.eqb_neq in Hb. rewrite omap_get_set_other by done.
    by rewrite app_nil_r.
Qed.

Lemma consume_spec rows t fuel c :
  (length rows <= fuel + c)%nat ->
  (forall r, In r (take c rows) -> row_t r <= t) ->
  exists c',
    consume fuel rows (Fin t) c (latestOf (take c rows))
    = (c', latestOf (take c' rows))
    /\ (c <= c')%nat
    /\ (forall r, In r (take c' rows) -> row_t r <= t)
    /\ (forall p, rows !! c' = Some p -> t < row_t p).
Proof.
  revert c. induction fuel as [|fuel IH]; intros c Hfuel Hpre; simpl.
  - exists c. split; [done|]. split; [done|]. split; [done|].
    intros p Hp. apply lookup_lt_Some in Hp. lia.
  - destruct (rows !! c) as [p|] eqn:Hp.
    + destruct (Qle_bool (row_t p) t) eqn:Hle.
      * rewrite <- latestOf_snoc, <- (take_S_r rows c p Hp).
        destruct (IH (S c)) as (c' & Hc & Hle' & Hall & Hnext); [lia| |].
        { intros r. rewrite (take_S_r rows c p Hp). intros [?|[<-|[]]]%in_app_or.
          - by apply Hpre.
          - by apply Qle_bool_iff. }
        exists c'. split; [done|]. split; [lia|]. done.
      * exists c. split; [done|]. split; [done|]. split; [done|].
        intros p' Hp'. rewrite Hp in Hp'. injection Hp' as <-.
        by apply Qle_bool_false.
    + exists c. split; [done|]. split; [done|]. split; [done|].
      intros p' Hp'. congruence.
Qed.

Lemma sorted_drop (rows : list Row) c :
  StronglySorted (fun a b => row_t a <= row_t b) rows ->
  StronglySorted (fun a b => row_t a <= row_t b) (drop c rows).
Proof.
  revert rows. induction c as [|c IH]; intros rows Hs; [done|].
  destruct rows as [|r rows]; [done|]. simpl.
  apply StronglySorted_inv in Hs as [Hs _]. by apply IH.
Qed.

(** On rows in ascending time the cursor has passed exactly the rows
    reported at or before [t]. *)
Lemma take_known rows t c :
  StronglySorted (fun a b => row_t a <= row_t b) rows ->
  (forall r, In r (take c rows) -> row_t r <= t) ->
  (forall p, rows !! c = Some p -> t < row_t p) ->
  take c rows = known t rows.
Proof.
  intros Hs Hpre Hnext. unfold known.
  rewrite <- (take_drop c rows) at 2. rewrite List.filter_app.
  assert (H1 : List.filter (fun r => Qle_bool (row_t r) t) (take c rows)
               = take c rows).
  { revert Hpre. generalize (take c rows). intros l Hl.
    induction l as [|x l IH]; simpl; [done|].
    assert (Qle_bool (row_t x) t = true) as ->.
    { apply Qle_bool_iff, Hl. by left. }
    f_equal. apply IH. intros r ?. apply Hl. by right. }
  assert (H2 : List.filter (fun r => Qle_bool (row_t r) t) (drop c rows) = []).
  { apply (sorted_drop rows c) in Hs.
    destruct (drop c rows) as [|p rest] eqn:Hd; [done|].
    assert (Hp : rows !! c = Some p).
    { rewrite <- (Nat.add_0_r c), <- lookup_drop, Hd. done. }
    apply Hnext in Hp. apply StronglySorted_inv in Hs as [_ Hall].
    simpl. assert (Qle_bool (row_t p) t = false) as ->
      by by apply Qle_bool_false.
    clear Hd. induction rest as [|x rest IH]; simpl; [done|].
    apply Forall_cons in Hall as [Hx Hall].
    assert (Qle_bool (row_t x) t = false) as ->
      by (apply Qle_bool_false; lra).
    by apply IH. }
  by rewrite H1, H2, app_nil_r.
Qed.

(** The frame at [t]: every boat reported so far, at its last report. *)
Definition frameAt (rows : list Row) (t : Q) (f : Frame) : Prop :=
  f_t f = Fin t
  /\ f_boats f = List.map toBoat (OMap.values (latestOf (known t rows))).

Lemma lastKnown_loop_spec rows to s :
  0 < s -> StronglySorted (fun a b => row_t a <= row_t b) rows ->
  forall fuel t c frames,
    (remaining to s t < fuel)%nat ->
    (forall r, In r (take c rows) -> row_t r <= t) ->
    exists out,
      frameLoop fuel rows to (Fin s) (Fin t) c (latestOf (take c rows)) frames
      = Done out
      /\ forall f, In f out ->
           In f frames \/ exists t', t <= t' /\ t' <= to /\ frameAt rows t' f.
Proof.
  intros Hstep Hs. induction fuel as [|fuel IH];
    intros t c frames Hfuel Hpre; [lia|].
  simpl. destruct (Qle_bool t to) eqn:Hle.
  - apply Qle_bool_iff in Hle.
    destruct (consume_spec rows t (length rows) c) as (c' & Hc & _ & Hall & Hnext);
      [lia|done|].
    rewrite Hc.
    pose proof (remaining_step to s t Hstep Hle) as Hrem.
    destruct (IH (t + s) c'
                 (frames ++ [{| f_t := Fin t;
                                f_boats := List.map toBoat
                                  (OMap.values (latestOf (take c' rows))) |}]))
      as (out & Hout & Hin); [lia| |].
    { intros r Hr. apply Hall in Hr. lra. }
    exists out. split; [done|].
    intros f Hf. destruct (Hin f Hf) as [Hold|(t' & H1 & H2 & H3)].
    + apply in_app_or in Hold as [?|[<-|[]]]; [by left|].
      right. exists t. split; [lra|]. split; [done|].
      split; [done|]. simpl. by rewrite (take_known rows t c').
    + right. exists t'. split; [lra|]. done.
  - exists frames. split; [done|]. by left.
Qed.

Lemma lastKnown_replayFrames_spec rows from to s :
  0 < s -> StronglySorted (fun a b => row_t a <= row_t b) rows ->
  exists frames,
    replayFrames rows from to (Fin s) = Done frames
    /\ forall f, In f frames ->
         exists t, from <= t /\ t <= to /\ frameAt rows t f.
Proof.
  intros Hstep Hs. unfold replayFrames, framesFuel.
  destruct (lastKnown_loop_spec rows to s Hstep Hs
              (loopFuel from to s) from 0%nat [])
    as (out & Hout & Hin).
  - rewrite loopFuel_remaining. lia.
  - intros r []. 
  - exists out. split; [done|]. intros f Hf.
    destruct (Hin f Hf) as [[]|?]. done.
Qed.

(** What a frame holds, boat by boat. *)
Lemma frameAt_entries rows t f :
  frameAt rows t f ->
  forall e, In e (f_boats f) <->
            exists r, last (ofBoat (bt_boatId e) (known t rows)) = Some r
                      /\ e = toBoat r.
Proof.
  intros [_ Hb] e. rewrite Hb, in_map_iff. split.
  - intros (r & <- & Hr). apply omap_values_In in Hr as [k Hk].
    apply omap_In_get in Hk; [|apply latestOf_nodup].
    rewrite latestOf_get in Hk. exists r. split; [|done].
    assert (row_boatId r = k) as <-; [|done].
    apply last_Some in Hk as [l' Hl'].
    assert (Hin : In r (ofBoat k (known t rows))).
    { rewrite Hl'. apply in_or_app. right. by left. }
    apply List.filter_In in Hin as [_ Hin]. by apply String.eqb_eq.
  - intros (r & Hr & ->). exists r. split; [done|].
    apply omap_values_In. exists (row_boatId r).
    apply omap_get_In. by rewrite latestOf_get.
Qed.
End LastKnown.

(* ===================================================================== *)
(** * Replay: the boundary, the scenario, and repeated runs               *)
(* ===================================================================== *)

Section Replay.
Import TrackLog.
Variable co : Coercions.

(** [p] is the time of the earliest row of boat [b] among [rows]. *)
Definition earliest (rows : list Row) (b : string) (p : Q) : Prop :=
  (exists r, In r rows /\ row_boatId r = b /\ row_t r == p)
  /\ (forall r, In r rows -> row_boatId r = b -> p <= row_t r).

Lemma smoothed_boundary table raceId from to b p stepMs :
  (0 < stepMs)%Z ->
  let rows := select byBoatThenTime raceId from to table in
  earliest rows b p ->
  exists frames,
    IndexSmoothed.replayFrames rows from to stepMs = Done frames
    /\ forall f, In f frames ->
         exists e, In e (IndexSmoothed.f_boats f)
           /\ IndexSmoothed.lb_boatId e = b
           /\ (IndexSmoothed.f_t f <= p ->
               exists r, In r rows /\ row_boatId r = b /\ row_t r == p
                 /\ e = IndexSmoothed.pointAt b (IndexSmoothed.toTrackPoint r)
                                              (IndexSmoothed.f_t f)).
Proof.
  intros Hstep rows [(rw & Hrw & Hbw & Htw) Hmin].
  destruct (replayFrames_spec rows from to stepMs Hstep) as (frames & Hrun & Hfr).
  exists frames. split; [done|]. intros f Hf.
  destruct (Hfr f Hf) as (_ & _ & Hfull).
  pose proof (select_byBoat_sorted raceId from to table b) as Hsorted.
  fold rows in Hsorted.
  assert (Hrw' : In rw (List.filter (fun r => String.eqb (row_boatId r) b) rows)).
  { apply List.filter_In. split; [done|]. by apply String.eqb_eq. }
  destruct (List.filter (fun r => String.eqb (row_boatId r) b) rows)
    as [|r0 rest] eqn:Hfilt; [done|].
  assert (Hr0 : In r0 rows /\ row_boatId r0 = b).
  { assert (Hin : In r0 (List.filter (fun r => String.eqb (row_boatId r) b) rows))
      by (rewrite Hfilt; by left).
    apply List.filter_In in Hin as [? ?%String.eqb_eq]. done. }
  destruct Hr0 as [Hr0 Hb0].
  assert (Ht0 : row_t r0 == p).
  { apply Qle_antisym; [|by apply Hmin].
    rewrite <- Htw. destruct Hrw' as [<-|Hin]; [lra|].
    apply StronglySorted_inv in Hsorted as [_ Hall].
    eapply List.Forall_forall in Hall; done. }
  destruct (Hfull b (ptsOf b rows)) as (e & He & Hid & Hfirst).
  { apply groupByBoat_In. split; [|done]. unfold ptsOf. by rewrite Hfilt. }
  { unfold ptsOf. by rewrite Hfilt. }
  exists e. split; [done|]. split; [done|].
  intros Hle. exists r0. split; [done|]. split; [done|]. split; [done|].
  apply Hfirst.
  - unfold ptsOf. by rewrite Hfilt.
  - simpl. lra.
Qed.

Lemma lastKnown_boundary table raceId from to b p s :
  0 < s ->
  let rows := select byTime raceId from to table in
  earliest rows b p ->
  exists frames,
    IndexLastKnown.replayFrames rows from to (Fin s) = Done frames
    /\ forall f, In f frames ->
         exists t, IndexLastKnown.f_t f = Fin t
           /\ ((exists e, In e (IndexLastKnown.f_boats f)
                          /\ IndexLastKnown.bt_boatId e = b) <-> p <= t)
           /\ (forall e, In e (IndexLastKnown.f_boats f) ->
                 exists r, In r rows /\ row_t r <= t
                           /\ e = IndexLastKnown.toBoat r).
Proof.
  intros Hstep rows [(rw & Hrw & Hbw & Htw) Hmin].
  destruct (lastKnown_replayFrames_spec rows from to s Hstep
              (select_byTime_sorted raceId from to table))
    as (frames & Hrun & Hfr).
  exists frames. split; [done|]. intros f Hf.
  destruct (Hfr f Hf) as (t & _ & _ & Hat).
  exists t. split; [apply Hat|].
  pose proof (frameAt_entries rows t f Hat) as Hent.
  assert (Hknown : forall r b', last (ofBoat b' (known t rows)) = Some r ->
                     In r rows /\ row_t r <= t /\ row_boatId r = b').
  { intros r b' Hl. apply last_Some in Hl as [l' Hl'].
    assert (Hin : In r (ofBoat b' (known t rows))).
    { rewrite Hl'. apply in_or_app. right. by left. }
    apply List.filter_In in Hin as [Hin ?%String.eqb_eq].
    apply List.filter_In in Hin as [? ?%Qle_bool_iff]. done. }
  split; [split|].
  - intros (e & He & Hb). apply Hent in He as (r & Hl & ->).
    apply Hknown in Hl as (Hin & Hle & Hbr). simpl in Hb.
    specialize (Hmin r Hin Hb). lra.
  - intros Hle.
    assert (Hin : In rw (ofBoat b (known t rows))).
    { apply List.filter_In. split; [|by apply String.eqb_eq].
      apply List.filter_In. split; [done|]. apply Qle_bool_iff. lra. }
    destruct (last (ofBoat b (known t rows))) as [r|] eqn:Hl.
    2:{ apply last_None in Hl. rewrite Hl in Hin. done. }
    destruct (Hknown r b Hl) as (_ & _ & Hbr).
    exists (IndexLastKnown.toBoat r). split; [|done].
    apply Hent. exists r. simpl. rewrite Hbr. done.
  - intros e He. apply Hent in He as (r & Hl & ->).
    apply Hknown in Hl as (? & ? & _). eauto.
Qed.

(** C3 (as amended). A boat whose earliest point in the window is at time
    [p]: in the interpolating replay of part_003 it has an entry in every
    frame, and in the frames at or before [p] that entry is the first point
    itself under the frame's time; in the last-known replay of part_004 it
    has an entry exactly in the frames at or after [p], and every entry of a
    frame is a stored row reported by then. *)
Theorem replay_boundary table raceId from to b p stepMs s :
  (0 < stepMs)%Z -> 0 < s ->
  (let rows := select byBoatThenTime raceId from to table in
   earliest rows b p ->
   exists frames,
     IndexSmoothed.replayFrames rows from to stepMs = Done frames
     /\ forall f, In f frames ->
          exists e, In e (IndexSmoothed.f_boats f)
            /\ IndexSmoothed.lb_boatId e = b
            /\ (IndexSmoothed.f_t f <= p ->
                exists r, In r rows /\ row_boatId r = b /\ row_t r == p
                  /\ e = IndexSmoothed.pointAt b (IndexSmoothed.toTrackPoint r)
                                               (IndexSmoothed.f_t f)))
  /\ (let rows := select byTime raceId from to table in
      earliest rows b p ->
      exists frames,
        IndexLastKnown.replayFrames rows from to (Fin s) = Done frames
        /\ forall f, In f frames ->
             exists t, IndexLastKnown.f_t f = Fin t
               /\ ((exists e, In e (IndexLastKnown.f_boats f)
                              /\ IndexLastKnown.bt_boatId e = b) <-> p <= t)
               /\ (forall e, In e (IndexLastKnown.f_boats f) ->
                     exists r, In r rows /\ row_t r <= t
                               /\ e = IndexLastKnown.toBoat r)).
Proof.
  intros Hstep Hs. split.
  - by apply smoothed_boundary.
  - by apply lastKnown_boundary.
Qed.

(** ** Repeated runs *)


End Replay.

(* ===================================================================== *)
(** * Scenarios                                                           *)
(* ===================================================================== *)

Module Scenario.
Import TrackLog RaceStateTs.

(** A reading of [localeCompare]: the order of the bytes. *)
Definition lexCompare (a b : string) : Z :=
  match String.compare a b with Lt => (-1)%Z | Eq => 0%Z | Gt => 1%Z end.

Definition number (q : Q) : value := VNumber (Fin q).

(** An environment in which every clock reading is [now], every write
    succeeds and every socket takes what it is sent. *)
Definition env (now : Q) : Env :=
  {| now_t := now; now_joined := now; now_view := now; now_event := now;
     putFails := false; kvFails := false; sendFails := fun _ => false;
     newSocket := 7%nat |}.

Definition body (boatId : value) (lat lon t : value) : Body :=
  {| b_raceId := VString "R1"; b_boatId := boatId;
     b_boatName := VUndefined; b_nation := VUndefined;
     b_lat := lat; b_lon := lon; b_t := t;
     b_sog := VUndefined; b_speed := VUndefined; b_cog := VUndefined;
     b_course := VUndefined; b_heading := VUndefined; b_heel := VUndefined |}.

Definition post (path : string) (b : Body) : Request :=
  {| method := "POST"; path := path; upgradeWebSocket := false;
     payload := Json b |}.

Definition fetch := RaceStateTs.fetch Sample.coercions lexCompare.


(** B1 reports without a latitude. *)
Definition noLatitude : Body := body (VString "B1") VUndefined (number 20) (number 1000).

(** A channel with one spectator, after B1 reported at t = 5000. *)
Definition watched : State :=
  {| roster := ∅; latest := ∅; sockets := [1%nat]; loaded := true;
     storage := None; racesIndex := [] |}.

Definition afterFirst : State :=
  (fetch (env 6000)
         (post "/update" (body (VString "B1") (number 10) (number 20) (number 5000)))
         watched).1.2.

(** The late report: t = 1000, older than the cached 5000. *)
Definition late : Body := body (VString "B1") (number 11) (number 21) (number 1000).

Definition row (boatId : string) (t lat lon : Q) : Row :=
  {| row_raceId := "R1"; row_boatId := boatId; row_t := t;
     row_lat := lat; row_lon := lon;
     row_sog := None; row_cog := None; row_name := None |}.

(** Scenario B of the specification. *)
Definition tableB : list Row := [row "B1" 0 0 0; row "B1" 4000 4 4].

Definition queryB : IndexSmoothed.Query :=
  {| IndexSmoothed.q_raceId := Some "R1"; IndexSmoothed.q_from := Some "0";
     IndexSmoothed.q_to := Some "4000"; IndexSmoothed.q_hz := Some "1" |}.

(** B1 is first seen 500 ms into the window, and again at 2500. *)
Definition tableLate : list Row := [row "B1" 500 0 0; row "B1" 2500 20 20].

Definition queryLate : IndexSmoothed.Query :=
  {| IndexSmoothed.q_raceId := Some "R1"; IndexSmoothed.q_from := Some "0";
     IndexSmoothed.q_to := Some "3000"; IndexSmoothed.q_hz := Some "1" |}.

End Scenario.

Section ScenarioFacts.
Import TrackLog RaceStateTs Scenario.

Lemma lexCompare_total a b :
  (lexCompare a b <= 0)%Z \/ (lexCompare b a <= 0)%Z.
Proof.
  unfold lexCompare. rewrite (String.compare_antisym b a).
  destruct (String.compare a b); simpl; lia.
Qed.

Lemma lexCompare_trans a b c :
  (lexCompare a b <= 0)%Z -> (lexCompare b c <= 0)%Z ->
  (lexCompare a c <= 0)%Z.
Proof.
  unfold lexCompare.
  destruct (String.compare a b) eqn:Hab; [| |lia].
  - apply String.compare_eq_iff in Hab as ->. done.
  - intros _. destruct (String.compare b c) eqn:Hbc; [| |lia].
    + apply String.compare_eq_iff in Hbc as <-. rewrite Hab. lia.
    + rewrite (string_compare_lt_trans _ _ _ Hab Hbc). lia.
Qed.



(** The late report is accepted although the cached sample is newer. *)
Lemma update_overwrites_telemetry_witness :
  t_t <$> latest afterFirst !! "B1" = Some 5000
  /\ latest (fetch (env 6000) (post "/update" late) afterFirst).1.2
     = <["B1" := telemetryOf Sample.coercions (env 6000) late]>
         (latest (loadOnce afterFirst))
  /\ t_t (telemetryOf Sample.coercions (env 6000) late) == 1000.
Proof.
  split; [vm_compute; reflexivity|]. split; [|reflexivity].
  apply (update_overwrites_telemetry Sample.coercions lexCompare
           (env 6000) (post "/update" late) late afterFirst
           (fetch (env 6000) (post "/update" late) afterFirst).1.2
           (fetch (env 6000) (post "/update" late) afterFirst).2);
    reflexivity.
Defined.

(** B1, known since 6000, joins again at 9000. *)
Lemma join_keeps_joinedAt_and_telemetry_witness :
  r_joinedAt <$> roster afterFirst !! "B1" = Some 6000
  /\ let '(out, s', sent) :=
       fetch (env 9000)
             (post "/join" (body (VString "B1") VUndefined VUndefined VUndefined))
             afterFirst in
     latest s' = latest (loadOnce afterFirst)
     /\ (forall old, roster (loadOnce afterFirst) !! "B1" = Some old ->
           exists new, roster s' !! "B1" = Some new
                       /\ r_joinedAt new = r_joinedAt old)
     /\ out = Returned (JoinAck "B1" (size (roster s'))).
Proof.
  split; [vm_compute; reflexivity|].
  pose proof (join_keeps_joinedAt_and_telemetry Sample.coercions lexCompare
                (env 9000)
                (post "/join" (body (VString "B1") VUndefined VUndefined VUndefined))
                (body (VString "B1") VUndefined VUndefined VUndefined)
                afterFirst eq_refl eq_refl eq_refl) as H.
  cbv zeta in H. unfold fetch.
  set (res := RaceStateTs.fetch Sample.coercions lexCompare (env 9000) _
                                afterFirst) in *.
  destruct res as [[out s'] sent].
  destruct H as (Hl & Hj & _ & Hr); [discriminate|discriminate|].
  split; [exact Hl|]. split; [exact Hj|].
  destruct (Hr eq_refl) as [-> _]. reflexivity.
Defined.

(** The spectator is told that B1 is live by a report 125 s old, and the
    view of the same state says stale. *)
Lemma update_event_says_live_witness :
  (exists data,
     (fetch (env 126000) (post "/update" late) afterFirst).2
     = [(1%nat, Update 126000 "B1" data)]
     /\ v_live data = true)
  /\ (exists v,
        boatsView (env 126000)
                  (fetch (env 126000) (post "/update" late) afterFirst).1.2
          !! "B1" = Some v
        /\ v_live v = false).
Proof.
  destruct (update_event_says_live Sample.coercions lexCompare
           (env 126000) (post "/update" late) late afterFirst
           (fetch (env 126000) (post "/update" late) afterFirst).1.2
           (fetch (env 126000) (post "/update" late) afterFirst).2)
    as (Hsent & (data & Hev & Hlive & _) & Hview);
    try reflexivity.
  split.
  - exists data. split; [|exact Hlive].
    rewrite Hsent, Hev. vm_compute. reflexivity.
  - destruct Hview as (v & Hv & Hstale & _); [reflexivity|].
    exists v. split; [exact Hv|exact Hstale].
Defined.

(** ** Replay *)

(** C8. Scenario B: with the points (t=0, lat=0, lon=0) and (t=4000, lat=4,
    lon=4) of B1, the replay from 0 to 4000 at hz = 1 has five frames, a
    second apart, and the one at t = 2000 holds B1 at lat 2, lon 2: the
    values of the two points weighted by the time fraction 2000/4000. *)
Theorem replay_scenario_B :
  exists frames f b,
    IndexSmoothed.replay Sample.coercions false queryB tableB
    = Done (IndexSmoothed.Replay "R1" 0 4000 1 1000 frames)
    /\ length frames = 5%nat
    /\ frames !! 2%nat = Some f
    /\ IndexSmoothed.f_t f == 2000
    /\ IndexSmoothed.f_boats f = [b]
    /\ IndexSmoothed.lb_boatId b = "B1"
    /\ IndexSmoothed.lb_lat b == 2
    /\ IndexSmoothed.lb_lon b == 2
    /\ IndexSmoothed.lb_lat b
       == IndexSmoothed.lerp 0 4 ((2000 - 0) / (4000 - 0)).
Proof. do 3 eexists. repeat split; vm_compute; reflexivity. Qed.

(** The same two values in binary64: the midpoint of scenario B, and the
    latitude a quarter of the way from 0 to 20. *)
Lemma scenario_values_binary64 :
  Binary64.midpointB = Binary64.two /\ Binary64.quarterWay = Binary64.five.
Proof. split; vm_compute; reflexivity. Qed.

Lemma tableLate_earliest order :
  earliest (select order "R1" 0 3000 tableLate) "B1" 500.
Proof.
  split.
  - exists (row "B1" 500 0 0). split; [|split; reflexivity].
    apply select_In. split; [by left|]. split; [done|]. split; done.
  - intros r Hin _. apply select_In in Hin as ([<-|[<-|[]]] & _); done.
Qed.

(** C3, the claim as stated fails on the interpolating replay: B1, first
    seen at 500, is in the frame at t = 0, and in the frame at t = 1000, the
    first at or after 500, its latitude 5 lies between those of its two
    points, 0 and 20. *)
Lemma smoothed_replay_shows_boat_before_first_point :
  earliest (select byBoatThenTime "R1" 0 3000 tableLate) "B1" 500
  /\ exists frames f0 f1 e0 e1,
       IndexSmoothed.replay Sample.coercions false queryLate tableLate
       = Done (IndexSmoothed.Replay "R1" 0 3000 1 1000 frames)
       /\ frames !! 0%nat = Some f0
       /\ IndexSmoothed.f_t f0 == 0 /\ IndexSmoothed.f_t f0 < 500
       /\ IndexSmoothed.f_boats f0 = [e0]
       /\ IndexSmoothed.lb_boatId e0 = "B1"
       /\ frames !! 1%nat = Some f1
       /\ IndexSmoothed.f_t f1 == 1000
       /\ IndexSmoothed.f_boats f1 = [e1]
       /\ IndexSmoothed.lb_boatId e1 = "B1"
       /\ IndexSmoothed.lb_lat e1 == 5.
Proof.
  split; [apply tableLate_earliest|].
  do 5 eexists. repeat split; vm_compute; reflexivity.
Qed.

Lemma replay_boundary_witness :
  (exists frames,
     IndexSmoothed.replayFrames (select byBoatThenTime "R1" 0 3000 tableLate)
                                0 3000 1000 = Done frames
     /\ forall f, In f frames ->
          exists e, In e (IndexSmoothed.f_boats f)
            /\ IndexSmoothed.lb_boatId e = "B1"
            /\ (IndexSmoothed.f_t f <= 500 ->
                exists r, In r (select byBoatThenTime "R1" 0 3000 tableLate)
                  /\ row_boatId r = "B1" /\ row_t r == 500
                  /\ e = IndexSmoothed.pointAt "B1"
                           (IndexSmoothed.toTrackPoint r) (IndexSmoothed.f_t f)))
  /\ (exists frames,
        IndexLastKnown.replayFrames (select byTime "R1" 0 3000 tableLate)
                                    0 3000 (Fin 1000) = Done frames
        /\ forall f, In f frames ->
             exists t, IndexLastKnown.f_t f = Fin t
               /\ ((exists e, In e (IndexLastKnown.f_boats f)
                              /\ IndexLastKnown.bt_boatId e = "B1") <-> 500 <= t)
               /\ (forall e, In e (IndexLastKnown.f_boats f) ->
                     exists r, In r (select byTime "R1" 0 3000 tableLate)
                               /\ row_t r <= t
                               /\ e = IndexLastKnown.toBoat r)).
Proof.
  destruct (replay_boundary tableLate "R1" 0 3000 "B1" 500 1000 1000)
    as [Hsmooth Hlast]; [reflexivity|reflexivity|].
  split.
  - apply Hsmooth. apply tableLate_earliest.
  - apply Hlast. apply tableLate_earliest.
Defined.
End ScenarioFacts.

(* ===================================================================== *)
(** * The race channel: storage, sockets and the state it keeps           *)
(* ===================================================================== *)

Section ChannelBehaviour.
Import RaceStateTs.
Variable co : Coercions.
Variable localeCompare : string -> string -> Z.

Abbreviation update := (RaceStateTs.update co).
Abbreviation join := (RaceStateTs.join co).
Abbreviation fetch := (RaceStateTs.fetch co localeCompare).
Abbreviation safeNum := (RaceStateTs.safeNum co).

(** ** Reading back what was stored *)

Lemma mapOfEntries_fold {A} (l : list (string * A)) (m : gmap string A) :
  NoDup l.*1 ->
  fold_left (fun m p => <[p.1 := p.2]> m) l m = list_to_map l ∪ m.
Proof.
  revert m. induction l as [|[k v] l IH]; intros m Hnd; simpl.
  - by rewrite (left_id_L ∅ (∪)).
  - apply NoDup_cons in Hnd as [Hk Hnd]. rewrite IH by done.
    rewrite <- insert_union_r.
    + by rewrite insert_union_l.
    + by apply not_elem_of_list_to_map_1.
Qed.

Lemma mapOfEntries_map_to_list {A} (m : gmap string A) :
  mapOfEntries (map_to_list m) = m.
Proof.
  unfold mapOfEntries.
  rewrite mapOfEntries_fold by apply NoDup_fst_map_to_list.
  by rewrite list_to_map_to_list, (right_id_L ∅ (∪)).
Qed.

Lemma persist_stores e s s' :
  persist e s = Some s' ->
  roster s' = roster s /\ latest s' = latest s /\ sockets s' = sockets s
  /\ loaded s' = loaded s /\ racesIndex s' = racesIndex s
  /\ storage s' = Some {| saved_roster := Some (map_to_list (roster s));
                          saved_latest := Some (map_to_list (latest s)) |}.
Proof.
  unfold persist. destruct (putFails e); [discriminate|].
  intros [= <-]. done.
Qed.

Lemma state_eq (s s' : State) :
  roster s = roster s' -> latest s = latest s' -> sockets s = sockets s' ->
  loaded s = loaded s' -> storage s = storage s' ->
  racesIndex s = racesIndex s' -> s = s'.
Proof. destruct s, s'. simpl. intros. congruence. Qed.

(** ** The steps of an update and of a join *)

(** The object's fields once an update has run up to the storage write. *)
Definition memAfterUpdate (e : Env) (body : Body) (s : State) : State :=
  let boatId := ToString co (b_boatId body) in
  {| roster := <[boatId := seenAt (timeOf co e body) (entryFor co e body s)]>
                 (roster s);
     latest := <[boatId := telemetryOf co e body]> (latest s);
     sockets := sockets s; loaded := loaded s; storage := storage s;
     racesIndex := racesIndex (updateRacesIndex e (raceIdOf co body) s) |}.

Lemma update_run e body s :
  ~ invalidUpdate co body ->
  update e (Json body) s =
  match persist e (memAfterUpdate e body s) with
  | None => (Rejected, memAfterUpdate e body s, [])
  | Some s5 =>
      let '(s6, sent) := broadcast e (updateEvent co e body s) s5 in
      (Returned (Text 200 "OK"), s6, sent)
  end.
Proof.
  intros Hv. unfold RaceStateTs.update. fold (raceIdOf co body).
  destruct (emptyStr (raceIdOf co body)) eqn:Hr.
  { apply emptyStr_true in Hr. exfalso. apply Hv. by left. }
  destruct (mustHaveTelemetryFields co body) as [|m] eqn:Hc.
  2:{ apply mustHave_fail in Hc. exfalso. apply Hv. right. tauto. }
  cbv zeta.
  destruct (updateRacesIndex_fields e (raceIdOf co body) s)
    as (Hro & Hla & Hso & Hst & Hlo).
  set (s1 := updateRacesIndex e (raceIdOf co body) s) in *.
  set (boatId := ToString co (b_boatId body)).
  unfold updateEvent. fold boatId.
  destruct (roster s1 !! boatId) as [entry|] eqn:Hlook.
  - rewrite bool_decide_true by eauto. simpl. rewrite Hlook.
    match goal with
    | |- context [persist e ?s4] =>
        replace s4 with (memAfterUpdate e body s)
    end.
    2:{ apply state_eq; simpl; fold boatId; rewrite ?Hla;
          try congruence; try done.
        unfold entryFor. fold boatId. rewrite <- Hro, Hlook. done. }
    unfold entryFor. fold boatId. rewrite <- Hro, Hlook. done.
  - rewrite bool_decide_false by (intros [? ?]; discriminate). simpl.
    rewrite lookup_insert_eq.
    match goal with
    | |- context [persist e ?s4] =>
        replace s4 with (memAfterUpdate e body s)
    end.
    2:{ apply state_eq; simpl; fold boatId; rewrite ?Hla;
          try congruence; try done.
        unfold entryFor. fold boatId.
        rewrite <- Hro, Hlook, insert_insert_eq. done. }
    unfold entryFor. fold boatId. rewrite <- Hro, Hlook. done.
Qed.

(** The roster entry a join writes. *)
Definition joinedEntry (e : Env) (body : Body) (s : State)
  : BoatRosterEntry :=
  let boatId := boatIdOf co body in
  let existing := roster s !! boatId in
  {| r_boatId := boatId;
     r_boatName := ToString co (or_else (b_boatName body) (VString boatId));
     r_nation := optString co (b_nation body);
     r_joinedAt := nullish (r_joinedAt <$> existing) (now_joined e);
     r_lastSeen := existing ≫= r_lastSeen |}.

Definition memAfterJoin (e : Env) (body : Body) (s : State) : State :=
  {| roster := <[boatIdOf co body := joinedEntry e body s]> (roster s);
     latest := latest s;
     sockets := sockets s; loaded := loaded s; storage := storage s;
     racesIndex := racesIndex (updateRacesIndex e (raceIdOf co body) s) |}.

Lemma or_else_nonempty v s :
  s <> "" -> or_else (or_else v (VString s)) (VString "") = or_else v (VString s).
Proof.
  intros Hs. unfold or_else at 1.
  destruct (truthy (or_else v (VString s))) eqn:Ht; [done|].
  unfold or_else in Ht. destruct (truthy v) eqn:Hv; [congruence|].
  simpl in Ht. apply negb_false_iff, String.eqb_eq in Ht. done.
Qed.

Lemma join_run e body s :
  raceIdOf co body <> "" -> boatIdOf co body <> "" ->
  join e (Json body) s =
  match persist e (memAfterJoin e body s) with
  | None => (Rejected, memAfterJoin e body s, [])
  | Some s3 =>
      let '(s4, sent) :=
        broadcast e (Full (now_event e) (boatsView e s3)) s3 in
      (Returned (JoinAck (boatIdOf co body) (size (roster s4))), s4, sent)
  end.
Proof.
  intros Hr Hb. unfold RaceStateTs.join.
  fold (raceIdOf co body). fold (boatIdOf co body).
  apply emptyStr_false in Hr as Hr'. apply emptyStr_false in Hb as Hb'.
  rewrite Hr', Hb'. cbv zeta.
  destruct (updateRacesIndex_fields e (raceIdOf co body) s)
    as (Hro & Hla & Hso & Hst & Hlo).
  match goal with
  | |- context [persist e ?s2] =>
      replace s2 with (memAfterJoin e body s)
  end; [done|].
  apply state_eq; simpl; try congruence.
  unfold joinedEntry. rewrite Hro, or_else_nonempty by done. done.
Qed.

Lemma fetch_loaded e r s : loaded (fetch e r s).1.2 = true.
Proof.
  assert (Hl : loaded (loadOnce s) = true).
  { unfold loadOnce. destruct (loaded s) eqn:H; done. }
  unfold RaceStateTs.fetch.
  destruct (String.eqb (path r) "/ws/live").
  { unfold wsLive. destruct (negb _); [done|].
    destruct (sendFails e _); done. }
  destruct (_ && _); [done|].
  destruct (_ && _).
  { unfold RaceStateTs.join. destruct (payload r) as [|body]; [done|].
    destruct (emptyStr _); [done|]. destruct (emptyStr _); [done|].
    cbv zeta.
    destruct (updateRacesIndex_fields e
      (ToString co (or_else (b_raceId body) (VString ""))) (loadOnce s))
      as (_ & _ & _ & _ & Hlo).
    unfold persist. destruct (putFails e); simpl; congruence. }
  destruct (_ && _); [|done].
  unfold RaceStateTs.update. destruct (payload r) as [|body]; [done|].
  destruct (emptyStr _); [done|].
  destruct (mustHaveTelemetryFields co body); [|done].
  cbv zeta.
  destruct (updateRacesIndex_fields e
    (ToString co (or_else (b_raceId body) (VString ""))) (loadOnce s))
    as (_ & _ & _ & _ & Hlo).
  case_bool_decide; simpl.
  - destruct (roster _ !! _); simpl; [|congruence].
    unfold persist. destruct (putFails e); simpl; congruence.
  - rewrite lookup_insert_eq.
    unfold persist. destruct (putFails e); simpl; congruence.
Qed.

Lemma loadOnce_loaded s : loaded s = true -> loadOnce s = s.
Proof. unfold loadOnce. intros ->. done. Qed.

(** X1. When /join or /update has answered 200, the snapshot in storage is
    the state in memory: an object evicted at that point and built again
    loads the same roster and the same telemetry. *)
Theorem stored_snapshot_restores_maps e r s resp s' sent :
  method r = "POST" -> path r = "/join" \/ path r = "/update" ->
  fetch e r s = (Returned resp, s', sent) ->
  (forall msg, resp <> Text 400 msg) ->
  roster (loadOnce (evict s')) = roster s'
  /\ latest (loadOnce (evict s')) = latest s'.
Proof.
  intros Hm Hp Hf Hok.
  assert (Hst : storage s' =
                Some {| saved_roster := Some (map_to_list (roster s'));
                        saved_latest := Some (map_to_list (latest s')) |}).
  { destruct Hp as [Hp|Hp].
    - rewrite fetch_join in Hf by done.
      destruct (payload r) as [|body].
      { simpl in Hf. injection Hf as <- _ _. exfalso. by eapply Hok. }
      destruct (String.string_dec (raceIdOf co body) "") as [Hr|Hr].
      { unfold RaceStateTs.join in Hf. fold (raceIdOf co body) in Hf.
        rewrite Hr in Hf. simpl in Hf. injection Hf as <- _ _.
        exfalso. by eapply Hok. }
      destruct (String.string_dec (boatIdOf co body) "") as [Hb|Hb].
      { unfold RaceStateTs.join in Hf. fold (raceIdOf co body) in Hf.
        fold (boatIdOf co body) in Hf.
        apply emptyStr_false in Hr. rewrite Hr, Hb in Hf. simpl in Hf.
        injection Hf as <- _ _. exfalso. by eapply Hok. }
      rewrite join_run in Hf by done.
      destruct (persist e _) as [s3|] eqn:Hper; [|discriminate].
      apply persist_stores in Hper as (Hro & Hla & _ & _ & _ & Hsto).
      simpl in Hf. injection Hf as _ <- _. simpl. rewrite Hsto, Hro, Hla. done.
    - rewrite fetch_update in Hf by done.
      destruct (payload r) as [|body].
      { simpl in Hf. injection Hf as <- _ _. exfalso. by eapply Hok. }
      destruct (invalidUpdate_dec co body) as [Hi|Hv].
      { destruct (update_invalid co e body (loadOnce s) Hi) as [msg Hmsg].
        rewrite Hmsg in Hf. injection Hf as <- _ _. exfalso. by eapply Hok. }
      rewrite update_run in Hf by done.
      destruct (persist e _) as [s5|] eqn:Hper; [|discriminate].
      apply persist_stores in Hper as (Hro & Hla & _ & _ & _ & Hsto).
      simpl in Hf. injection Hf as _ <- _. simpl. rewrite Hsto, Hro, Hla. done. }
  unfold loadOnce, evict. simpl. rewrite Hst. simpl.
  rewrite !mapOfEntries_map_to_list. done.
Qed.

(** X2. An /update with its four fields, whose storage write succeeds, is
    answered 200 whatever the sockets do: the sockets whose send throws are
    dropped, the others stay in their order, and each of them is sent the
    one event of the update. *)
Theorem update_drops_failing_sockets e r body s :
  method r = "POST" -> path r = "/update" -> payload r = Json body ->
  ~ invalidUpdate co body -> putFails e = false ->
  exists s',
    fetch e r s
    = (Returned (Text 200 "OK"), s',
       List.map (fun ws => (ws, updateEvent co e body (loadOnce s)))
                (sockets s'))
    /\ sockets s'
       = List.filter (fun ws => negb (sendFails e ws)) (sockets (loadOnce s)).
Proof.
  intros Hm Hp Hb Hv Hput. rewrite fetch_update, Hb by done.
  rewrite update_run by done. unfold persist. rewrite Hput. simpl.
  match goal with |- context [(Returned _, ?st, _)] => exists st end.
  split; [reflexivity|]. done.
Qed.

(** X3. A /join with a raceId and a boatId, whose storage write succeeds,
    sends every socket that takes it the full view of the state the join
    leaves; the sockets whose send throws are dropped. The boat that joined
    is a property of that view, and so in the text sent, unless its id is
    "__proto__", under which no view has a property. *)
Theorem join_broadcasts_resulting_view e r body s :
  method r = "POST" -> path r = "/join" -> payload r = Json body ->
  raceIdOf co body <> "" -> boatIdOf co body <> "" -> putFails e = false ->
  exists s',
    fetch e r s
    = (Returned (JoinAck (boatIdOf co body) (size (roster s'))), s',
       List.map (fun ws => (ws, Full (now_event e) (boatsView e s')))
                (sockets s'))
    /\ sockets s'
       = List.filter (fun ws => negb (sendFails e ws)) (sockets (loadOnce s))
    /\ (boatIdOf co body <> protoKey ->
        is_Some (own (boatsView e s') !! boatIdOf co body))
    /\ own (boatsView e s') !! protoKey = None.
Proof.
  intros Hm Hp Hb Hr Hbo Hput. rewrite fetch_join, Hb by done.
  rewrite join_run by done. unfold persist. rewrite Hput.
  cbn -[boatsView].
  match goal with |- context [(Returned _, ?st, _)] => exists st end.
  split; [reflexivity|]. split; [done|]. split.
  - intros Hkey. apply String.eqb_neq in Hkey.
    rewrite boatsView_own, Hkey. simpl. rewrite lookup_insert_eq. simpl. eauto.
  - by rewrite boatsView_own.
Qed.

(** X4. When the storage write of an /update rejects, the request fails and
    no socket is sent anything, yet the object keeps the update in memory:
    the sample is cached, the roster entry carries its time, and every later
    view has the boat with that position among its properties (for a boat
    id other than "__proto__"); what is stored is as it was. *)
Theorem failed_write_keeps_update_in_memory e r body s :
  method r = "POST" -> path r = "/update" -> payload r = Json body ->
  ~ invalidUpdate co body -> putFails e = true ->
  let boatId := ToString co (b_boatId body) in
  exists s',
    fetch e r s = (Rejected, s', [])
    /\ storage s' = storage (loadOnce s)
    /\ sockets s' = sockets (loadOnce s)
    /\ latest s' !! boatId = Some (telemetryOf co e body)
    /\ (exists entry, roster s' !! boatId = Some entry
                      /\ r_lastSeen entry = Some (timeOf co e body))
    /\ (boatId <> protoKey ->
        forall e2, exists v,
          own (boatsView e2 s') !! boatId = Some v
          /\ v_lat v = Some (t_lat (telemetryOf co e body))
          /\ v_lng v = Some (t_lon (telemetryOf co e body))).
Proof.
  intros Hm Hp Hb Hv Hput boatId. rewrite fetch_update, Hb by done.
  rewrite update_run by done. unfold persist. rewrite Hput.
  eexists. split; [reflexivity|]. cbn -[boatsView]. fold boatId.
  split; [done|]. split; [done|].
  split; [by rewrite lookup_insert_eq|].
  split; [rewrite lookup_insert_eq; eauto|].
  intros Hkey e2. apply String.eqb_neq in Hkey.
  rewrite boatsView_own, Hkey. simpl. fold boatId.
  rewrite lookup_insert_eq. simpl. eexists. split; [done|].
  simpl. rewrite lookup_insert_eq. done.
Qed.

Lemma safeNum_ToNumber v q : safeNum v = Some q -> ToNumber co v = Fin q.
Proof.
  unfold RaceStateTs.safeNum. destruct v; simpl;
    try (destruct (StringToNumber co s)); try (destruct n);
    try (destruct b); intros [= <-]; done.
Qed.

(** X5. After an accepted /update of a boat whose id is not "__proto__",
    GET /boats lists the boat with the position, speed, heading and time of
    that update: the latitude and the longitude are the finite numbers the
    request carried, the heading falls back to the course, and the boat is
    live exactly when the reported time passes the test of the view's
    clock. *)
Theorem snapshot_shows_accepted_update e r body s s' sent e2 rget :
  method r = "POST" -> path r = "/update" -> payload r = Json body ->
  fetch e r s = (Returned (Text 200 "OK"), s', sent) ->
  method rget = "GET" -> path rget = "/boats" ->
  ToString co (b_boatId body) <> protoKey ->
  let boatId := ToString co (b_boatId body) in
  let telem := telemetryOf co e body in
  exists views v lat lon,
    fetch e2 rget s' = (Returned (BoatsList (now_event e2) views), s', [])
    /\ In v views
    /\ v_boatId v = boatId
    /\ safeNum (b_lat body) = Some lat /\ v_lat v = Some (Fin lat)
    /\ safeNum (b_lon body) = Some lon /\ v_lng v = Some (Fin lon)
    /\ v_timestamp v = Some (timeOf co e body)
    /\ v_lastSeen v = Some (timeOf co e body)
    /\ v_speed v = t_sog telem
    /\ v_heading v = match t_heading telem with
                     | Some h => Some h
                     | None => t_cog telem
                     end
    /\ v_live v = liveAt (now_view e2) (Some (timeOf co e body)).
Proof.
  intros Hm Hp Hb Hf Hmg Hpg Hkey boatId telem.
  apply String.eqb_neq in Hkey. fold boatId in Hkey.
  assert (Hl : loaded s' = true).
  { pose proof (fetch_loaded e r s) as H. rewrite Hf in H. exact H. }
  rewrite fetch_update, Hb in Hf by done.
  apply update_accepted in Hf as (Hv & _ & Hla & Hro & _).
  fold boatId in Hla, Hro.
  assert (Hlat : exists lat, safeNum (b_lat body) = Some lat).
  { destruct (safeNum (b_lat body)) eqn:H; [eauto|].
    exfalso. apply Hv. unfold invalidUpdate. tauto. }
  assert (Hlon : exists lon, safeNum (b_lon body) = Some lon).
  { destruct (safeNum (b_lon body)) eqn:H; [eauto|].
    exfalso. apply Hv. unfold invalidUpdate. tauto. }
  destruct Hlat as [lat Hlat]. destruct Hlon as [lon Hlon].
  set (entry := seenAt (timeOf co e body) (entryFor co e body (loadOnce s))) in *.
  exists (boatsViewArray localeCompare e2 s'),
         (viewOf (now_view e2) (latest s') boatId entry), lat, lon.
  split.
  { unfold RaceStateTs.fetch. rewrite Hmg, Hpg, loadOnce_loaded by done.
    reflexivity. }
  split.
  { apply list_elem_of_In.
    assert (Hperm : Permutation (boatsViewArray localeCompare e2 s')
                                ((map_to_list (own (boatsView e2 s'))).*2))
      by apply stable_sort_perm.
    rewrite Hperm. apply list_elem_of_fmap.
    exists (boatId, viewOf (now_view e2) (latest s') boatId entry).
    split; [done|]. apply elem_of_map_to_list.
    rewrite boatsView_own, Hkey, Hro, lookup_insert_eq. done. }
  unfold viewOf. rewrite Hla, lookup_insert_eq. simpl.
  rewrite (safeNum_ToNumber _ _ Hlat), (safeNum_ToNumber _ _ Hlon).
  done.
Qed.

(** X6. An accepted /update stamps the boat's roster entry with the time of
    the sample. Of an entry that existed it changes nothing else, whatever
    name or nation the request carries; for a boat not in the roster it
    creates the entry, named after the request's boatName or else the
    boatId, joined at the clock's reading, and the roster grows by one. The
    other entries stay as they were. *)
Theorem update_stamps_or_creates_entry e r body s s' sent :
  method r = "POST" -> path r = "/update" -> payload r = Json body ->
  fetch e r s = (Returned (Text 200 "OK"), s', sent) ->
  let boatId := ToString co (b_boatId body) in
  let s0 := loadOnce s in
  (forall old, roster s0 !! boatId = Some old ->
     roster s' !! boatId
     = Some {| r_boatId := r_boatId old; r_boatName := r_boatName old;
               r_nation := r_nation old; r_joinedAt := r_joinedAt old;
               r_lastSeen := Some (timeOf co e body) |}
     /\ size (roster s') = size (roster s0))
  /\ (roster s0 !! boatId = None ->
      roster s' !! boatId
      = Some {| r_boatId := boatId;
                r_boatName :=
                  ToString co (or_else (b_boatName body) (VString boatId));
                r_nation := optString co (b_nation body);
                r_joinedAt := now_joined e;
                r_lastSeen := Some (timeOf co e body) |}
      /\ size (roster s') = S (size (roster s0)))
  /\ (forall other, other <> boatId ->
        roster s' !! other = roster s0 !! other).
Proof.
  intros Hm Hp Hb Hf boatId s0. rewrite fetch_update, Hb in Hf by done.
  apply update_accepted in Hf as (_ & _ & _ & Hro & _).
  fold boatId s0 in Hro. rewrite Hro. unfold entryFor. fold boatId.
  split; [|split].
  - intros old Hold. rewrite lookup_insert_eq, Hold. split; [done|].
    rewrite map_size_insert, Hold. done.
  - intros Hnone. rewrite lookup_insert_eq, Hnone. split; [done|].
    rewrite map_size_insert, Hnone. done.
  - intros other Hne. rewrite lookup_insert_ne by done. done.
Qed.

(** X7. A /join with a raceId and a boatId writes the boat's roster entry
    from the request: the name is the request's boatName or else the boatId,
    the nation is the request's or none, also when the boat had joined under
    another name and nation before; the time of the boat's last report is
    kept. This holds whether or not the storage write succeeds. *)
Theorem join_rewrites_name_keeps_last_seen e r body s :
  method r = "POST" -> path r = "/join" -> payload r = Json body ->
  raceIdOf co body <> "" -> boatIdOf co body <> "" ->
  let boatId := boatIdOf co body in
  roster (fetch e r s).1.2 !! boatId
  = Some {| r_boatId := boatId;
            r_boatName :=
              ToString co (or_else (b_boatName body) (VString boatId));
            r_nation := optString co (b_nation body);
            r_joinedAt :=
              match roster (loadOnce s) !! boatId with
              | Some old => r_joinedAt old
              | None => now_joined e
              end;
            r_lastSeen :=
              match roster (loadOnce s) !! boatId with
              | Some old => r_lastSeen old
              | None => None
              end |}.
Proof.
  intros Hm Hp Hb Hr Hbo boatId. rewrite fetch_join, Hb by done.
  rewrite join_run by done. unfold persist.
  destruct (putFails e); simpl; rewrite lookup_insert_eq;
    unfold joinedEntry; fold boatId;
    destruct (roster (loadOnce s) !! boatId); done.
Qed.

(** X8. /ws/live, under any method: without the Upgrade header the answer is
    426 and nothing changes; with it the new socket is registered, once,
    behind the sockets already there, and is sent the full view of the
    channel as it stands; the roster, the telemetry and the storage are not
    touched. *)
Theorem subscribe_sends_current_view e r s :
  path r = "/ws/live" ->
  let s0 := loadOnce s in
  (upgradeWebSocket r = false ->
   fetch e r s = (Returned (Text 426 "Expected WebSocket"), s0, []))
  /\ (upgradeWebSocket r = true -> sendFails e (newSocket e) = false ->
      exists s',
        fetch e r s
        = (Returned (Switching (newSocket e)), s',
           [(newSocket e, Full (now_event e) (boatsView e s0))])
        /\ roster s' = roster s0 /\ latest s' = latest s0
        /\ storage s' = storage s0
        /\ sockets s' = (if bool_decide (newSocket e ∈ sockets s0)
                         then sockets s0 else sockets s0 ++ [newSocket e])).
Proof.
  intros Hp s0. unfold RaceStateTs.fetch. rewrite Hp. simpl.
  unfold wsLive. fold s0. split.
  - intros ->. done.
  - intros -> ->. simpl. eexists. split; [reflexivity|]. done.
Qed.

(** X9. Apart from the 200 of /join and /update and the 101 of /ws/live,
    whatever [fetch] answers leaves the object as the lazy load left it and
    sends nothing: the 400, 404 and 426 answers, and the list of GET /boats. *)
Theorem other_answers_change_nothing e r s resp s' sent :
  fetch e r s = (Returned resp, s', sent) ->
  match resp with
  | Text status _ => status <> 200%Z
  | BoatsList _ _ => True
  | JoinAck _ _ | Switching _ => False
  end ->
  s' = loadOnce s /\ sent = [].
Proof.
  unfold RaceStateTs.fetch.
  destruct (String.eqb (path r) "/ws/live").
  { unfold wsLive. destruct (negb _).
    - intros [= <- <- <-]. done.
    - destruct (sendFails e _); [discriminate|].
      intros [= <- <- <-]. done. }
  destruct (_ && _); [intros [= <- <- <-]; done|].
  destruct (_ && _).
  { unfold RaceStateTs.join. destruct (payload r) as [|body].
    { intros [= <- <- <-]. done. }
    destruct (emptyStr _); [intros [= <- <- <-]; done|].
    destruct (emptyStr _); [intros [= <- <- <-]; done|].
    cbv zeta. destruct (persist _ _); [|discriminate].
    destruct (broadcast _ _ _). intros [= <- <- <-]. done. }
  destruct (_ && _); [|intros [= <- <- <-]; done].
  unfold RaceStateTs.update. destruct (payload r) as [|body].
  { intros [= <- <- <-]. done. }
  destruct (emptyStr _); [intros [= <- <- <-]; done|].
  destruct (mustHaveTelemetryFields co body);
    [|intros [= <- <- <-]; done].
  cbv zeta. destruct (roster _ !! _); [|discriminate].
  destruct (persist _ _); [|discriminate].
  destruct (broadcast _ _ _). intros [= <- <- <-]. done.
Qed.

(** ** What holds of every state a channel reaches *)

(** The two maps agree: a sample is cached under its own boat id with a
    finite latitude and longitude, a roster entry is kept under its own id,
    which is not empty, and its [lastSeen] is the time of the cached sample
    of the boat. *)
Definition consistent (ro : gmap string BoatRosterEntry)
           (la : gmap string Telemetry) : Prop :=
  (forall k tel, la !! k = Some tel ->
     t_boatId tel = k /\ isFinite (t_lat tel) = true
     /\ isFinite (t_lon tel) = true /\ is_Some (ro !! k))
  /\ (forall k en, ro !! k = Some en ->
        r_boatId en = k /\ k <> "" /\ r_lastSeen en = t_t <$> la !! k).

Definition storedConsistent (s : State) : Prop :=
  match storage s with
  | None => True
  | Some sv =>
      exists lr ll, saved_roster sv = Some lr /\ saved_latest sv = Some ll
                    /\ consistent (mapOfEntries lr) (mapOfEntries ll)
  end.

Definition sound (s : State) : Prop :=
  consistent (roster s) (latest s) /\ storedConsistent s.

Lemma consistent_empty : consistent ∅ ∅.
Proof. split; intros k x; rewrite lookup_empty; discriminate. Qed.

Lemma loadOnce_sound s : sound s -> sound (loadOnce s).
Proof.
  intros [Hc Hs]. unfold loadOnce. destruct (loaded s); [done|].
  unfold sound, storedConsistent in *. simpl.
  destruct (storage s) as [sv|]; [|done].
  destruct Hs as (lr & ll & -> & -> & Hk). split; [done|]. eauto.
Qed.

Lemma persist_sound e s s' :
  consistent (roster s) (latest s) -> persist e s = Some s' -> sound s'.
Proof.
  intros Hc Hp. apply persist_stores in Hp as (Hro & Hla & _ & _ & _ & Hst).
  split; [by rewrite Hro, Hla|].
  unfold storedConsistent. rewrite Hst. do 2 eexists.
  split; [done|]. split; [done|].
  rewrite !mapOfEntries_map_to_list. done.
Qed.

Lemma memAfterUpdate_consistent e body s :
  ~ invalidUpdate co body ->
  consistent (roster s) (latest s) ->
  consistent (roster (memAfterUpdate e body s))
             (latest (memAfterUpdate e body s)).
Proof.
  intros Hv [Hla Hro]. simpl.
  set (boatId := ToString co (b_boatId body)).
  assert (Hb : boatIdOf co body <> "").
  { intros H. apply Hv. unfold invalidUpdate. tauto. }
  assert (Hid : boatId = boatIdOf co body) by (by apply boatId_checked).
  assert (Hlat : exists lat, safeNum (b_lat body) = Some lat).
  { destruct (safeNum (b_lat body)) eqn:H; [eauto|].
    exfalso. apply Hv. unfold invalidUpdate. tauto. }
  assert (Hlon : exists lon, safeNum (b_lon body) = Some lon).
  { destruct (safeNum (b_lon body)) eqn:H; [eauto|].
    exfalso. apply Hv. unfold invalidUpdate. tauto. }
  destruct Hlat as [lat Hlat]. destruct Hlon as [lon Hlon].
  split.
  - intros k tel. destruct (decide (boatId = k)) as [<-|Hne].
    + rewrite !lookup_insert_eq. intros [= <-]. simpl.
      rewrite (safeNum_ToNumber _ _ Hlat), (safeNum_ToNumber _ _ Hlon).
      eauto.
    + rewrite !lookup_insert_ne by done. apply Hla.
  - intros k en. destruct (decide (boatId = k)) as [<-|Hne].
    + rewrite !lookup_insert_eq. intros [= <-]. simpl.
      split; [|split; [congruence|done]].
      unfold entryFor. fold boatId.
      destruct (roster s !! boatId) as [old|] eqn:Hold; [|done].
      apply Hro in Hold. tauto.
    + rewrite !lookup_insert_ne by done. apply Hro.
Qed.

Lemma memAfterJoin_consistent e body s :
  boatIdOf co body <> "" ->
  consistent (roster s) (latest s) ->
  consistent (roster (memAfterJoin e body s))
             (latest (memAfterJoin e body s)).
Proof.
  intros Hb [Hla Hro]. simpl. split.
  - intros k tel Htel. destruct (Hla k tel Htel) as (? & ? & ? & Hin).
    split; [done|]. split; [done|]. split; [done|].
    destruct (decide (boatIdOf co body = k)) as [<-|Hne].
    + rewrite lookup_insert_eq. eauto.
    + rewrite lookup_insert_ne by done. done.
  - intros k en. destruct (decide (boatIdOf co body = k)) as [<-|Hne].
    + rewrite lookup_insert_eq. intros [= <-]. simpl.
      split; [done|]. split; [done|].
      destruct (roster s !! boatIdOf co body) as [old|] eqn:Hold; simpl.
      * apply Hro in Hold. tauto.
      * destruct (latest s !! boatIdOf co body) as [tel|] eqn:Htel; [|done].
        apply Hla in Htel as (_ & _ & _ & [? ?]). congruence.
    + rewrite lookup_insert_ne by done. apply Hro.
Qed.

Lemma sound_fields s s' :
  roster s' = roster s -> latest s' = latest s -> storage s' = storage s ->
  sound s -> sound s'.
Proof.
  unfold sound, storedConsistent. intros -> -> ->. done.
Qed.

Lemma fetch_sound e r s : sound s -> sound (fetch e r s).1.2.
Proof.
  intros Hs. apply loadOnce_sound in Hs.
  unfold RaceStateTs.fetch.
  destruct (String.eqb (path r) "/ws/live").
  { unfold wsLive. destruct (negb _); [done|].
    destruct (sendFails e _); done. }
  destruct (_ && _); [done|].
  destruct (_ && _).
  { destruct (payload r) as [|body]; [done|].
    destruct (String.string_dec (raceIdOf co body) "") as [Hr|Hr].
    { unfold RaceStateTs.join. fold (raceIdOf co body). rewrite Hr. done. }
    destruct (String.string_dec (boatIdOf co body) "") as [Hb|Hb].
    { unfold RaceStateTs.join. fold (raceIdOf co body).
      fold (boatIdOf co body).
      apply emptyStr_false in Hr. rewrite Hr, Hb. done. }
    rewrite join_run by done.
    pose proof (memAfterJoin_consistent e body _ Hb (proj1 Hs)) as Hc.
    destruct (persist e _) as [s3|] eqn:Hper.
    - apply persist_sound in Hper; [|done]. done.
    - split; [done|]. exact (proj2 Hs). }
  destruct (_ && _); [|done].
  destruct (payload r) as [|body]; [done|].
  destruct (invalidUpdate_dec co body) as [Hi|Hv].
  { destruct (update_invalid co e body (loadOnce s) Hi) as [msg ->]. done. }
  rewrite update_run by done.
  pose proof (memAfterUpdate_consistent e body _ Hv (proj1 Hs)) as Hc.
  destruct (persist e _) as [s5|] eqn:Hper.
  - apply persist_sound in Hper; [|done]. done.
  - split; [done|]. exact (proj2 Hs).
Qed.

Lemma reachable_sound s : reachable co localeCompare s -> sound s.
Proof.
  induction 1 as [|e r s _ IH|ws s _ IH|s _ IH].
  - split; [apply consistent_empty|done].
  - by apply fetch_sound.
  - done.
  - split; [apply consistent_empty|exact (proj2 IH)].
Qed.

(** X10. In every state a channel reaches, through any requests, socket
    closings and evictions, each cached sample is kept under the boat id it
    carries, has a finite latitude and longitude, and belongs to a roster
    entry kept under that same id, which is not empty. *)
Theorem cached_samples_are_valid s boatId tel :
  reachable co localeCompare s ->
  latest s !! boatId = Some tel ->
  t_boatId tel = boatId /\ boatId <> ""
  /\ (exists lat lon, t_lat tel = Fin lat /\ t_lon tel = Fin lon)
  /\ (exists entry, roster s !! boatId = Some entry
                    /\ r_boatId entry = boatId
                    /\ r_lastSeen entry = Some (t_t tel)).
Proof.
  intros Hs Htel. apply reachable_sound in Hs as [[Hla Hro] _].
  destruct (Hla _ _ Htel) as (Hid & Hlat & Hlon & [entry Hen]).
  destruct (Hro _ _ Hen) as (Hrid & Hne & Hls).
  split; [done|]. split; [done|]. split.
  - destruct (t_lat tel), (t_lon tel); try discriminate. eauto.
  - exists entry. rewrite Hls, Htel. done.
Qed.

(** X11. In the view of every state a channel reaches, a boat's [lastSeen]
    and [timestamp] are the same value, taken from the cached sample; a boat
    has a position exactly when it has them, the position is finite, and a
    boat marked live has a position. *)
Theorem view_fields_agree e s boatId v :
  reachable co localeCompare s ->
  boatsView e s !! boatId = Some v ->
  v_boatId v = boatId
  /\ v_lastSeen v = v_timestamp v
  /\ (v_lat v = None <-> v_timestamp v = None)
  /\ (v_lng v = None <-> v_timestamp v = None)
  /\ (forall n, v_lat v = Some n \/ v_lng v = Some n -> isFinite n = true)
  /\ (v_live v = true -> is_Some (v_lat v) /\ is_Some (v_lng v)).
Proof.
  intros Hs Hv. apply reachable_sound in Hs as [[Hla Hro] _].
  rewrite boatsView_lookup in Hv.
  destruct (roster s !! boatId) as [entry|] eqn:Hen; [|discriminate].
  injection Hv as <-. destruct (Hro _ _ Hen) as (_ & _ & Hls).
  unfold viewOf. simpl. rewrite Hls.
  destruct (latest s !! boatId) as [tel|] eqn:Htel; simpl.
  - destruct (Hla _ _ Htel) as (_ & Hlat & Hlon & _).
    split; [done|]. split; [done|]. split; [done|]. split; [done|].
    split; [|eauto]. intros n [[= <-]|[= <-]]; done.
  - split; [done|]. split; [done|]. split; [done|]. split; [done|].
    split; [|discriminate]. intros n [?|?]; discriminate.
Qed.

Lemma update_invalid_env e e' body s :
  invalidUpdate co body -> update e (Json body) s = update e' (Json body) s.
Proof.
  intros Hi. unfold RaceStateTs.update. fold (raceIdOf co body).
  destruct (emptyStr (raceIdOf co body)) eqn:Hr; [done|].
  apply emptyStr_false in Hr.
  destruct (mustHaveTelemetryFields co body) as [|msg] eqn:Hc; [|done].
  apply mustHave_ok in Hc as (Hb & [? Hlat] & [? Hlon]).
  destruct Hi as [?|[?|[?|?]]]; congruence.
Qed.

(** The same environment with another outcome of the HISTORY calls. *)
Definition withKv (fails : bool) (e : Env) : Env :=
  {| now_t := now_t e; now_joined := now_joined e; now_view := now_view e;
     now_event := now_event e; putFails := putFails e; kvFails := fails;
     sendFails := sendFails e; newSocket := newSocket e |}.

(** X12. Whether the HISTORY namespace works or throws makes no difference
    to a request: the answer, the events sent, the roster, the telemetry,
    the sockets and what is stored are the same either way. *)
Theorem kv_failure_is_ignored fails e r s :
  let '(out, s', sent) := fetch e r s in
  let '(out2, s2, sent2) := fetch (withKv fails e) r s in
  out2 = out /\ sent2 = sent /\ roster s2 = roster s'
  /\ latest s2 = latest s' /\ sockets s2 = sockets s'
  /\ storage s2 = storage s' /\ loaded s2 = loaded s'.
Proof.
  unfold RaceStateTs.fetch.
  destruct (String.eqb (path r) "/ws/live").
  { unfold wsLive. destruct (negb _); [done|]. simpl.
    destruct (sendFails e _); done. }
  destruct (_ && _); [done|].
  destruct (_ && _).
  { destruct (payload r) as [|body]; [done|].
    destruct (String.string_dec (raceIdOf co body) "") as [Hr|Hr].
    { unfold RaceStateTs.join. fold (raceIdOf co body). rewrite Hr. done. }
    destruct (String.string_dec (boatIdOf co body) "") as [Hb|Hb].
    { unfold RaceStateTs.join. fold (raceIdOf co body).
      fold (boatIdOf co body).
      apply emptyStr_false in Hr. rewrite Hr, Hb. done. }
    rewrite !join_run by done. unfold persist. simpl.
    destruct (putFails e); simpl; done. }
  destruct (_ && _); [|done].
  destruct (payload r) as [|body]; [done|].
  destruct (invalidUpdate_dec co body) as [Hi|Hv].
  { rewrite (update_invalid_env (withKv fails e) e) by done.
    destruct (update e (Json body) (loadOnce s)) as [[? ?] ?]. done. }
  rewrite !update_run by done. unfold persist. simpl.
  destruct (putFails e); simpl; done.
Qed.

End ChannelBehaviour.

(* ===================================================================== *)
(** * The interpolating replay: its request, its frames, its entries      *)
(* ===================================================================== *)

Section SmoothedFrames.
Import TrackLog IndexSmoothed.

Lemma Qfloor_pred (x : Q) : Qfloor (x - 1) = (Qfloor x - 1)%Z.
Proof.
  pose proof (Qfloor_le x) as H1. pose proof (Qlt_floor x) as H2.
  pose proof (Qfloor_le (x - 1)) as H3. pose proof (Qlt_floor (x - 1)) as H4.
  rewrite inject_Z_plus in H2, H4. change (inject_Z 1) with 1 in H2, H4.
  assert (Ha : (Qfloor (x - 1) < Qfloor x)%Z).
  { rewrite Zlt_Qlt.
    generalize dependent (inject_Z (Qfloor (x - 1))).
    generalize dependent (inject_Z (Qfloor x)). intros. lra. }
  assert (Hb : (Qfloor x - 1 < Qfloor (x - 1) + 1)%Z).
  { rewrite Zlt_Qlt. unfold Z.sub. rewrite !inject_Z_plus, inject_Z_opp.
    change (inject_Z 1) with 1.
    generalize dependent (inject_Z (Qfloor (x - 1))).
    generalize dependent (inject_Z (Qfloor x)). intros. lra. }
  lia.
Qed.

Lemma remaining_succ (to step t : Q) :
  0 < step -> t <= to ->
  remaining to step t = S (remaining to step (t + step)).
Proof.
  intros Hstep Hle. unfold remaining.
  set (x := (to - t) / step).
  assert (Hx : 0 <= x).
  { apply Qle_shift_div_l; [done|]. lra. }
  assert (Heq : (to - (t + step)) / step == x - 1).
  { unfold x. field. lra. }
  rewrite Heq, Qfloor_pred.
  assert (H0 : (0 <= Qfloor x)%Z).
  { rewrite <- (Qfloor_Z 0). by apply Qfloor_resp_le. }
  lia.
Qed.

Lemma remaining_zero (to step t : Q) :
  0 < step -> to < t -> remaining to step t = 0%nat.
Proof.
  intros Hstep Hlt. unfold remaining.
  assert (Hx : (to - t) / step < 0).
  { apply Qlt_shift_div_r; [done|]. lra. }
  pose proof (Qfloor_le ((to - t) / step)) as Hf.
  assert (H : (Qfloor ((to - t) / step) < 0)%Z).
  { rewrite Zlt_Qlt. change (inject_Z 0) with 0.
    eapply Qle_lt_trans; [exact Hf|exact Hx]. }
  lia.
Qed.

(** [e] is what the frame loop pushes for a group at [t]: the result of
    [sample] at a cursor that has been advanced as far as the loop does. *)
Definition sampled (t : Q) (group : string * list TrackPoint) (e : LiveBoat)
  : Prop :=
  exists i, cursorOk group.2 t i
    /\ (forall p, group.2 !! (i + 1)%nat = Some p -> t <= tp_t p)
    /\ sample group.1 group.2 t i = Some e.

Definition nonEmptyGroups (entries : OMap.t (list TrackPoint)) : Prop :=
  forall b pts, In (b, pts) entries -> pts <> [].

Lemma frameBoats_exact t entries :
  NoDup (OMap.keys entries) -> nonEmptyGroups entries ->
  forall idx boats, cursorsOk entries t idx ->
  exists idx' news,
    frameBoats t entries idx boats = Some (idx', boats ++ news)
    /\ cursorsOk entries t idx'
    /\ (forall k, ~ In k (OMap.keys entries) -> idx' !! k = idx !! k)
    /\ Forall2 (sampled t) entries news.
Proof.
  induction entries as [|[b pts] rest IH]; intros Hnd Hne idx boats Hok.
  - exists idx, []. simpl. rewrite app_nil_r. repeat split; try done.
  - simpl in Hnd. apply NoDup_cons in Hnd as [Hb Hnd].
    rewrite list_elem_of_In in Hb.
    assert (Hne' : nonEmptyGroups rest).
    { intros b' pts' Hin. apply (Hne b' pts'). by right. }
    assert (Hother : forall b' pts', In (b', pts') rest -> b' <> b).
    { intros b' pts' Hin ->. apply Hb. apply (in_map fst) in Hin. done. }
    assert (Hpts : pts <> []) by (apply (Hne b); by left).
    simpl. destruct (Nat.eqb (length pts) 0) eqn:Hlen.
    { apply Nat.eqb_eq in Hlen. apply nil_length_inv in Hlen. done. }
    set (i := advance (length pts) pts t (nullish (idx !! b) 0%nat)).
    destruct (advance_spec pts t (length pts) (nullish (idx !! b) 0%nat))
      as [Hi Hafter]; [lia|apply Hok; [by left|done]|].
    fold i in Hi, Hafter.
    destruct (sample_defined b pts t i Hi Hafter) as [b0 Hs].
    rewrite Hs.
    destruct (IH Hnd Hne' (<[b := i]> idx) (boats ++ [b0]))
      as (idx' & news & Hf & Hc & Hk & Hall).
    { intros b' pts' Hin Hp'. rewrite lookup_insert_ne.
      - apply Hok; [by right|done].
      - intros ->. by eapply Hother. }
    exists idx', (b0 :: news). split; [|split; [|split]].
    + rewrite Hf. rewrite <- app_assoc. done.
    + intros b' pts' [[= <- <-]|Hin] Hp'; [|by apply Hc].
      rewrite Hk by done. rewrite lookup_insert_eq. done.
    + intros k Hk'. rewrite Hk.
      * apply lookup_insert_ne. intros ->. apply Hk'. by left.
      * intros ?. apply Hk'. by right.
    + constructor; [|done]. exists i. done.
Qed.

Lemma frameLoop_exact to stepMs byBoat :
  0 < inject_Z stepMs -> NoDup (OMap.keys byBoat) -> nonEmptyGroups byBoat ->
  forall fuel t idx frames,
    (remaining to (inject_Z stepMs) t < fuel)%nat ->
    cursorsOk byBoat t idx ->
    exists news,
      frameLoop fuel to stepMs byBoat t idx frames = Done (frames ++ news)
      /\ length news = remaining to (inject_Z stepMs) t
      /\ forall k f, news !! k = Some f ->
           f_t f == t + inject_Z (Z.of_nat k) * inject_Z stepMs
           /\ Forall2 (sampled (f_t f)) byBoat (f_boats f).
Proof.
  intros Hstep Hnd Hne. induction fuel as [|fuel IH];
    intros t idx frames Hfuel Hok; [lia|].
  simpl. destruct (Qle_bool t to) eqn:Hle.
  - apply Qle_bool_iff in Hle.
    destruct (frameBoats_exact t byBoat Hnd Hne idx [] Hok)
      as (idx' & boats' & Hf & Hc & _ & Hall).
    rewrite Hf. simpl.
    pose proof (remaining_succ to (inject_Z stepMs) t Hstep Hle) as Hrem.
    destruct (IH (t + inject_Z stepMs) idx'
                 (frames ++ [{| f_t := t; f_boats := boats' |}]))
      as (news & Hout & Hlen & Hin); [lia| |].
    { eapply cursorsOk_later; [|done]. lra. }
    exists ({| f_t := t; f_boats := boats' |} :: news).
    split; [|split].
    + rewrite Hout, <- app_assoc. done.
    + simpl. lia.
    + intros [|k] f Hk; simpl in Hk.
      * injection Hk as <-. simpl. split; [|done].
        change (inject_Z 0) with 0. ring.
      * destruct (Hin k f Hk) as [Ht Hb]. split; [|done].
        rewrite Ht, Nat2Z.inj_succ. unfold Z.succ.
        rewrite inject_Z_plus. change (inject_Z 1) with 1. ring.
  - apply Qle_bool_false in Hle.
    exists []. rewrite app_nil_r. split; [done|].
    split; [by rewrite remaining_zero|]. intros k f Hk. done.
Qed.

Lemma groupByBoat_nonEmpty rows : nonEmptyGroups (groupByBoat rows).
Proof. intros b pts [Hne _]%groupByBoat_In. done. Qed.

(** The frames of a replay, one by one. *)
Lemma replayFrames_exact rows from to stepMs :
  (0 < stepMs)%Z ->
  exists frames,
    replayFrames rows from to stepMs = Done frames
    /\ length frames = remaining to (inject_Z stepMs) from
    /\ forall k f, frames !! k = Some f ->
         f_t f == from + inject_Z (Z.of_nat k) * inject_Z stepMs
         /\ Forall2 (sampled (f_t f)) (groupByBoat rows) (f_boats f).
Proof.
  intros Hstep. unfold replayFrames.
  assert (Hs : 0 < inject_Z stepMs).
  { change 0 with (inject_Z 0). by rewrite <- Zlt_Qlt. }
  destruct (frameLoop_exact to stepMs (groupByBoat rows) Hs
              (groupByBoat_nodup rows) (groupByBoat_nonEmpty rows)
              (loopFuel from to (inject_Z stepMs)) from
              (initialIdx (groupByBoat rows)) [])
    as (news & Hout & Hlen & Hin).
  - rewrite loopFuel_remaining. lia.
  - intros b pts Hin Hpts. unfold initialIdx. rewrite idx_initial by done.
    split; [|by left]. destruct pts; [done|simpl; lia].
  - exists news. done.
Qed.

Section Handler.
Variable co : Coercions.

(** What a 200 of /replay tells about the request and the run. *)
Lemma replay_inv dbFails q table raceId from to hz stepMs frames :
  replay co dbFails q table = Done (Replay raceId from to hz stepMs frames) ->
  truthy (param (q_raceId q)) = true
  /\ raceId = ToString co (param (q_raceId q))
  /\ ToNumber co (param (q_from q)) = Fin from
  /\ ToNumber co (param (q_to q)) = Fin to
  /\ from < to /\ to - from <= maxWindowMs
  /\ hz = hzOf (ToNumber co (or_else (param (q_hz q)) (VString "4")))
  /\ stepMs = stepMsOf hz
  /\ dbFails = false
  /\ replayFrames (select byBoatThenTime raceId from to table) from to stepMs
     = Done frames.
Proof.
  unfold replay.
  destruct (truthy (param (q_raceId q))); [|discriminate]. simpl.
  destruct (ToNumber co (param (q_from q))) as [f| | |]; try discriminate.
  destruct (ToNumber co (param (q_to q))) as [t| | |]; try discriminate.
  destruct (Qle_bool t f) eqn:H1; [discriminate|].
  destruct (Qlt_bool maxWindowMs (t - f)) eqn:H2; [discriminate|].
  destruct dbFails; [discriminate|].
  destruct (replayFrames _ _ _ _) as [fr| |] eqn:Hrun; try discriminate.
  intros [= <- <- <- <- <- <-].
  apply Qle_bool_false in H1.
  unfold Qlt_bool in H2. rewrite negb_false_iff in H2.
  apply Qle_bool_iff in H2. done.
Qed.

Lemma stepMs_positive dbFails q table raceId from to hz stepMs frames :
  replay co dbFails q table = Done (Replay raceId from to hz stepMs frames) ->
  (100 <= stepMs <= 1000)%Z /\ 1 <= hz <= 10.
Proof.
  intros (_ & _ & _ & _ & _ & _ & -> & -> & _)%replay_inv.
  pose proof (smoothed_step_bounds
                (ToNumber co (or_else (param (q_hz q)) (VString "4")))) as H.
  cbv zeta in H. tauto.
Qed.

Lemma exactMs_spec q :
  exactMs q = true
  <-> q == inject_Z (Qfloor q) /\ (Z.abs (Qfloor q) <= 2 ^ 52)%Z.
Proof.
  unfold exactMs. by rewrite andb_true_iff, Qeq_bool_iff, Z.leb_le.
Qed.

(** A whole number between two whole numbers of milliseconds is one. *)
Lemma exactMs_between a b q z :
  exactMs a = true -> exactMs b = true ->
  a <= q -> q <= b -> q == inject_Z z -> exactMs q = true.
Proof.
  intros [Ha Ha']%exactMs_spec [Hb Hb']%exactMs_spec Haq Hqb Hq.
  assert (Hz : Qfloor q = z) by (by rewrite Hq, Qfloor_Z).
  apply exactMs_spec. rewrite Hz. split; [done|].
  assert (H1 : (Qfloor a <= z)%Z) by (rewrite Zle_Qle, <- Ha, <- Hq; done).
  assert (H2 : (z <= Qfloor b)%Z) by (rewrite Zle_Qle, <- Hb, <- Hq; done).
  lia.
Qed.

(** X13. The frames of a replay over a window given in whole milliseconds
    are evenly spaced from [from]: frame [k] is at [from + k * stepMs],
    itself a whole number of milliseconds, there are floor((to - from) /
    stepMs) + 1 of them, none after [to], and the last one lies less than
    one step before [to]. *)
Theorem replay_frames_are_evenly_spaced
        dbFails q table raceId from to hz stepMs frames :
  replay co dbFails q table = Done (Replay raceId from to hz stepMs frames) ->
  exactMs from = true -> exactMs to = true ->
  length frames = Z.to_nat (Qfloor ((to - from) / inject_Z stepMs) + 1)
  /\ (0 < length frames)%nat
  /\ (forall k f, frames !! k = Some f ->
        f_t f == from + inject_Z (Z.of_nat k) * inject_Z stepMs
        /\ from <= f_t f /\ f_t f <= to /\ exactMs (f_t f) = true)
  /\ (forall f, last frames = Some f -> to - inject_Z stepMs < f_t f).
Proof.
  intros Hrun Hef Het.
  pose proof (stepMs_positive _ _ _ _ _ _ _ _ _ Hrun) as [Hst _].
  apply replay_inv in Hrun as (_ & _ & _ & _ & Hlt & _ & _ & _ & _ & Hrun).
  destruct (replayFrames_exact (select byBoatThenTime raceId from to table)
              from to stepMs) as (frames' & Hrun' & Hlen & Hk); [lia|].
  rewrite Hrun in Hrun'. injection Hrun' as <-.
  unfold remaining in Hlen.
  assert (Hs : 0 < inject_Z stepMs).
  { change 0 with (inject_Z 0). rewrite <- Zlt_Qlt. lia. }
  set (x := (to - from) / inject_Z stepMs) in *.
  assert (Hx : 0 <= x).
  { apply Qle_shift_div_l; [done|]. lra. }
  assert (H0 : (0 <= Qfloor x)%Z).
  { rewrite <- (Qfloor_Z 0). by apply Qfloor_resp_le. }
  assert (Hxs : x * inject_Z stepMs == to - from).
  { unfold x. field. lra. }
  split; [done|]. split; [lia|]. split.
  - intros k f Hf. destruct (Hk k f Hf) as [Ht _]. split; [done|].
    apply lookup_lt_Some in Hf.
    assert (Hkz : (Z.of_nat k <= Qfloor x)%Z) by lia.
    assert (Hkq : inject_Z (Z.of_nat k) <= x).
    { eapply Qle_trans; [|apply Qfloor_le]. by rewrite <- Zle_Qle. }
    assert (Hk0 : 0 <= inject_Z (Z.of_nat k)).
    { change 0 with (inject_Z 0). rewrite <- Zle_Qle. lia. }
    assert (Hlo : from <= f_t f) by (rewrite Ht; nra).
    assert (Hhi : f_t f <= to) by (rewrite Ht; nra).
    split; [done|]. split; [done|].
    apply (exactMs_between from to _ (Qfloor from + Z.of_nat k * stepMs));
      try done.
    rewrite Ht, inject_Z_plus, inject_Z_mult.
    apply exactMs_spec in Hef as [Hef _]. by rewrite <- Hef.
  - intros f Hlast. rewrite last_lookup in Hlast.
    destruct (Hk _ f Hlast) as [Ht _]. rewrite Ht.
    assert (Hkz : Z.of_nat (Init.Nat.pred (length frames)) = Qfloor x) by lia.
    rewrite Hkz. pose proof (Qlt_floor x) as Hfl.
    rewrite inject_Z_plus in Hfl. change (inject_Z 1) with 1 in Hfl. nra.
Qed.

Lemma sampled_id rows t group e :
  In group (groupByBoat rows) -> sampled t group e -> lb_boatId e = group.1.
Proof.
  destruct group as [b pts]. intros Hin (i & _ & _ & Hs). simpl in *.
  eapply sample_entryOk in Hs as [Hid _]; [done|].
  apply (groupByBoat_own rows b pts). done.
Qed.

Lemma Forall2_sampled_ids rows t entries boats :
  (forall g, In g entries -> In g (groupByBoat rows)) ->
  Forall2 (sampled t) entries boats ->
  List.map lb_boatId boats = OMap.keys entries.
Proof.
  intros Hsub Hall. induction Hall as [|g e entries boats Hs Hall IH]; [done|].
  simpl. f_equal.
  - eapply sampled_id; [|done]. apply Hsub. by left.
  - apply IH. intros g' Hg'. apply Hsub. by right.
Qed.

(** The ids of the groups are those of the rows, each once, in the order
    in which the rows first show them. *)
Lemma groupByBoat_keys_In rows b :
  In b (OMap.keys (groupByBoat rows)) <-> exists r, In r rows /\ row_boatId r = b.
Proof.
  rewrite <- omap_get_keys, groupByBoat_get. unfold ptsOf. split.
  - destruct (List.filter _ rows) as [|r l] eqn:Hf; simpl.
    { intros [? ?]. done. }
    intros _. exists r.
    assert (Hin : In r (List.filter (fun r => String.eqb (row_boatId r) b) rows))
      by (rewrite Hf; by left).
    apply List.filter_In in Hin as [? ?%String.eqb_eq]. done.
  - intros (r & Hr & Hb).
    assert (Hin : In r (List.filter (fun r => String.eqb (row_boatId r) b) rows)).
    { apply List.filter_In. split; [done|]. by apply String.eqb_eq. }
    destruct (List.filter _ rows); [done|]. simpl. eauto.
Qed.

Lemma groupStep_keys m r :
  OMap.keys (groupStep m r)
  = if OMap.has (row_boatId r) m then OMap.keys m
    else OMap.keys m ++ [row_boatId r].
Proof.
  unfold groupStep. simpl tp_boatId. rewrite omap_keys_set.
  destruct (OMap.has (row_boatId r) m) eqn:Hh; [by rewrite Hh|].
  rewrite omap_keys_set, Hh. unfold OMap.has.
  by rewrite omap_get_set_same.
Qed.

Lemma groupByBoat_snoc rows r :
  groupByBoat (rows ++ [r]) = groupStep (groupByBoat rows) r.
Proof. unfold groupByBoat. by rewrite fold_left_app. Qed.

(** Over rows ordered by boat id, the groups come in ascending order of
    their ids. *)
Lemma groupByBoat_keys_sorted rows :
  StronglySorted (fun x y => byBoatThenTime x y = true) rows ->
  StronglySorted (fun a b => String.compare a b = Lt)
                 (OMap.keys (groupByBoat rows)).
Proof.
  induction rows as [|r rows IH] using rev_ind; intros Hs.
  { constructor. }
  assert (Hrows : StronglySorted (fun x y => byBoatThenTime x y = true) rows
                  /\ forall x, In x rows -> byBoatThenTime x r = true).
  { clear IH. induction rows as [|a rows IH]; simpl in *.
    - split; [constructor|]. intros x [].
    - apply StronglySorted_inv in Hs as [Hs Ha].
      destruct (IH Hs) as [Hs' Hall]. split.
      + constructor; [done|]. apply List.Forall_forall. intros y Hy.
        eapply List.Forall_forall in Ha; [exact Ha|].
        apply in_or_app. by left.
      + intros x [<-|Hx]; [|by apply Hall].
        eapply List.Forall_forall in Ha; [exact Ha|].
        apply in_or_app. right. by left. }
  destruct Hrows as [Hs' Hall]. specialize (IH Hs').
  rewrite groupByBoat_snoc, groupStep_keys.
  destruct (OMap.has (row_boatId r) (groupByBoat rows)) eqn:Hh; [done|].
  assert (Hlt : forall k, In k (OMap.keys (groupByBoat rows)) ->
                          String.compare k (row_boatId r) = Lt).
  { intros k Hk. pose proof Hk as Hk'.
    apply groupByBoat_keys_In in Hk as (x & Hx & <-).
    specialize (Hall x Hx). unfold byBoatThenTime in Hall.
    destruct (String.compare (row_boatId x) (row_boatId r)) eqn:Hc;
      [|done|done].
    apply String.compare_eq_iff in Hc. rewrite Hc in Hk'.
    apply omap_get_keys in Hk' as [? Hg]. unfold OMap.has in Hh.
    rewrite Hg in Hh. done. }
  clear Hh Hall Hs Hs'.
  induction IH as [|a l Hl IHl Ha]; simpl.
  - constructor; [constructor|constructor].
  - constructor.
    + apply IHl. intros k Hk. apply Hlt. by right.
    + apply List.Forall_forall. intros y [Hy| [<-|[]]]%in_app_or.
      * eapply List.Forall_forall in Ha; done.
      * apply Hlt. by left.
Qed.

(** X14. Every frame of a replay lists the same boats in the same order:
    the boats with a row of the race inside the window, each once, in
    ascending order of their ids. *)
Theorem replay_frame_lists_every_boat_once
        dbFails q table raceId from to hz stepMs frames f :
  replay co dbFails q table = Done (Replay raceId from to hz stepMs frames) ->
  In f frames ->
  let ids := List.map lb_boatId (f_boats f) in
  (forall b, In b ids <->
     exists r, In r table /\ row_raceId r = raceId /\ row_boatId r = b
               /\ from <= row_t r /\ row_t r <= to)
  /\ NoDup ids
  /\ StronglySorted (fun a b => String.compare a b = Lt) ids
  /\ (forall f', In f' frames -> List.map lb_boatId (f_boats f') = ids).
Proof.
  intros Hrun Hf ids.
  pose proof (stepMs_positive _ _ _ _ _ _ _ _ _ Hrun) as [Hst _].
  apply replay_inv in Hrun as (_ & _ & _ & _ & Hlt & _ & _ & _ & _ & Hrun).
  set (rows := select byBoatThenTime raceId from to table) in *.
  destruct (replayFrames_exact rows from to stepMs)
    as (frames' & Hrun' & Hlen & Hk); [lia|].
  rewrite Hrun in Hrun'. injection Hrun' as <-.
  assert (Hids : forall f', In f' frames ->
            List.map lb_boatId (f_boats f') = OMap.keys (groupByBoat rows)).
  { intros f' Hf'. apply list_elem_of_In, list_elem_of_lookup in Hf' as [k Hf'].
    destruct (Hk k f' Hf') as [_ Hall].
    eapply Forall2_sampled_ids; [|done]. done. }
  unfold ids. rewrite (Hids f Hf). split; [|split; [|split]].
  - intros b. rewrite groupByBoat_keys_In. split.
    + intros (r & Hr & Hb). apply select_In in Hr. exists r. tauto.
    + intros (r & Hr & Hrace & Hb & H1 & H2). exists r. split; [|done].
      apply select_In. done.
  - apply groupByBoat_nodup.
  - apply groupByBoat_keys_sorted. unfold rows, select.
    apply stable_sort_sorted;
      [apply byBoatThenTime_total|apply byBoatThenTime_trans].
  - intros f' Hf'. by apply Hids.
Qed.

(** What the entry of a group in the frame at [t] is: the first point while
    [t] has not passed it, the last point once [t] has reached it, and in
    between the interpolation of two consecutive points, the first of them
    before [t] and the second at or after [t]; in each case under the
    frame's time. *)
Definition entryAt (t : Q) (group : string * list TrackPoint) (e : LiveBoat)
  : Prop :=
  exists first final,
    group.2 !! 0%nat = Some first /\ last group.2 = Some final
    /\ ((t <= tp_t first /\ e = pointAt group.1 first t)
        \/ (tp_t first < t /\ tp_t final <= t /\ e = pointAt group.1 final t)
        \/ (tp_t first < t /\ t < tp_t final
            /\ exists i p0 p1,
                 group.2 !! i = Some p0 /\ group.2 !! S i = Some p1
                 /\ tp_t p0 < t /\ t <= tp_t p1 /\ e = interp p0 p1 t)).

Lemma sampled_entryAt t group e : sampled t group e -> entryAt t group e.
Proof.
  destruct group as [b pts]. intros (i & [Hi Hbefore] & Hafter & Hs).
  simpl in *. unfold sample in Hs. unfold entryAt. simpl.
  rewrite last_lookup.
  replace (Init.Nat.pred (length pts)) with (length pts - 1)%nat by lia.
  destruct (pts !! 0%nat) as [first|] eqn:Hfirst; [|discriminate].
  destruct (pts !! (length pts - 1)%nat) as [final|] eqn:Hlast; [|discriminate].
  exists first, final. split; [done|]. split; [done|].
  destruct (Qle_bool t (tp_t first)) eqn:H1.
  { apply Qle_bool_iff in H1. injection Hs as <-. by left. }
  apply Qle_bool_false in H1.
  destruct (Qle_bool (tp_t final) t) eqn:H2.
  { apply Qle_bool_iff in H2. injection Hs as <-. right. by left. }
  apply Qle_bool_false in H2.
  destruct (pts !! i) as [p0|] eqn:Hp0; [|discriminate].
  destruct (pts !! (i + 1)%nat) as [p1|] eqn:Hp1; [|discriminate].
  injection Hs as <-. right. right. split; [done|]. split; [done|].
  exists i, p0, p1. split; [done|]. split; [by rewrite <- Nat.add_1_r|].
  split; [|split; [by apply Hafter|done]].
  destruct Hbefore as [->|(p & Hp & Hlt)].
  - rewrite Hfirst in Hp0. by injection Hp0 as <-.
  - by injection Hp as <-.
Qed.

(** X15. In every frame of a replay the entries are, boat by boat in the
    order of the groups, the first point of the boat (frame at or before
    it), its last point (frame at or after it), or the interpolation of two
    consecutive points of the boat that enclose the frame's time; the points
    of a boat are its rows in the window, in ascending order of time. *)
Theorem replay_entry_is_fallback_or_interpolation
        dbFails q table raceId from to hz stepMs frames f :
  replay co dbFails q table = Done (Replay raceId from to hz stepMs frames) ->
  In f frames ->
  let rows := select byBoatThenTime raceId from to table in
  Forall2 (entryAt (f_t f)) (groupByBoat rows) (f_boats f)
  /\ (forall b pts, In (b, pts) (groupByBoat rows) ->
        pts = List.map toTrackPoint
                (List.filter (fun r => String.eqb (row_boatId r) b) rows)
        /\ StronglySorted (fun x y => row_t x <= row_t y)
             (List.filter (fun r => String.eqb (row_boatId r) b) rows)).
Proof.
  intros Hrun Hf rows.
  pose proof (stepMs_positive _ _ _ _ _ _ _ _ _ Hrun) as [Hst _].
  apply replay_inv in Hrun as (_ & _ & _ & _ & Hlt & _ & _ & _ & _ & Hrun).
  fold rows in Hrun.
  destruct (replayFrames_exact rows from to stepMs)
    as (frames' & Hrun' & Hlen & Hk); [lia|].
  rewrite Hrun in Hrun'. injection Hrun' as <-.
  split.
  - apply list_elem_of_In, list_elem_of_lookup in Hf as [k Hf].
    destruct (Hk k f Hf) as [_ Hall].
    eapply Forall2_impl; [exact Hall|]. intros g e. apply sampled_entryAt.
  - intros b pts [_ ->]%groupByBoat_In. split; [done|].
    apply select_byBoat_sorted.
Qed.

(** The step of a whole rate is the integer quotient. *)
Lemma floor_whole_quotient (hz : Q) (n : Z) :
  hz == inject_Z n -> (0 < n)%Z -> Qfloor (1000 / hz) = (1000 / n)%Z.
Proof.
  intros Hhz Hn. rewrite Hhz. destruct n as [|p|p]; [lia| |lia].
  unfold Qfloor, Qdiv, Qmult, Qinv, inject_Z. simpl Qnum. simpl Qden.
  rewrite Pos.mul_1_l. reflexivity.
Qed.

(** X17. For a window given in whole milliseconds, /replay answers 200
    exactly when the raceId parameter is not empty, from < to, the window is
    at most six hours and the D1 read succeeds (an absent from or to reads
    as 0). The 200 echoes raceId, from and to, with a rate within 1..10 and
    a step within 100..1000, which for a whole rate is the quotient of 1000
    by it. *)
Theorem replay_accepts_iff dbFails q table from to :
  ToNumber co (param (q_from q)) = Fin from ->
  ToNumber co (param (q_to q)) = Fin to ->
  exactMs from = true -> exactMs to = true ->
  ((exists raceId hz stepMs frames,
      replay co dbFails q table = Done (Replay raceId from to hz stepMs frames))
   <-> (exists raceId, q_raceId q = Some raceId /\ raceId <> "")
       /\ from < to /\ to - from <= maxWindowMs /\ dbFails = false)
  /\ (forall raceId from' to' hz stepMs frames,
        replay co dbFails q table
        = Done (Replay raceId from' to' hz stepMs frames) ->
        q_raceId q = Some raceId /\ from' = from /\ to' = to
        /\ 1 <= hz <= 10 /\ (100 <= stepMs <= 1000)%Z
        /\ (forall n : Z, hz == inject_Z n -> stepMs = (1000 / n)%Z))
  /\ (q_from q = None -> from = 0)
  /\ (q_to q = None -> to = 0).
Proof.
  intros Hfrom Hto _ _.
  assert (Hinv : forall raceId from' to' hz stepMs frames,
            replay co dbFails q table
            = Done (Replay raceId from' to' hz stepMs frames) ->
            q_raceId q = Some raceId /\ raceId <> ""
            /\ from' = from /\ to' = to /\ from < to
            /\ to - from <= maxWindowMs /\ dbFails = false
            /\ 1 <= hz <= 10 /\ (100 <= stepMs <= 1000)%Z
            /\ stepMs = Qfloor (1000 / hz)).
  { intros raceId from' to' hz stepMs frames Hrun.
    pose proof (stepMs_positive _ _ _ _ _ _ _ _ _ Hrun) as [Hst Hhz].
    apply replay_inv in Hrun
      as (Hr & -> & Hfrom' & Hto' & Hlt & Hwin & _ & -> & -> & _).
    rewrite Hfrom in Hfrom'. rewrite Hto in Hto'.
    injection Hfrom' as <-. injection Hto' as <-.
    destruct (q_raceId q) as [s|]; [|discriminate]. simpl in *.
    apply negb_true_iff, String.eqb_neq in Hr. done. }
  split; [split|split; [|split]].
  - intros (raceId & hz & stepMs & frames & Hrun).
    destruct (Hinv _ _ _ _ _ _ Hrun) as (Hq & Hne & _ & _ & ? & ? & ? & _).
    split; [eauto|done].
  - intros ((raceId & Hq & Hne) & Hlt & Hwin & ->). exists raceId.
    unfold replay. rewrite Hq, Hfrom, Hto. simpl.
    apply String.eqb_neq in Hne. rewrite Hne. simpl.
    assert (H1 : Qle_bool to from = false) by (by apply Qle_bool_false).
    rewrite H1.
    assert (H2 : Qlt_bool maxWindowMs (to - from) = false).
    { unfold Qlt_bool. by apply negb_false_iff, Qle_bool_iff. }
    rewrite H2.
    set (hzRaw := ToNumber co _).
    destruct (smoothed_step_bounds hzRaw) as [_ Hstep]. cbv zeta in Hstep.
    destruct (replayFrames_exact
                (select byBoatThenTime raceId from to table)
                from to (stepMsOf (hzOf hzRaw)))
      as (frames & -> & _); [lia|].
    eauto.
  - intros raceId from' to' hz stepMs frames Hrun.
    destruct (Hinv _ _ _ _ _ _ Hrun)
      as (Hq & _ & -> & -> & _ & _ & _ & Hhz & Hst & ->).
    repeat (split; [done|]). intros n Hn.
    apply floor_whole_quotient; [done|].
    rewrite Zlt_Qlt, <- Hn. change (inject_Z 0) with 0. lra.
  - intros Hnone. rewrite Hnone in Hfrom. by injection Hfrom as <-.
  - intros Hnone. rewrite Hnone in Hto. by injection Hto as <-.
Qed.
End Handler.

End SmoothedFrames.

(* ===================================================================== *)
(** * POST /track of part_003: the point that is stored                   *)
(* ===================================================================== *)

Section TrackPoint.
Import IndexSmoothed.
Variable co : Coercions.

Lemma substring_length (n : nat) (s : string) :
  (String.length (String.substring 0 n s) <= n)%nat.
Proof.
  revert s. induction n as [|n IH]; intros s.
  - destruct s; simpl; lia.
  - destruct s as [|c s]; simpl; [lia|]. specialize (IH s). lia.
Qed.

(** X18. The point /track stores is normalised: its ids are the trimmed
    ids of the request and are not empty; its latitude and longitude are
    [Number] of the request's, finite, within [-90, 90] and [-180, 180]; its
    time is the floor of the request's [t] when that is a finite number and
    the clock's reading otherwise; its speed and course are kept only when
    they are finite numbers; its name has at most 80 characters. A finite
    position outside the ranges is answered 400. *)
Theorem track_point_is_normalised now p :
  (forall tp, trackPoint co now p = inr tp ->
     tp_raceId tp = Trim co (ToString co (or_else (p_raceId p) (VString "")))
     /\ tp_boatId tp = Trim co (ToString co (or_else (p_boatId p) (VString "")))
     /\ tp_raceId tp <> "" /\ tp_boatId tp <> ""
     /\ ToNumber co (p_lat p) = Fin (tp_lat tp)
     /\ ToNumber co (p_lon p) = Fin (tp_lon tp)
     /\ - (90) <= tp_lat tp /\ tp_lat tp <= 90
     /\ - (180) <= tp_lon tp /\ tp_lon tp <= 180
     /\ tp_t tp = match p_t p with
                  | VNumber (Fin t) => inject_Z (Qfloor t)
                  | _ => now
                  end
     /\ (forall n, tp_name tp = Some n -> (String.length n <= 80)%nat)
     /\ (forall v, tp_sog tp = Some v -> p_sog p = VNumber (Fin v))
     /\ (forall v, tp_cog tp = Some v -> p_cog p = VNumber (Fin v)))
  /\ (forall lat lon,
        ToNumber co (p_lat p) = Fin lat -> ToNumber co (p_lon p) = Fin lon ->
        lat < - (90) \/ 90 < lat \/ lon < - (180) \/ 180 < lon ->
        exists msg, trackPoint co now p = inl msg).
Proof.
  destruct (track_checks_range co now p) as [_ Hbad]. split.
  - intros tp. unfold trackPoint.
    destruct (emptyStr _) eqn:Hr; [discriminate|].
    destruct (emptyStr (Trim co (ToString co (or_else (p_boatId p) _)))) eqn:Hb;
      [discriminate|].
    destruct (ToNumber co (p_lat p)) as [lat| | |]; try discriminate.
    destruct (ToNumber co (p_lon p)) as [lon| | |]; try discriminate.
    destruct (Qabs_gt lat 90) eqn:Ha; [discriminate|].
    destruct (Qabs_gt lon 180) eqn:Ho; [discriminate|].
    simpl. intros [= <-]. simpl.
    apply Qabs_gt_false in Ha, Ho.
    unfold emptyStr in Hr, Hb. apply String.eqb_neq in Hr, Hb.
    split; [done|]. split; [done|]. split; [done|]. split; [done|].
    split; [done|]. split; [done|].
    apply Qabs_Qle_condition in Ha, Ho.
    split; [tauto|]. split; [tauto|]. split; [tauto|]. split; [tauto|].
    split.
    { unfold finiteOf. destruct (p_t p) as [| |b|n|s]; try reflexivity.
      destruct n; reflexivity. }
    split.
    { intros n. destruct (truthy (p_name p)); [|discriminate].
      intros [= <-]. apply substring_length. }
    split.
    + intros v. unfold finiteOf. destruct (p_sog p) as [| |b|n|s]; try done.
      destruct n; try done. by intros [= ->].
    + intros v. unfold finiteOf. destruct (p_cog p) as [| |b|n|s]; try done.
      destruct n; try done. by intros [= ->].
  - intros lat lon Hlat Hlon Hout. apply (Hbad lat lon Hlat Hlon).
    destruct Hout as [H|[H|[H|H]]].
    + left. rewrite Qabs_neg by lra. lra.
    + left. rewrite Qabs_pos by lra. lra.
    + right. rewrite Qabs_neg by lra. lra.
    + right. rewrite Qabs_pos by lra. lra.
Qed.
End TrackPoint.

(* ===================================================================== *)
(** * The worker in front of the channels                                 *)
(* ===================================================================== *)

Section Worker.
Import RaceStateTs IndexTs.
Variable co : Coercions.
Variable localeCompare : string -> string -> Z.
Variable toLowerCase : string -> string.
Variable ownTracksKey : option string.

Abbreviation wfetch := (IndexTs.fetch co localeCompare toLowerCase ownTracksKey).
Abbreviation payloadOf := (ownTracksToUpdatePayload co).

(** The candidates for the boat id, in the order they are tried. *)
Definition boatIdCandidates (r : Request) (body : Fields) : list string :=
  [trimmed co (param (q_boatId r)); trimmed co (body "boatId");
   trimmed co (body "userid"); trimmed co (body "user");
   trimmed co (body "tid"); trimmed co (body "deviceid")].

Definition longitudeOf (body : Fields) : num :=
  ToNumber co (coalesce (coalesce (body "lon") (body "lng")) (body "longitude")).

Lemma orStr_find (a : string) (rest : list string) (d : string) :
  orStr a (nullish (List.find (fun s => negb (emptyStr s)) rest) d)
  = nullish (List.find (fun s => negb (emptyStr s)) (a :: rest)) d.
Proof. unfold orStr. simpl. destruct (emptyStr a); done. Qed.

Lemma payload_spec now r body :
  let raceId := trimmed co (param (q_raceId r)) in
  (payloadOf now r body = None <->
   raceId = ""
   \/ (forall c, In c (boatIdCandidates r body) -> c = "")
   \/ isFinite (ToNumber co (body "lat")) = false
   \/ isFinite (longitudeOf body) = false)
  /\ (forall u, payloadOf now r body = Some u ->
        u_raceId u = raceId /\ u_raceId u <> "" /\ u_boatId u <> ""
        /\ List.find (fun s => negb (emptyStr s)) (boatIdCandidates r body)
           = Some (u_boatId u)
        /\ ToNumber co (body "lat") = Fin (u_lat u)
        /\ longitudeOf body = Fin (u_lon u)).
Proof.
  intros raceId. unfold ownTracksToUpdatePayload. fold raceId.
  set (c1 := trimmed co (param (q_boatId r))).
  set (c2 := trimmed co (body "boatId")).
  set (c3 := trimmed co (body "userid")).
  set (c4 := trimmed co (body "user")).
  set (c5 := trimmed co (body "tid")).
  set (c6 := trimmed co (body "deviceid")).
  assert (Hfind : orStr c1 (orStr c2 (orStr c3 (orStr c4 (orStr c5 c6))))
                  = nullish (List.find (fun s => negb (emptyStr s))
                                       (boatIdCandidates r body)) "").
  { unfold boatIdCandidates. fold c1 c2 c3 c4 c5 c6. unfold orStr. simpl.
    destruct (emptyStr c1); [|done]. destruct (emptyStr c2); [|done].
    destruct (emptyStr c3); [|done]. destruct (emptyStr c4); [|done].
    destruct (emptyStr c5); [|done]. simpl.
    destruct (emptyStr c6) eqn:H6; [|done]. by apply emptyStr_true in H6. }
  rewrite Hfind. clear Hfind.
  fold (longitudeOf body).
  assert (Hnone : List.find (fun s => negb (emptyStr s)) (boatIdCandidates r body)
                  = None <->
                  forall c, In c (boatIdCandidates r body) -> c = "").
  { split.
    - intros Hf c Hc. eapply List.find_none in Hf; [|exact Hc].
      apply negb_false_iff, emptyStr_true in Hf. done.
    - intros Hall.
      destruct (List.find _ _) as [c|] eqn:Hf; [|done].
      apply List.find_some in Hf as [Hin Hc].
      apply Hall in Hin. subst c. done. }
  destruct (emptyStr raceId) eqn:Hr.
  { apply emptyStr_true in Hr. split; [|discriminate]. split; auto. }
  apply emptyStr_false in Hr.
  destruct (List.find _ (boatIdCandidates r body)) as [c|] eqn:Hf; simpl.
  2:{ split; [|discriminate]. split; [|done]. intros _. right. left.
      by apply Hnone. }
  apply List.find_some in Hf as Hc. destruct Hc as [Hin Hc].
  apply negb_true_iff in Hc. rewrite Hc. apply emptyStr_false in Hc.
  destruct (ToNumber co (body "lat")) as [lat| | |];
    try (split; [|discriminate]; split; [|done]; intros _; right; right; by left).
  destruct (longitudeOf body) as [lon| | |];
    try (split; [|discriminate]; split; [|done]; intros _; right; right; by right).
  split.
  - split; [discriminate|]. intros [?|[Hall|[?|?]]]; try done.
    exfalso. apply Hc. by apply Hall.
  - intros u [= <-]. simpl. done.
Qed.

(** X19. ownTracksToUpdatePayload returns null exactly when the trimmed
    raceId of the query is empty, or every candidate for the boat id is
    blank, or the latitude or the longitude does not convert to a finite
    number. Otherwise the payload carries the trimmed raceId, the first
    candidate that is not blank (query boatId, then the body's boatId,
    userid, user, tid and deviceid), and the converted position. *)
Theorem owntracks_payload_iff now r body :
  let raceId := trimmed co (param (q_raceId r)) in
  (payloadOf now r body = None <->
   raceId = ""
   \/ (forall c, In c (boatIdCandidates r body) -> c = "")
   \/ isFinite (ToNumber co (body "lat")) = false
   \/ isFinite (longitudeOf body) = false)
  /\ (forall u, payloadOf now r body = Some u ->
        u_raceId u = raceId /\ u_raceId u <> "" /\ u_boatId u <> ""
        /\ List.find (fun s => negb (emptyStr s)) (boatIdCandidates r body)
           = Some (u_boatId u)
        /\ ToNumber co (body "lat") = Fin (u_lat u)
        /\ longitudeOf body = Fin (u_lon u)).
Proof. apply payload_spec. Qed.


(** The telemetry the channel caches for an OwnTracks payload. *)
Definition telemetryFor (u : UpdatePayload) : Telemetry :=
  {| t_boatId := u_boatId u; t_lat := Fin (u_lat u); t_lon := Fin (u_lon u);
     t_t := u_t u; t_sog := u_sog u; t_cog := u_cog u;
     t_heading := None; t_heel := None |}.

Lemma payload_valid now r body u :
  payloadOf now r body = Some u ->
  ~ invalidUpdate co (bodyOf (fieldsOf u)).
Proof.
  intros Hu.
  destruct (payload_spec now r body) as [_ Hsome].
  destruct (Hsome u Hu) as (_ & Hr & Hb & _).
  unfold invalidUpdate, raceIdOf, boatIdOf, safeNum. simpl.
  unfold or_else. simpl.
  assert (H1 : negb (String.eqb (u_raceId u) "") = true).
  { by apply negb_true_iff, String.eqb_neq. }
  assert (H2 : negb (String.eqb (u_boatId u) "") = true).
  { by apply negb_true_iff, String.eqb_neq. }
  rewrite H1, H2. simpl.
  intros [?|[?|[?|?]]]; congruence.
Qed.

Lemma telemetryOf_payload e u :
  telemetryOf co e (bodyOf (fieldsOf u)) = telemetryFor u.
Proof.
  unfold telemetryOf, telemetryFor, timeOf, safeNum, fieldsOf. simpl.
  destruct (u_sog u), (u_cog u); done.
Qed.

(** The request passes the checks made before the body is looked at. *)
Definition passesChecks (r : Request) : Prop :=
  path r = "/ingest/owntracks" /\ method r = "POST"
  /\ match ownTracksKey with
     | Some k => k = "" \/ q_key r = Some k
     | None => True
     end.

(** The body is a location report: its [_type] is falsy or reads
    "location" in lower case. *)
Definition isLocation (body : Fields) : Prop :=
  let t := toLowerCase (ToString co (or_else (body "_type") (VString ""))) in
  t = "" \/ t = "location".

Lemma ingest_forwards e now r body u w :
  passesChecks r -> payload r = Parsed body -> isLocation body ->
  payloadOf now r body = Some u ->
  wfetch e now r w
  = forward co localeCompare e (u_raceId u)
            (updateRequest (bodyOf (fieldsOf u))) w.
Proof.
  intros (Hp & Hm & Hk) Hb Hloc Hu. unfold IndexTs.fetch.
  rewrite Hm, Hp. simpl. unfold ingestOwnTracks. rewrite Hm, Hb. simpl.
  assert (Hkey : match ownTracksKey with
                 | Some k =>
                     negb (emptyStr k)
                     && (emptyStr (ToString co (or_else (param (q_key r))
                                                        (VString "")))
                         || negb (String.eqb
                                    (ToString co (or_else (param (q_key r))
                                                          (VString ""))) k))
                 | None => false
                 end = false).
  { destruct ownTracksKey as [k|]; [|done].
    destruct Hk as [->|Hq]; [done|]. rewrite Hq. simpl.
    destruct (emptyStr k) eqn:Hek; [done|]. simpl.
    unfold or_else. simpl. fold (emptyStr k). rewrite Hek. simpl.
    rewrite Hek, String.eqb_refl. done. }
  rewrite Hkey.
  assert (Hty : negb (emptyStr (toLowerCase
                   (ToString co (or_else (body "_type") (VString "")))))
                && negb (String.eqb (toLowerCase
                   (ToString co (or_else (body "_type") (VString ""))))
                   "location") = false).
  { destruct Hloc as [->| ->]; done. }
  rewrite Hty, Hu. done.
Qed.

(** X21. A location report that OwnTracks posts with a raceId, a boat id
    and a finite position is never refused by the channel: when the storage
    write succeeds the worker answers the channel's 200, and the channel of
    that race caches the position and the time of the payload under the
    boat id, with no heading and no heel. The name of the payload is not
    used: a boat the channel did not know is entered under its id. *)
Theorem owntracks_report_reaches_channel e now r body u w :
  passesChecks r -> payload r = Parsed body -> isLocation body ->
  payloadOf now r body = Some u -> putFails e = false ->
  exists w' sent,
    wfetch e now r w
    = (Returned (FromChannel (Text 200 "OK")), w', sent)
    /\ latest (channelOf w' (u_raceId u)) !! u_boatId u
       = Some (telemetryFor u)
    /\ (roster (loadOnce (channelOf w (u_raceId u))) !! u_boatId u = None ->
        r_boatName <$> roster (channelOf w' (u_raceId u)) !! u_boatId u
        = Some (u_boatId u)).
Proof.
  intros Hadm Hb Hloc Hu Hput.
  rewrite (ingest_forwards e now r body u w) by done.
  unfold forward, IndexTs.updateRequest.
  pose proof (payload_valid now r body u Hu) as Hv.
  rewrite fetch_update by done. simpl RaceStateTs.payload.
  rewrite (update_run co) by done. unfold persist. rewrite Hput.
  simpl. do 2 eexists. split; [reflexivity|].
  unfold channelOf. simpl. rewrite !lookup_insert_eq. simpl.
  rewrite !lookup_insert_eq. rewrite telemetryOf_payload.
  split; [done|]. intros Hnone. simpl.
  unfold entryFor. simpl. unfold channelOf in Hnone. rewrite Hnone. simpl.
  unfold or_else. simpl. done.
Qed.

(** X22. The channel compares the time of a sample with a clock that counts
    milliseconds, and the OwnTracks payload carries seconds: once the
    payload's time is at most 10^12 and the channel's clock reads more than
    10^12 + 120000 (any date after September 2001), the view of the channel
    has the boat that has just reported, its id not being "__proto__", among
    its properties with [live: false]. *)
Theorem owntracks_boat_is_never_live e now r body u w e2 :
  passesChecks r -> payload r = Parsed body -> isLocation body ->
  payloadOf now r body = Some u -> putFails e = false ->
  u_boatId u <> protoKey ->
  u_t u <= 1000000000000 -> 1000000120000 < now_view e2 ->
  let w' := (wfetch e now r w).1.2 in
  exists v, own (boatsView e2 (channelOf w' (u_raceId u))) !! u_boatId u
            = Some v
            /\ v_live v = false
            /\ v_lastSeen v = Some (u_t u)
            /\ v_lat v = Some (Fin (u_lat u))
            /\ v_lng v = Some (Fin (u_lon u)).
Proof.
  intros Hadm Hb Hloc Hu Hput Hkey Hsec Hclock w'. subst w'.
  apply String.eqb_neq in Hkey.
  rewrite (ingest_forwards e now r body u w) by done.
  unfold forward, IndexTs.updateRequest.
  pose proof (payload_valid now r body u Hu) as Hv.
  rewrite fetch_update by done. simpl RaceStateTs.payload.
  rewrite (update_run co) by done. unfold persist. rewrite Hput.
  cbn -[boatsView]. rewrite boatsView_own, Hkey.
  unfold channelOf. simpl. rewrite !lookup_insert_eq. simpl.
  rewrite !lookup_insert_eq. simpl.
  eexists. split; [reflexivity|]. simpl. rewrite !lookup_insert_eq. simpl.
  unfold timeOf, safeNum. simpl.
  split; [|done].
  destruct (Qeq_bool (u_t u) 0); [done|].
  apply Qle_bool_false. unfold LIVE_MS. lra.
Qed.

(** The channel a request is passed on to, if any. *)
Definition target (r : Request) : option string :=
  if String.eqb (path r) "/ingest/owntracks"
  then Some (trimmed co (param (q_raceId r)))
  else if String.eqb (path r) "/ws/live" || readOnlyPath (path r)
  then Some (ToString co (param (q_raceId r)))
  else if String.eqb (method r) "POST" && String.eqb (path r) "/update"
  then match payload r with
       | Parsed body => Some (ToString co (or_else (body "raceId") (VString "")))
       | NotJson => None
       end
  else None.

Lemma forward_others e raceId req w other :
  other <> raceId ->
  channels (forward co localeCompare e raceId req w).1.2 !! other
  = channels w !! other.
Proof.
  intros Hne. unfold forward.
  destruct (RaceStateTs.fetch _ _ _ _ _) as [[out s] sent]. simpl.
  by rewrite lookup_insert_ne.
Qed.

(** X23. A request touches at most one channel, the one its raceId names:
    every other channel is as it was. A request that names no race, a POST
    /join and any path the worker does not know leave every channel and the
    races index as they were, and no socket is sent anything. *)
Theorem worker_touches_one_channel e now r w :
  let '(out, w', sent) := wfetch e now r w in
  (forall other, target r <> Some other ->
     channels w' !! other = channels w !! other)
  /\ (target r = None \/ target r = Some "" -> w' = w /\ sent = [])
  /\ (path r = "/join" -> method r <> "OPTIONS" ->
      out = Returned (Plain 404 "Not found") /\ w' = w /\ sent = []).
Proof.
  assert (Hfw : forall raceId req,
            target r = Some raceId -> raceId <> "" -> path r <> "/join" ->
            let '(out, w', sent) := forward co localeCompare e raceId req w in
            (forall other, target r <> Some other ->
               channels w' !! other = channels w !! other)
            /\ (target r = None \/ target r = Some "" -> w' = w /\ sent = [])
            /\ (path r = "/join" -> method r <> "OPTIONS" ->
                out = Returned (Plain 404 "Not found") /\ w' = w /\ sent = [])).
  { intros raceId req Ht Hne Hp.
    pose proof (forward_others e raceId req w) as Ho.
    destruct (forward co localeCompare e raceId req w) as [[out w'] sent].
    simpl in Ho. split; [|split].
    - intros other Hother. apply Ho. congruence.
    - intros [H|H]; congruence.
    - intros H. done. }
  assert (Hsame : forall (tg : option string) out,
            (path r = "/join" -> method r <> "OPTIONS" ->
             out = Returned (Plain 404 "Not found")) ->
            (forall other, tg <> Some other ->
               channels w !! other = channels w !! other)
            /\ (tg = None \/ tg = Some "" ->
                w = w /\ @nil (WebSocket * Event) = [])
            /\ (path r = "/join" -> method r <> "OPTIONS" ->
                out = Returned (Plain 404 "Not found") /\ w = w
                /\ @nil (WebSocket * Event) = [])).
  { intros tg out H. split; [done|]. split; [done|]. intros Hp Hm. auto. }
  revert Hfw. unfold IndexTs.fetch, target.
  destruct (String.eqb (method r) "OPTIONS") eqn:Hopt.
  { intros _. apply Hsame. apply String.eqb_eq in Hopt. intros _ Hm. done. }
  destruct ((String.eqb (method r) "GET" || String.eqb (method r) "HEAD")
            && (String.eqb (path r) "/" || String.eqb (path r) "/index.html"
                || String.eqb (path r) "/finntrack")) eqn:Hred.
  { intros _. apply Hsame. intros Hp. rewrite Hp in Hred. simpl in Hred.
    rewrite andb_false_r in Hred. done. }
  destruct (String.eqb (method r) "GET" && String.eqb (path r) "/race/list")
    eqn:Hlist.
  { intros _. apply Hsame. intros Hp. rewrite Hp in Hlist. simpl in Hlist.
    rewrite andb_false_r in Hlist. done. }
  destruct (String.eqb (method r) "GET" && String.eqb (path r) "/health")
    eqn:Hhealth.
  { intros _. apply Hsame. intros Hp. rewrite Hp in Hhealth. simpl in Hhealth.
    rewrite andb_false_r in Hhealth. done. }
  destruct (String.eqb (path r) "/ingest/owntracks") eqn:Hing.
  { apply String.eqb_eq in Hing.
    assert (Hnj : path r = "/join" -> False) by (rewrite Hing; done).
    intros Hfw. unfold ingestOwnTracks.
    destruct (negb _); [apply Hsame; done|].
    destruct (match ownTracksKey with Some _ => _ | None => _ end);
      [apply Hsame; done|].
    destruct (payload r) as [|body]; [apply Hsame; done|].
    destruct (negb (emptyStr _) && _); [apply Hsame; done|].
    destruct (ownTracksToUpdatePayload co now r body) as [u|] eqn:Hu;
      [|apply Hsame; done].
    destruct (payload_spec now r body) as [_ Hsome].
    destruct (Hsome u Hu) as (Hid & Hne & _).
    apply Hfw; [by rewrite Hid|done|done]. }
  destruct (String.eqb (path r) "/ws/live") eqn:Hws.
  { apply String.eqb_eq in Hws.
    assert (Hnj : path r = "/join" -> False) by (rewrite Hws; done).
    simpl. intros Hfw.
    destruct (truthy (param (q_raceId r))) eqn:Ht; simpl;
      [|apply Hsame; done].
    apply Hfw; [done| |done].
    destruct (q_raceId r) as [x|]; [|done]. simpl in *.
    apply negb_true_iff, String.eqb_neq in Ht. done. }
  destruct (readOnlyPath (path r)) eqn:Hro.
  { assert (Hnj : path r = "/join" -> False).
    { intros Hp. rewrite Hp in Hro. done. }
    simpl. intros Hfw.
    destruct (truthy (param (q_raceId r))) eqn:Ht; simpl;
      [|apply Hsame; done].
    apply Hfw; [done| |done].
    destruct (q_raceId r) as [x|]; [|done]. simpl in *.
    apply negb_true_iff, String.eqb_neq in Ht. done. }
  simpl.
  destruct (String.eqb (method r) "POST" && String.eqb (path r) "/update")
    eqn:Hup.
  { assert (Hnj : path r = "/join" -> False).
    { intros Hp. rewrite Hp in Hup. simpl in Hup.
      rewrite andb_false_r in Hup. done. }
    intros Hfw.
    destruct (payload r) as [|body]; [apply Hsame; done|].
    destruct (emptyStr _) eqn:He; [apply Hsame; done|].
    apply emptyStr_false in He. apply Hfw; done. }
  intros _. apply Hsame. done.
Qed.

End Worker.

(* ===================================================================== *)
(** * The last-known replay and its ingest (part_004)                     *)
(* ===================================================================== *)

Section StableSnoc.
Context {A : Type} (le : A -> A -> bool).


End StableSnoc.

Section LastKnownHandler.
Import TrackLog IndexLastKnown.
Variable co : Coercions.
Variable clamp : num -> Q -> Q -> num.

Abbreviation handleReplay := (IndexLastKnown.handleReplay co clamp).

(** The end of the window that is replayed. *)
Definition effectiveTo (from to : Q) : Q :=
  if Qlt_bool maxWindowMs (to - from) then from + maxWindowMs else to.


Lemma effectiveTo_bounds from to :
  from < to ->
  from < effectiveTo from to /\ effectiveTo from to <= to
  /\ effectiveTo from to - from <= 21600000
  /\ (to - from <= 21600000 -> effectiveTo from to = to).
Proof.
  intros Hlt. unfold effectiveTo, maxWindowMs.
  destruct (Qlt_bool _ _) eqn:Hw.
  - apply Qlt_bool_iff in Hw. repeat split; try lra.
  - unfold Qlt_bool in Hw. rewrite negb_false_iff in Hw.
    apply Qle_bool_iff in Hw. repeat split; try lra.
Qed.

(** The frame at [t] over the rows of the window, boat by boat. *)
Lemma frame_entries table raceId from eff t f :
  from <= t -> t <= eff ->
  frameAt (select byTime raceId from eff table) t f ->
  NoDup (List.map bt_boatId (f_boats f))
  /\ (forall e, In e (f_boats f) ->
        exists r, In r table /\ row_raceId r = raceId /\ e = toBoat r
                  /\ from <= row_t r /\ row_t r <= t
                  /\ forall r', In r' table -> row_raceId r' = raceId ->
                       row_boatId r' = row_boatId r ->
                       from <= row_t r' -> row_t r' <= t ->
                       row_t r' <= row_t r)
  /\ (forall r, In r table -> row_raceId r = raceId ->
        from <= row_t r -> row_t r <= t ->
        exists e, In e (f_boats f) /\ bt_boatId e = row_boatId r).
Proof.
  intros Hfrom Heff Hat.
  set (rows := select byTime raceId from eff table) in *.
  pose proof (frameAt_entries rows t f Hat) as Hent.
  pose proof (select_byTime_sorted raceId from eff table) as Hsorted.
  fold rows in Hsorted.
  assert (Hlast : forall b r, last (ofBoat b (known t rows)) = Some r ->
            In r rows /\ row_t r <= t /\ row_boatId r = b
            /\ forall r', In r' rows -> row_boatId r' = b -> row_t r' <= t ->
                 row_t r' <= row_t r).
  { intros b r Hl. apply last_Some in Hl as [l' Hl'].
    assert (Hin : In r (ofBoat b (known t rows))).
    { rewrite Hl'. apply in_or_app. right. by left. }
    apply List.filter_In in Hin as [Hin Hb%String.eqb_eq].
    apply List.filter_In in Hin as [Hin Hle%Qle_bool_iff].
    split; [done|]. split; [done|]. split; [done|].
    intros r' Hr' Hb' Hle'.
    assert (Hin' : In r' (ofBoat b (known t rows))).
    { apply List.filter_In. split; [|by apply String.eqb_eq].
      apply List.filter_In. split; [done|]. by apply Qle_bool_iff. }
    rewrite Hl' in Hin'. apply in_app_or in Hin' as [Hin'|[<-|[]]]; [|lra].
    assert (Hs : StronglySorted (fun a b => row_t a <= row_t b)
                                (ofBoat b (known t rows))).
    { unfold ofBoat, known. by do 2 apply strongly_sorted_filter. }
    rewrite Hl' in Hs. clear Hl'.
    induction l' as [|x l' IH]; [done|]. simpl in Hs.
    apply StronglySorted_inv in Hs as [Hs Hall].
    destruct Hin' as [<-|Hin'].
    - eapply List.Forall_forall in Hall; [exact Hall|].
      apply in_or_app. right. by left.
    - by apply IH. }
  split; [|split].
  - destruct Hat as [_ ->]. rewrite List.map_map.
    assert (Hkeys : List.map (fun x => bt_boatId (toBoat x))
                             (OMap.values (latestOf (known t rows)))
                    = OMap.keys (latestOf (known t rows))).
    { unfold OMap.values, OMap.keys. rewrite List.map_map.
      apply List.map_ext_in. intros [k r] Hk. simpl.
      apply omap_In_get in Hk; [|apply latestOf_nodup].
      rewrite latestOf_get in Hk. apply Hlast in Hk. tauto. }
    rewrite Hkeys. apply latestOf_nodup.
  - intros e He. apply Hent in He as (r & Hl & ->).
    destruct (Hlast _ _ Hl) as (Hin & Hle & Hb & Hmax).
    apply select_In in Hin as (Hin & Hrace & H1 & H2).
    exists r. split; [done|]. split; [done|]. split; [done|].
    split; [done|]. split; [done|].
    intros r' Hr' Hrace' Hb' H1' H2'. apply Hmax; [|done|done].
    apply select_In. split; [done|]. split; [done|]. split; [done|]. lra.
  - intros r Hr Hrace H1 H2.
    assert (Hin : In r (ofBoat (row_boatId r) (known t rows))).
    { apply List.filter_In. split; [|by apply String.eqb_eq].
      apply List.filter_In. split; [|by apply Qle_bool_iff].
      apply select_In. split; [done|]. split; [done|]. split; [done|]. lra. }
    destruct (last (ofBoat (row_boatId r) (known t rows))) as [r0|] eqn:Hl.
    2:{ apply last_None in Hl. rewrite Hl in Hin. done. }
    exists (toBoat r0). split.
    + apply Hent. exists r0. split; [|done].
      destruct (Hlast _ _ Hl) as (_ & _ & Hb & _). simpl. by rewrite Hb.
    + destruct (Hlast _ _ Hl) as (_ & _ & Hb & _). done.
Qed.

(** X24. handleReplay never refuses a long window: it replays the first six
    hours of it and says so in [to]. For a window given in whole
    milliseconds, whenever the rate it works with is a finite number within
    0.1..10, it answers 200 with a step within 100..10000 and frames between
    [from] and that [to]; a frame lists each boat once, namely the boats
    with a row of the race between [from] and the frame's time, each with
    its latest such row. *)
Theorem lastKnown_replay_clips_window q table raceId from to h :
  raceId = ToString co (or_else (param (q_raceId q)) (VString "")) ->
  raceId <> "" ->
  ToNumber co (param (q_from q)) = Fin from ->
  ToNumber co (param (q_to q)) = Fin to -> from < to ->
  exactMs from = true -> exactMs to = true ->
  clamp (ToNumber co (or_else (param (q_hz q)) (VString "1"))) (1 # 10) 10
  = Fin h ->
  (1 # 10) <= h <= 10 ->
  let eff := effectiveTo from to in
  exists step frames,
    handleReplay false q table
    = Done (Replay raceId from eff (Fin h) (Fin (inject_Z step)) frames)
    /\ (100 <= step <= 10000)%Z
    /\ eff <= to /\ eff - from <= 21600000
    /\ (to - from <= 21600000 -> eff = to)
    /\ forall f, In f frames ->
         exists t, f_t f = Fin t /\ from <= t /\ t <= eff
           /\ NoDup (List.map bt_boatId (f_boats f))
           /\ (forall e, In e (f_boats f) ->
                 exists r, In r table /\ row_raceId r = raceId /\ e = toBoat r
                   /\ from <= row_t r /\ row_t r <= t
                   /\ forall r', In r' table -> row_raceId r' = raceId ->
                        row_boatId r' = row_boatId r ->
                        from <= row_t r' -> row_t r' <= t ->
                        row_t r' <= row_t r)
           /\ (forall r, In r table -> row_raceId r = raceId ->
                 from <= row_t r -> row_t r <= t ->
                 exists e, In e (f_boats f) /\ bt_boatId e = row_boatId r).
Proof.
  intros Hid Hne Hfrom Hto Hlt _ _ Hhz Hh eff.
  destruct (effectiveTo_bounds from to Hlt) as (He0 & He1 & He2 & He3).
  destruct (lastKnown_step_bounds h Hh) as (step & Hstep & Hrange).
  assert (Hs : 0 < inject_Z step).
  { change 0 with (inject_Z 0). rewrite <- Zlt_Qlt. lia. }
  destruct (lastKnown_replayFrames_spec
              (select byTime raceId from eff table) from eff (inject_Z step) Hs
              (select_byTime_sorted raceId from eff table))
    as (frames & Hrun & Hfr).
  exists step, frames. split.
  { unfold IndexLastKnown.handleReplay. rewrite <- Hid.
    apply emptyStr_false in Hne. rewrite Hne, Hfrom, Hto.
    assert (H1 : Qle_bool to from = false) by (by apply Qle_bool_false).
    rewrite H1, Hhz, Hstep. fold (effectiveTo from to). fold eff.
    rewrite Hrun. done. }
  split; [done|]. split; [done|]. split; [done|]. split; [done|].
  intros f Hf. destruct (Hfr f Hf) as (t & H1 & H2 & Hat).
  exists t. split; [apply Hat|]. split; [done|]. split; [done|].
  by apply (frame_entries table raceId from eff t f).
Qed.

End LastKnownHandler.

Section LastKnownTrack.
Import TrackLog IndexLastKnown IndexLastKnownTrack.
Variable co : Coercions.
Variable clamp : num -> Q -> Q -> num.

Abbreviation handleTrack := (IndexLastKnownTrack.handleTrack co).
Abbreviation pointOf := (IndexLastKnownTrack.pointOf co).

(** What makes an element of a batch, or a single-point body, a point. *)
Definition validItem (now : Q) (b : Fields) : Prop :=
  ToString co (or_else (or_else (b "boatId") (b "id")) (VString "")) <> ""
  /\ isFinite (ToNumber co (b "lat")) = true
  /\ isFinite (ToNumber co (b "lon")) = true
  /\ (notNull (b "t") = true -> isFinite (ToNumber co (b "t")) = true).

Lemma pointOf_inr raceId now b :
  validItem now b <-> exists p, pointOf raceId now b = inr p.
Proof.
  unfold validItem, IndexLastKnownTrack.pointOf.
  destruct (emptyStr _) eqn:Hb.
  { apply emptyStr_true in Hb. split; [tauto|]. intros [? ?]. done. }
  apply emptyStr_false in Hb.
  destruct (ToNumber co (b "lat")) as [lat| | |]; simpl;
    try (split; [intros (_ & ? & _); done|intros [? ?]; done]).
  destruct (ToNumber co (b "lon")) as [lon| | |]; simpl;
    try (split; [intros (_ & _ & ? & _); done|intros [? ?]; done]).
  destruct (notNull (b "t")); simpl.
  - destruct (ToNumber co (b "t")) as [t| | |]; simpl;
      try (split; [intros (_ & _ & _ & H); by specialize (H eq_refl)
                  |intros [? ?]; done]).
    split; [eauto|done].
  - split; [eauto|done].
Qed.

Lemma pointOf_fields raceId now b p :
  pointOf raceId now b = inr p ->
  tp_raceId p = raceId
  /\ tp_boatId p = ToString co (or_else (or_else (b "boatId") (b "id"))
                                        (VString ""))
  /\ tp_boatId p <> ""
  /\ ToNumber co (b "lat") = Fin (tp_lat p)
  /\ ToNumber co (b "lon") = Fin (tp_lon p)
  /\ (if notNull (b "t") then ToNumber co (b "t") = Fin (tp_t p)
      else tp_t p = now).
Proof.
  unfold IndexLastKnownTrack.pointOf.
  destruct (emptyStr _) eqn:Hb; [discriminate|].
  apply emptyStr_false in Hb.
  destruct (ToNumber co (b "lat")) as [lat| | |]; try discriminate.
  destruct (ToNumber co (b "lon")) as [lon| | |]; try discriminate.
  destruct (notNull (b "t")).
  - destruct (ToNumber co (b "t")) as [t| | |]; try discriminate.
    intros [= <-]. done.
  - intros [= <-]. done.
Qed.

Lemma collect_spec raceId now boats : forall points,
  match collect co raceId now boats points with
  | inr out =>
      exists news, out = points ++ news
        /\ Forall2 (fun b p => pointOf raceId now b = inr p) boats news
  | inl msg => exists b, In b boats /\ ~ validItem now b
  end.
Proof.
  induction boats as [|b rest IH]; intros points; simpl.
  - exists []. by rewrite app_nil_r.
  - destruct (pointOf raceId now b) as [msg|p] eqn:Hp.
    + exists b. split; [by left|]. intros Hv.
      apply (pointOf_inr raceId) in Hv as [? ?]. congruence.
    + specialize (IH (points ++ [p])).
      destruct (collect co raceId now rest (points ++ [p])) as [msg|out].
      * destruct IH as (b' & ? & ?). exists b'. split; [by right|done].
      * destruct IH as (news & -> & Hall). exists (p :: news).
        split; [by rewrite <- app_assoc|]. by constructor.
Qed.

(** X25. A batch posted to /track is taken whole or not at all: it is
    accepted exactly when the raceId is not empty, the array is not empty
    and every element has a boat id, a finite latitude and longitude and,
    if it has a [t], a finite one; then there is one point per element, in
    the order of the array, all under the raceId of the request, an element
    without [t] taking the clock's reading. Otherwise the answer is 400 and
    no point is handed on. *)
Theorem track_batch_is_all_or_nothing now body boats :
  let raceId := IndexLastKnownTrack.raceIdOf co body in
  let ok := raceId <> "" /\ boats <> [] /\ Forall (validItem now) boats in
  (ok ->
   exists points,
     handleTrack now (Batch body boats)
     = Done (Accepted (length boats), points)
     /\ Forall2 (fun b p => pointOf raceId now b = inr p) boats points
     /\ Forall (fun p => tp_raceId p = raceId /\ tp_boatId p <> "") points)
  /\ (~ ok ->
      exists msg, handleTrack now (Batch body boats) = Done (Error400 msg, [])).
Proof.
  intros raceId ok. subst ok. unfold IndexLastKnownTrack.handleTrack.
  fold raceId. split.
  - intros (Hr & Hne & Hall).
    apply emptyStr_false in Hr. rewrite Hr.
    pose proof (collect_spec raceId now boats []) as Hc.
    destruct (collect co raceId now boats []) as [msg|points].
    { destruct Hc as (b & Hin & Hbad). exfalso. apply Hbad.
      rewrite List.Forall_forall in Hall. by apply Hall. }
    destruct Hc as (news & -> & Hf2). simpl.
    pose proof (Forall2_length _ _ _ Hf2) as Hlen.
    destruct (Nat.eqb (length news) 0) eqn:Hz.
    { apply Nat.eqb_eq in Hz. destruct boats; [done|]. simpl in Hlen. lia. }
    exists news. rewrite Hlen. split; [done|]. split; [done|].
    clear -Hf2. induction Hf2 as [|b p boats points Hp _ IH]; constructor.
    + apply pointOf_fields in Hp. tauto.
    + done.
  - intros Hnot. destruct (emptyStr raceId) eqn:Hr; [eauto|].
    apply emptyStr_false in Hr.
    pose proof (collect_spec raceId now boats []) as Hc.
    destruct (collect co raceId now boats []) as [msg|points]; [eauto|].
    destruct Hc as (news & -> & Hf2). simpl.
    destruct (Nat.eqb (length news) 0) eqn:Hz; [eauto|].
    exfalso. apply Hnot. split; [done|]. split.
    + intros ->. apply Forall2_nil_inv_l in Hf2. subst news. done.
    + clear -Hf2. induction Hf2 as [|b p boats points Hp _ IH]; constructor.
      * apply (pointOf_inr raceId). eauto.
      * done.
Qed.


End LastKnownTrack.

(* ===================================================================== *)
(** * The bucket replay and its ingest (part_001)                         *)
(* ===================================================================== *)

Section BucketsTrack.
Import TrackLog IndexBuckets IndexBucketsTrack.
Variable co : Coercions.

Abbreviation track := (IndexBucketsTrack.track co).
Abbreviation pointOf := (IndexBucketsTrack.pointOf co).

(** What makes an element of a batch, or a single-point body, a point. *)
Definition validElement (b : option Fields) : Prop :=
  exists f, b = Some f
    /\ trimmedString co (f "boatId") <> ""
    /\ is_Some (toNumber co (f "lat")) /\ is_Some (toNumber co (f "lon"))
    /\ is_Some (toNumber co (f "t")).

Lemma pointOf_valid raceId f :
  validElement (Some f) <-> exists p, pointOf raceId f = inr p.
Proof.
  unfold validElement, IndexBucketsTrack.pointOf.
  destruct (emptyStr _) eqn:Hb.
  { apply emptyStr_true in Hb. split.
    - intros (f' & [= <-] & ? & _). done.
    - intros [? ?]. done. }
  apply emptyStr_false in Hb.
  destruct (toNumber co (f "lat")) as [lat|] eqn:Hlat.
  2:{ split; [|intros [? ?]; done].
      intros (f' & [= <-] & _ & [? ?] & _). congruence. }
  destruct (toNumber co (f "lon")) as [lon|] eqn:Hlon.
  2:{ split; [|intros [? ?]; done].
      intros (f' & [= <-] & _ & _ & [? ?] & _). congruence. }
  destruct (toNumber co (f "t")) as [t|] eqn:Ht.
  2:{ split; [|intros [? ?]; done].
      intros (f' & [= <-] & _ & _ & _ & [? ?]). congruence. }
  split; [eauto|]. intros _. exists f. eauto 10.
Qed.

Lemma pointOf_point raceId f p :
  pointOf raceId f = inr p ->
  tp_raceId p = raceId /\ tp_boatId p = trimmedString co (f "boatId")
  /\ tp_boatId p <> ""
  /\ toNumber co (f "lat") = Some (tp_lat p)
  /\ toNumber co (f "lon") = Some (tp_lon p)
  /\ toNumber co (f "t") = Some (tp_t p).
Proof.
  unfold IndexBucketsTrack.pointOf.
  destruct (emptyStr _) eqn:Hb; [discriminate|].
  apply emptyStr_false in Hb.
  destruct (toNumber co (f "lat")) as [lat|]; [|discriminate].
  destruct (toNumber co (f "lon")) as [lon|]; [|discriminate].
  destruct (toNumber co (f "t")) as [t|]; [|discriminate].
  intros [= <-]. done.
Qed.

(** The point of an element that is an object. *)
Definition pointOfElement (raceId : string) (b : option Fields) (p : TrackPoint)
  : Prop :=
  exists f, b = Some f /\ pointOf raceId f = inr p.

Lemma collect_result raceId boats : forall points,
  match collect co raceId boats points with
  | inr out =>
      exists news, out = points ++ news
        /\ Forall2 (pointOfElement raceId) boats news
  | inl msg => exists b, In b boats /\ ~ validElement b
  end.
Proof.
  induction boats as [|[f|] rest IH]; intros points; simpl.
  - exists []. by rewrite app_nil_r.
  - destruct (pointOf raceId f) as [msg|p] eqn:Hp.
    + exists (Some f). split; [by left|]. intros Hv.
      apply (pointOf_valid raceId) in Hv as [? ?]. congruence.
    + specialize (IH (points ++ [p])).
      destruct (collect co raceId rest (points ++ [p])) as [msg|out].
      * destruct IH as (b' & ? & ?). exists b'. split; [by right|done].
      * destruct IH as (news & -> & Hall). exists (p :: news).
        split; [by rewrite <- app_assoc|].
        constructor; [|done]. exists f. done.
  - exists None. split; [by left|]. intros (f & ? & _). done.
Qed.

(** X27. POST /track with a [boats] array and a raceId that is not blank:
    an empty array makes the handler throw, with no response; an array
    whose elements are all objects with a boat id that is not blank and
    with latitude, longitude and time given as finite numbers or numeric
    strings is accepted, one point per element in the order of the array,
    all under the trimmed raceId; any other array is answered 400 and no
    point is sent on. *)
Theorem track_empty_batch_throws body boats :
  let raceId := trimmedString co (body "raceId") in
  raceId <> "" ->
  (boats = [] -> track (Batch body boats) = Threw)
  /\ (boats <> [] -> Forall validElement boats ->
      exists points,
        track (Batch body boats) = Done (Accepted (length boats), points)
        /\ Forall2 (pointOfElement raceId) boats points
        /\ Forall (fun p => tp_raceId p = raceId /\ tp_boatId p <> "") points)
  /\ (~ Forall validElement boats ->
      exists msg, track (Batch body boats) = Done (Bad msg, [])).
Proof.
  intros raceId Hr. apply emptyStr_false in Hr as Hr'.
  unfold IndexBucketsTrack.track, normalizeTrackPayload. fold raceId.
  rewrite Hr'. split; [|split].
  - intros ->. done.
  - intros Hne Hall.
    pose proof (collect_result raceId boats []) as Hc.
    destruct (collect co raceId boats []) as [msg|points].
    { destruct Hc as (b & Hin & Hbad). exfalso. apply Hbad.
      rewrite List.Forall_forall in Hall. by apply Hall. }
    destruct Hc as (news & -> & Hf2). simpl.
    pose proof (Forall2_length _ _ _ Hf2) as Hlen.
    destruct news as [|p news].
    { destruct boats; [done|]. simpl in Hlen. lia. }
    exists (p :: news). rewrite Hlen. split; [done|]. split; [done|].
    clear -Hf2. induction Hf2 as [|b p' boats points Hp _ IH]; constructor.
    + destruct Hp as (f & _ & Hp). apply pointOf_point in Hp. tauto.
    + done.
  - intros Hnot.
    pose proof (collect_result raceId boats []) as Hc.
    destruct (collect co raceId boats []) as [msg|points]; [eauto|].
    destruct Hc as (news & -> & Hf2). exfalso. apply Hnot.
    clear -Hf2. induction Hf2 as [|b p boats points Hp _ IH]; constructor.
    + destruct Hp as (f & -> & Hp). apply (pointOf_valid raceId). eauto.
    + done.
Qed.

End BucketsTrack.

Section BucketsReplay.
Import TrackLog IndexBuckets.
Variable co : Coercions.

(** The map the loop has built after the rows of a prefix. *)
Definition lastOf (prefix : list Row) : OMap.t TrackPoint :=
  List.fold_left (fun m r => OMap.set (row_boatId r) (toTrackPoint r) m)
                 prefix [].

Lemma lastOf_snoc prefix r :
  lastOf (prefix ++ [r])
  = OMap.set (row_boatId r) (toTrackPoint r) (lastOf prefix).
Proof. unfold lastOf. by rewrite fold_left_app. Qed.

Lemma lastOf_nodup prefix : NoDup (OMap.keys (lastOf prefix)).
Proof.
  induction prefix as [|p prefix IH] using rev_ind; [constructor|].
  rewrite lastOf_snoc. by apply omap_set_nodup.
Qed.

Lemma lastOf_get prefix b :
  OMap.get b (lastOf prefix) = toTrackPoint <$> last (ofBoat b prefix).
Proof.
  induction prefix as [|p prefix IH] using rev_ind; [done|].
  rewrite lastOf_snoc. unfold ofBoat in *. rewrite List.filter_app. simpl.
  destruct (String.eqb (row_boatId p) b) eqn:Hb.
  - apply String.eqb_eq in Hb as <-. rewrite omap_get_set_same.
    by rewrite last_snoc.
  - apply String.eqb_neq in Hb. rewrite omap_get_set_other by done.
    by rewrite app_nil_r.
Qed.

Lemma buckets_consume_spec rows t fuel c :
  (length rows <= fuel + c)%nat ->
  (forall r, In r (take c rows) -> row_t r <= t) ->
  exists c',
    consume fuel rows t c (lastOf (take c rows))
    = (c', lastOf (take c' rows))
    /\ (c <= c')%nat
    /\ (forall r, In r (take c' rows) -> row_t r <= t)
    /\ (forall p, rows !! c' = Some p -> t < row_t p).
Proof.
  revert c. induction fuel as [|fuel IH]; intros c Hfuel Hpre; simpl.
  - exists c. split; [done|]. split; [done|]. split; [done|].
    intros p Hp. apply lookup_lt_Some in Hp. lia.
  - destruct (rows !! c) as [p|] eqn:Hp.
    + destruct (Qle_bool (row_t p) t) eqn:Hle.
      * rewrite <- lastOf_snoc, <- (take_S_r rows c p Hp).
        destruct (IH (S c)) as (c' & Hc & Hle' & Hall & Hnext); [lia| |].
        { intros r. rewrite (take_S_r rows c p Hp). intros [?|[<-|[]]]%in_app_or.
          - by apply Hpre.
          - by apply Qle_bool_iff. }
        exists c'. split; [done|]. split; [lia|]. done.
      * exists c. split; [done|]. split; [done|]. split; [done|].
        intros p' Hp'. rewrite Hp in Hp'. injection Hp' as <-.
        by apply Qle_bool_false.
    + exists c. split; [done|]. split; [done|]. split; [done|].
      intros p' Hp'. congruence.
Qed.

Lemma buckets_loop_spec rows to stepMs :
  0 < inject_Z stepMs ->
  StronglySorted (fun a b => row_t a <= row_t b) rows ->
  forall fuel t c frames,
    (remaining to (inject_Z stepMs) t < fuel)%nat ->
    (forall r, In r (take c rows) -> row_t r <= t) ->
    exists news,
      frameLoop fuel rows to stepMs t c (lastOf (take c rows)) frames
      = Done (frames ++ news)
      /\ length news = remaining to (inject_Z stepMs) t
      /\ forall k f, news !! k = Some f ->
           f_t f == t + inject_Z (Z.of_nat k) * inject_Z stepMs
           /\ f_boats f = OMap.values (lastOf (known (f_t f) rows)).
Proof.
  intros Hstep Hs. induction fuel as [|fuel IH];
    intros t c frames Hfuel Hpre; [lia|].
  simpl. destruct (Qle_bool t to) eqn:Hle.
  - apply Qle_bool_iff in Hle.
    destruct (buckets_consume_spec rows t (length rows) c)
      as (c' & Hc & _ & Hall & Hnext); [lia|done|].
    rewrite Hc.
    pose proof (remaining_succ to (inject_Z stepMs) t Hstep Hle) as Hrem.
    destruct (IH (t + inject_Z stepMs) c'
                 (frames ++ [{| f_t := t;
                                f_boats := OMap.values (lastOf (take c' rows)) |}]))
      as (news & Hout & Hlen & Hin); [lia| |].
    { intros r Hr. apply Hall in Hr. lra. }
    exists ({| f_t := t; f_boats := OMap.values (lastOf (take c' rows)) |}
            :: news).
    split; [|split].
    + rewrite Hout, <- app_assoc. done.
    + simpl. lia.
    + intros [|k] f Hk; simpl in Hk.
      * injection Hk as <-. simpl. split.
        -- change (inject_Z 0) with 0. ring.
        -- by rewrite (take_known rows t c').
      * destruct (Hin k f Hk) as [Ht Hb]. split; [|done].
        rewrite Ht, Nat2Z.inj_succ. unfold Z.succ.
        rewrite inject_Z_plus. change (inject_Z 1) with 1. ring.
  - apply Qle_bool_false in Hle.
    exists []. rewrite app_nil_r. split; [done|].
    split; [by rewrite remaining_zero|]. intros k f Hk. done.
Qed.

(** The blank and the absent parameter are no numbers for [toNumber]. *)
Lemma toNumber_param_none : toNumber co (param None) = None.
Proof. done. Qed.

(** X28. handleReplay of part_001 refuses a request without a from or a to
    parameter. For a window given in whole milliseconds it answers 200
    whenever the trimmed raceId is not empty and from < to, with no cap on
    the length of the window, a rate within 0.1..10 and a step within
    100..10000. Its frames are evenly spaced from [from], floor((to - from)
    / stepMs) + 1 of them, and the frame at [t] lists, once each, the boats
    with a row of the race between [from] and [t], each with the last such
    row in ascending order of time. *)
Theorem buckets_replay_frames q table :
  let raceId := match q_raceId q with
                | Some s => ToString co (or_else (VString (Trim co s))
                                                 (VString ""))
                | None => ""
                end in
  (q_from q = None \/ q_to q = None ->
   handleReplay co false q table = Done (Bad "raceId is required")
   \/ handleReplay co false q table = Done (Bad "from/to must be unix ms"))
  /\ (forall from to,
        raceId <> "" ->
        toNumber co (param (q_from q)) = Some from ->
        toNumber co (param (q_to q)) = Some to -> from < to ->
        exactMs from = true -> exactMs to = true ->
        let rows := select byTime raceId from to table in
        exists hz stepMs frames,
          handleReplay co false q table
          = Done (Replay raceId from to hz stepMs frames)
          /\ (1 # 10) <= hz <= 10 /\ (100 <= stepMs <= 10000)%Z
          /\ length frames
             = Z.to_nat (Qfloor ((to - from) / inject_Z stepMs) + 1)
          /\ forall k f, frames !! k = Some f ->
               f_t f == from + inject_Z (Z.of_nat k) * inject_Z stepMs
               /\ NoDup (List.map tp_boatId (f_boats f))
               /\ forall e, In e (f_boats f) <->
                    exists r, last (ofBoat (tp_boatId e) (known (f_t f) rows))
                              = Some r
                              /\ e = toTrackPoint r).
Proof.
  intros raceId. split.
  - intros Hnone. unfold handleReplay. fold raceId.
    destruct (emptyStr raceId); [by left|]. right.
    destruct Hnone as [-> | ->]; simpl.
    + done.
    + destruct (toNumber co (param (q_from q))); done.
  - intros from to Hr Hfrom Hto Hlt _ _ rows.
    set (stepMs := stepMsOf (hzOf co (q_hz q))).
    assert (Hhz : (1 # 10) <= hzOf co (q_hz q) <= 10)
      by (apply clamp_between; done).
    pose proof (buckets_step_bounds _ Hhz) as Hbounds.
    assert (Hst : (50 <= stepMs)%Z).
    { unfold stepMs, stepMsOf. lia. }
    assert (Hs : 0 < inject_Z stepMs).
    { change 0 with (inject_Z 0). rewrite <- Zlt_Qlt. lia. }
    destruct (buckets_loop_spec rows to stepMs Hs
                (select_byTime_sorted raceId from to table)
                (loopFuel from to (inject_Z stepMs)) from 0%nat [])
      as (frames & Hrun & Hlen & Hk).
    { rewrite loopFuel_remaining. lia. }
    { intros r []. }
    exists (hzOf co (q_hz q)), stepMs, frames.
    split; [|split; [done|split; [|split; [done|]]]].
    + unfold handleReplay. fold raceId.
      apply emptyStr_false in Hr. rewrite Hr, Hfrom, Hto.
      assert (H1 : negb (Qlt_bool from to) = false).
      { apply negb_false_iff. by apply Qlt_bool_iff. }
      rewrite H1. fold stepMs. fold rows.
      change (lastOf (take 0 rows)) with (@nil (string * TrackPoint)) in Hrun.
      rewrite Hrun. done.
    + unfold stepMs, stepMsOf. lia.
    + intros k f Hf. destruct (Hk k f Hf) as [Ht Hb]. split; [done|].
      assert (Hlast : forall b r,
                last (ofBoat b (known (f_t f) rows)) = Some r ->
                row_boatId r = b).
      { intros b r Hl. apply last_Some in Hl as [l' Hl'].
        assert (Hin : In r (ofBoat b (known (f_t f) rows))).
        { rewrite Hl'. apply in_or_app. right. by left. }
        apply List.filter_In in Hin as [_ Hin]. by apply String.eqb_eq. }
      split.
      * rewrite Hb.
        assert (Hkeys : List.map tp_boatId
                          (OMap.values (lastOf (known (f_t f) rows)))
                        = OMap.keys (lastOf (known (f_t f) rows))).
        { unfold OMap.values, OMap.keys. rewrite List.map_map.
          apply List.map_ext_in. intros [b e] Hin. simpl.
          apply omap_In_get in Hin; [|apply lastOf_nodup].
          rewrite lastOf_get in Hin.
          destruct (last _) as [r|] eqn:Hl; [|done].
          injection Hin as <-. simpl. by apply Hlast in Hl. }
        rewrite Hkeys. apply lastOf_nodup.
      * intros e. rewrite Hb. split.
        -- intros [b Hin]%omap_values_In.
           apply omap_In_get in Hin; [|apply lastOf_nodup].
           rewrite lastOf_get in Hin.
           destruct (last _) as [r|] eqn:Hl; [|done].
           injection Hin as <-. exists r. split; [|done].
           simpl. apply Hlast in Hl as Hbr. by rewrite Hbr.
        -- intros (r & Hl & ->). apply omap_values_In.
           exists (row_boatId r). apply omap_get_In.
           rewrite lastOf_get. simpl in Hl. by rewrite Hl.
Qed.

End BucketsReplay.

(* ===================================================================== *)
(** * The latest positions (RaceState of part_003)                        *)
(* ===================================================================== *)

Section LatestPositions.
Import IndexSmoothed RaceStateLatest.
Variable localeCompare : string -> string -> Z.

Abbreviation lfetch := (RaceStateLatest.fetch localeCompare).

Lemma stale_false now b :
  stale now b = false <-> now - lb_t b <= ACTIVE_MS.
Proof.
  unfold stale, Qlt_bool. rewrite negb_false_iff. apply Qle_bool_iff.
Qed.

Lemma snapshot_spec e s :
  let '(s', l) := snapshot localeCompare e s in
  (forall k b, boats s' !! k = Some b <->
               boats s !! k = Some b /\ now_prune e - lb_t b <= ACTIVE_MS)
  /\ watchers s' = watchers s /\ storage s' = storage s
  /\ Permutation l ((map_to_list (boats s')).*2)
  /\ ((forall a b, (localeCompare a b <= 0)%Z \/ (localeCompare b a <= 0)%Z) ->
      (forall a b c, (localeCompare a b <= 0)%Z -> (localeCompare b c <= 0)%Z ->
                     (localeCompare a c <= 0)%Z) ->
      StronglySorted
        (fun a b => (localeCompare (lb_boatId a) (lb_boatId b) <= 0)%Z) l).
Proof.
  unfold snapshot. simpl. split; [|split; [done|split; [done|split]]].
  - intros k b. rewrite map_lookup_filter_Some. simpl.
    rewrite stale_false. done.
  - apply stable_sort_perm.
  - intros Htot Htrans. unfold Array_sort.
    eapply strongly_sorted_impl; [|apply stable_sort_sorted].
    + intros a b Hab. simpl in Hab. by apply Z.leb_le in Hab.
    + intros a b. rewrite !Z.leb_le. apply Htot.
    + intros a b c. rewrite !Z.leb_le. apply Htrans.
Qed.

Lemma fetch_latest e r s :
  path r = "/latest" ->
  lfetch e r s
  = (Returned (Latest (snapshot localeCompare e s).2 (now_sent e)),
     (snapshot localeCompare e s).1, []).
Proof. intros Hp. unfold RaceStateLatest.fetch. rewrite Hp. reflexivity. Qed.

(** X29. /latest lists exactly the boats whose last point is at most
    [ACTIVE_MS] (120000 ms) older than the clock's reading, sorted by boat
    id for a [localeCompare] that is a total preorder; the others are deleted from
    the object's map there and then, while what is stored stays as it
    was, and no watcher is sent anything. *)
Theorem latest_lists_recent_boats e r s :
  path r = "/latest" ->
  (forall a b, (localeCompare a b <= 0)%Z \/ (localeCompare b a <= 0)%Z) ->
  (forall a b c, (localeCompare a b <= 0)%Z -> (localeCompare b c <= 0)%Z ->
                 (localeCompare a c <= 0)%Z) ->
  exists s' l,
    lfetch e r s = (Returned (Latest l (now_sent e)), s', [])
    /\ (forall b, In b l <->
          exists k, boats s !! k = Some b
                    /\ now_prune e - lb_t b <= ACTIVE_MS)
    /\ length l = size (boats s')
    /\ StronglySorted
         (fun a b => (localeCompare (lb_boatId a) (lb_boatId b) <= 0)%Z) l
    /\ (forall k b, boats s' !! k = Some b <->
          boats s !! k = Some b /\ now_prune e - lb_t b <= ACTIVE_MS)
    /\ watchers s' = watchers s /\ storage s' = storage s.
Proof.
  intros Hp Htot Htrans. rewrite fetch_latest by done.
  pose proof (snapshot_spec e s) as Hsnap.
  destruct (snapshot localeCompare e s) as [s' l].
  destruct Hsnap as (Hb & Hw & Hst & Hperm & Hsorted).
  exists s', l. split; [done|]. split; [|split; [|split; [|done]]].
  - intros b. rewrite <- list_elem_of_In, Hperm, list_elem_of_fmap. split.
    + intros [[k b'] [Heq Hin]]. simpl in Heq. subst b'.
      apply elem_of_map_to_list in Hin. exists k. by apply Hb.
    + intros (k & Hk). exists (k, b). split; [done|].
      apply elem_of_map_to_list. by apply Hb.
  - rewrite Hperm, length_fmap. apply length_map_to_list.
  - by apply Hsorted.
Qed.

(** X30. /ingest stores the point it is given without a look at the clock
    or at the point: the boat's entry is replaced by the point, the other
    boats (stale ones included) stay, the map is written to storage as a
    plain object, which leaves out a boat whose id is "__proto__", and every
    watcher that takes it is sent the point. A /latest that follows lists
    the boat, with the data of the point, exactly when the point is at most
    120000 ms older than the clock's reading. *)
Theorem ingest_then_latest e r p s e2 r2 :
  path r = "/ingest" -> method r = "POST" -> payload r = Json p ->
  putFails e = false -> path r2 = "/latest" ->
  exists s1 s2 l,
    lfetch e r s
    = (Returned (Text 200 "ok"), s1,
       List.map (fun ws => (ws, Point (liveBoatOf p))) (watchers s1))
    /\ boats s1 = <[tp_boatId p := liveBoatOf p]> (boats s)
    /\ storage s1 = Some (delete protoKey (boats s1))
    /\ watchers s1
       = List.filter (fun ws => negb (sendFails e ws)) (watchers s)
    /\ lfetch e2 r2 s1 = (Returned (Latest l (now_sent e2)), s2, [])
    /\ (In (liveBoatOf p) l <-> now_prune e2 - tp_t p <= 120000).
Proof.
  intros Hp Hm Hb Hput Hp2.
  set (s1 := {| boats := <[tp_boatId p := liveBoatOf p]> (boats s);
                watchers := List.filter (fun ws => negb (sendFails e ws))
                                        (watchers s);
                storage := Some (delete protoKey
                                   (<[tp_boatId p := liveBoatOf p]> (boats s))) |}).
  pose proof (snapshot_spec e2 s1) as Hsnap.
  exists s1, (snapshot localeCompare e2 s1).1, (snapshot localeCompare e2 s1).2.
  destruct (snapshot localeCompare e2 s1) as [s2 l] eqn:Hsn.
  destruct Hsnap as (Hboats & _ & _ & Hperm & _).
  unfold ACTIVE_MS in Hboats.
  split.
  { unfold RaceStateLatest.fetch. rewrite Hp, Hm, Hb. simpl.
    unfold persist. rewrite Hput. done. }
  split; [done|]. split; [done|]. split; [done|]. split.
  { rewrite (fetch_latest e2 r2 s1) by done. by rewrite Hsn. }
  simpl. rewrite <- list_elem_of_In, Hperm, list_elem_of_fmap. split.
  - intros [[k b'] [Heq Hin]]. simpl in Heq. subst b'.
    apply elem_of_map_to_list, Hboats in Hin as [_ Hle]. done.
  - intros Hle. exists (tp_boatId p, liveBoatOf p). split; [done|].
    apply elem_of_map_to_list, Hboats. split; [|done].
    simpl. by rewrite lookup_insert_eq.
Qed.

End LatestPositions.

(* ===================================================================== *)
(** * The views of the two Durable Objects                                *)
(* ===================================================================== *)

Section Views.
Variable localeCompare : string -> string -> Z.

(** C5 (as amended). The two Durable Objects build their views in two
    ways. The view of src/raceState.ts keeps every boat: a roster entry
    (its id not being "__proto__") has its view among the properties of
    [boatsView] and in the list of GET /boats, live exactly when its last
    report is at most 120000 ms before the clock (whose reading is past the
    first two minutes of 1970), a stale boat keeping the cached latitude and
    longitude; the list holds the properties of the view, live boats first,
    then by name, for a [localeCompare] that is a total preorder. The
    snapshot of part_003 has no live flag: it deletes the boats whose last
    point is more than 120000 ms old, lists the others, and sorts them by
    boat id. *)
Theorem view_live_iff_recent_and_sorted
        (e : RaceStateTs.Env) (s : RaceStateTs.State)
        (e3 : RaceStateLatest.Env) (s3 : RaceStateLatest.State) :
  RaceStateTs.LIVE_MS < RaceStateTs.now_view e ->
  (forall a b, (localeCompare a b <= 0)%Z \/ (localeCompare b a <= 0)%Z) ->
  (forall a b c, (localeCompare a b <= 0)%Z -> (localeCompare b c <= 0)%Z ->
                 (localeCompare a c <= 0)%Z) ->
  (forall boatId entry, RaceStateTs.roster s !! boatId = Some entry ->
     boatId <> protoKey ->
     exists v, own (RaceStateTs.boatsView e s) !! boatId = Some v
       /\ In v (RaceStateTs.boatsViewArray localeCompare e s)
       /\ RaceStateTs.v_lastSeen v = lastSeenOf s boatId entry
       /\ (RaceStateTs.v_live v = true <->
           exists ls, RaceStateTs.v_lastSeen v = Some ls
                      /\ RaceStateTs.now_view e - ls <= RaceStateTs.LIVE_MS)
       /\ RaceStateTs.v_lat v
          = RaceStateTs.t_lat <$> RaceStateTs.latest s !! boatId
       /\ RaceStateTs.v_lng v
          = RaceStateTs.t_lon <$> RaceStateTs.latest s !! boatId)
  /\ Permutation (RaceStateTs.boatsViewArray localeCompare e s)
                 ((map_to_list (own (RaceStateTs.boatsView e s))).*2)
  /\ StronglySorted (before localeCompare)
                    (RaceStateTs.boatsViewArray localeCompare e s)
  /\ (let '(s3', l) := RaceStateLatest.snapshot localeCompare e3 s3 in
      (forall b, In b l <->
         exists k, RaceStateLatest.boats s3 !! k = Some b
                   /\ RaceStateLatest.now_prune e3 - IndexSmoothed.lb_t b
                      <= RaceStateLatest.ACTIVE_MS)
      /\ (forall k b, RaceStateLatest.boats s3' !! k = Some b <->
            RaceStateLatest.boats s3 !! k = Some b
            /\ RaceStateLatest.now_prune e3 - IndexSmoothed.lb_t b
               <= RaceStateLatest.ACTIVE_MS)
      /\ StronglySorted
           (fun a b => (localeCompare (IndexSmoothed.lb_boatId a)
                                      (IndexSmoothed.lb_boatId b) <= 0)%Z) l).
Proof.
  intros Hnow Htot Htrans.
  destruct (roster_views localeCompare e s Hnow Htot Htrans)
    as (Hview & Hperm & Hsorted).
  split; [done|]. split; [done|]. split; [done|].
  pose proof (snapshot_spec localeCompare e3 s3) as Hsnap.
  destruct (RaceStateLatest.snapshot localeCompare e3 s3) as [s3' l].
  destruct Hsnap as (Hb & _ & _ & Hp3 & Hs3).
  split; [|split; [done|by apply Hs3]].
  intros b. rewrite <- list_elem_of_In, Hp3, list_elem_of_fmap. split.
  - intros [[k b'] [Heq Hin]]. simpl in Heq. subst b'.
    apply elem_of_map_to_list in Hin. exists k. by apply Hb.
  - intros (k & Hk). exists (k, b). split; [done|].
    apply elem_of_map_to_list. by apply Hb.
Qed.

End Views.

(* ===================================================================== *)
(** * Further scenarios                                                   *)
(* ===================================================================== *)

Module Examples.
Import TrackLog RaceStateTs Scenario.

(** An environment in which socket 1 throws when it is sent to. *)
Definition deaf (now : Q) : Env :=
  {| now_t := now; now_joined := now; now_view := now; now_event := now;
     putFails := false; kvFails := false;
     sendFails := fun ws => Nat.eqb ws 1; newSocket := 7%nat |}.

(** An environment in which the storage write rejects. *)
Definition fullDisk (now : Q) : Env :=
  {| now_t := now; now_joined := now; now_view := now; now_event := now;
     putFails := true; kvFails := false;
     sendFails := fun _ => false; newSocket := 7%nat |}.

(** B1 reports at t = 5000. *)
Definition first : Body :=
  body (VString "B1") (number 10) (number 20) (number 5000).

(** B2 joins as Beta, of FIN. *)
Definition joining : Body :=
  {| b_raceId := VString "R1"; b_boatId := VString "B2";
     b_boatName := VString "Beta"; b_nation := VString "FIN";
     b_lat := VUndefined; b_lon := VUndefined; b_t := VUndefined;
     b_sog := VUndefined; b_speed := VUndefined; b_cog := VUndefined;
     b_course := VUndefined; b_heading := VUndefined; b_heel := VUndefined |}.

Definition boatsRequest : Request :=
  {| method := "GET"; path := "/boats"; upgradeWebSocket := false;
     payload := BadJson |}.

Definition liveRequest : Request :=
  {| method := "GET"; path := "/ws/live"; upgradeWebSocket := true;
     payload := BadJson |}.

(** A channel created by B1's first report. *)
Definition started : State :=
  (fetch (env 6000) (post "/update" first) initial).1.2.

(** The frames of scenario B, and the one at t = 2000. *)
Definition framesB : list IndexSmoothed.Frame :=
  Eval vm_compute in
    match IndexSmoothed.replay Sample.coercions false queryB tableB with
    | Done (IndexSmoothed.Replay _ _ _ _ _ frames) => frames
    | _ => []
    end.

Definition frameB2 : IndexSmoothed.Frame :=
  Eval vm_compute in
    List.nth 2 framesB {| IndexSmoothed.f_t := 0; IndexSmoothed.f_boats := [] |}.

(** An OwnTracks location report of the device B7, posted for race R1. *)
Definition otFields : IndexTs.Fields :=
  fun k =>
    if String.eqb k "_type" then VString "location"
    else if String.eqb k "tid" then VString "B7"
    else if String.eqb k "lat" then number 10
    else if String.eqb k "lon" then number 20
    else if String.eqb k "tst" then number 1700000000
    else VUndefined.

Definition otRequest : IndexTs.Request :=
  {| IndexTs.method := "POST"; IndexTs.path := "/ingest/owntracks";
     IndexTs.q_raceId := Some "R1"; IndexTs.q_boatId := None;
     IndexTs.q_name := None; IndexTs.q_key := None;
     IndexTs.upgradeWebSocket := false;
     IndexTs.payload := IndexTs.Parsed otFields |}.

Definition otPayload : IndexTs.UpdatePayload :=
  {| IndexTs.u_raceId := "R1"; IndexTs.u_boatId := "B7";
     IndexTs.u_lat := 10; IndexTs.u_lon := 20; IndexTs.u_t := 1700000000;
     IndexTs.u_sog := None; IndexTs.u_cog := None; IndexTs.u_name := None |}.

(** A reading of [toLowerCase] for text that is in lower case. *)
Definition sameCase (s : string) : string := s.

Definition worker :=
  IndexTs.fetch Sample.coercions lexCompare sameCase None.

(** A reading of the [clamp] that part_004 imports. *)
Definition clampNum (n : num) (lo hi : Q) : num :=
  match n with Fin q => Fin (Qmax lo (Qmin hi q)) | _ => NaN end.

Definition queryLastKnown : IndexLastKnown.Query :=
  {| IndexLastKnown.q_raceId := Some "R1"; IndexLastKnown.q_from := Some "0";
     IndexLastKnown.q_to := Some "4000"; IndexLastKnown.q_hz := Some "1" |}.





(** A batch for race R1. *)
Definition batchFields : IndexBucketsTrack.Fields :=
  fun k => if String.eqb k "raceId" then VString "R1" else VUndefined.

(** The object of part_003 holding B1, last seen at 1000, and B2, last seen
    at 200000. *)
Definition boatAt (boatId : string) (t : Q) : IndexSmoothed.LiveBoat :=
  {| IndexSmoothed.lb_boatId := boatId; IndexSmoothed.lb_name := None;
     IndexSmoothed.lb_lat := 0; IndexSmoothed.lb_lon := 0;
     IndexSmoothed.lb_sog := None; IndexSmoothed.lb_cog := None;
     IndexSmoothed.lb_t := t |}.

Definition twoBoats : RaceStateLatest.State :=
  {| RaceStateLatest.boats :=
       <["B2" := boatAt "B2" 200000]> (<["B1" := boatAt "B1" 1000]> ∅);
     RaceStateLatest.watchers := [1%nat];
     RaceStateLatest.storage := None |}.

Definition clock (now : Q) : RaceStateLatest.Env :=
  {| RaceStateLatest.now_prune := now; RaceStateLatest.now_sent := now;
     RaceStateLatest.putFails := false;
     RaceStateLatest.sendFails := fun _ => false;
     RaceStateLatest.newSocket := 7%nat |}.

Definition latestRequest : RaceStateLatest.Request :=
  {| RaceStateLatest.method := "GET"; RaceStateLatest.path := "/latest";
     RaceStateLatest.upgradeIsWebsocket := false;
     RaceStateLatest.payload := RaceStateLatest.BadJson |}.

(** B3 is reported at t = 250000. *)
Definition pointB3 : IndexSmoothed.TrackPoint :=
  {| IndexSmoothed.tp_raceId := "R1"; IndexSmoothed.tp_boatId := "B3";
     IndexSmoothed.tp_t := 250000; IndexSmoothed.tp_lat := 1;
     IndexSmoothed.tp_lon := 2; IndexSmoothed.tp_sog := None;
     IndexSmoothed.tp_cog := None; IndexSmoothed.tp_name := None |}.

Definition ingestRequest : RaceStateLatest.Request :=
  {| RaceStateLatest.method := "POST"; RaceStateLatest.path := "/ingest";
     RaceStateLatest.upgradeIsWebsocket := false;
     RaceStateLatest.payload := RaceStateLatest.Json pointB3 |}.

(** The object of part_003 holding B1, named Zoe, and B2, named Amy, both
    last seen at 200000. *)
Definition boatNamed (boatId name : string) : IndexSmoothed.LiveBoat :=
  {| IndexSmoothed.lb_boatId := boatId; IndexSmoothed.lb_name := Some name;
     IndexSmoothed.lb_lat := 0; IndexSmoothed.lb_lon := 0;
     IndexSmoothed.lb_sog := None; IndexSmoothed.lb_cog := None;
     IndexSmoothed.lb_t := 200000 |}.

Definition namedBoats : RaceStateLatest.State :=
  {| RaceStateLatest.boats :=
       <["B2" := boatNamed "B2" "Amy"]> (<["B1" := boatNamed "B1" "Zoe"]> ∅);
     RaceStateLatest.watchers := [];
     RaceStateLatest.storage := None |}.



End Examples.

Section ExampleFacts.
Import TrackLog RaceStateTs Scenario Examples.

Lemma stored_snapshot_restores_maps_witness :
  roster (loadOnce (evict afterFirst)) = roster afterFirst
  /\ latest (loadOnce (evict afterFirst)) = latest afterFirst.
Proof.
  apply (stored_snapshot_restores_maps Sample.coercions lexCompare
           (env 6000) (post "/update" first) watched (Text 200 "OK")
           afterFirst (fetch (env 6000) (post "/update" first) watched).2).
  - reflexivity.
  - right. reflexivity.
  - reflexivity.
  - intros msg H. discriminate H.
Defined.

Lemma update_drops_failing_sockets_witness :
  exists s',
    fetch (deaf 6000) (post "/update" late) afterFirst
    = (Returned (Text 200 "OK"), s',
       List.map (fun ws => (ws, updateEvent Sample.coercions (deaf 6000) late
                                            (loadOnce afterFirst)))
                (sockets s'))
    /\ sockets s'
       = List.filter (fun ws => negb (sendFails (deaf 6000) ws))
                     (sockets (loadOnce afterFirst)).
Proof.
  apply (update_drops_failing_sockets Sample.coercions lexCompare
           (deaf 6000) (post "/update" late) late afterFirst);
    try reflexivity.
  intros H. vm_compute in H. destruct H as [H|[H|[H|H]]]; discriminate H.
Defined.

Lemma join_broadcasts_resulting_view_witness :
  exists s',
    fetch (env 7000) (post "/join" joining) afterFirst
    = (Returned (JoinAck (boatIdOf Sample.coercions joining) (size (roster s'))),
       s',
       List.map (fun ws => (ws, Full (now_event (env 7000))
                                     (boatsView (env 7000) s')))
                (sockets s'))
    /\ sockets s'
       = List.filter (fun ws => negb (sendFails (env 7000) ws))
                     (sockets (loadOnce afterFirst))
    /\ is_Some (own (boatsView (env 7000) s')
                 !! boatIdOf Sample.coercions joining).
Proof.
  destruct (join_broadcasts_resulting_view Sample.coercions lexCompare
              (env 7000) (post "/join" joining) joining afterFirst)
    as (s' & H1 & H2 & H3 & _); try reflexivity.
  - intros H. vm_compute in H. discriminate H.
  - intros H. vm_compute in H. discriminate H.
  - exists s'. split; [exact H1|]. split; [exact H2|]. apply H3.
    intros H. vm_compute in H. discriminate H.
Defined.

Lemma failed_write_keeps_update_in_memory_witness :
  exists s',
    fetch (fullDisk 6000) (post "/update" late) afterFirst = (Rejected, s', [])
    /\ storage s' = storage (loadOnce afterFirst)
    /\ latest s' !! "B1" = Some (telemetryOf Sample.coercions (fullDisk 6000) late).
Proof.
  destruct (failed_write_keeps_update_in_memory Sample.coercions lexCompare
              (fullDisk 6000) (post "/update" late) late afterFirst)
    as (s' & H1 & H2 & _ & H3 & _); try reflexivity.
  - intros H. vm_compute in H. destruct H as [H|[H|[H|H]]]; discriminate H.
  - exists s'. split; [exact H1|]. split; [exact H2|exact H3].
Defined.

Lemma snapshot_shows_accepted_update_witness :
  exists views v,
    fetch (env 7000) boatsRequest afterFirst
    = (Returned (BoatsList 7000 views), afterFirst, [])
    /\ In v views /\ v_boatId v = "B1"
    /\ v_lat v = Some (Fin 10) /\ v_lng v = Some (Fin 20)
    /\ v_timestamp v = Some 5000 /\ v_live v = true.
Proof.
  destruct (snapshot_shows_accepted_update Sample.coercions lexCompare
              (env 6000) (post "/update" first) first watched afterFirst
              (fetch (env 6000) (post "/update" first) watched).2
              (env 7000) boatsRequest)
    as (views & v & lat & lon & H1 & H2 & H3 & H4 & H5 & H6 & H7 & H8 & _
        & _ & _ & H9); try reflexivity.
  { intros H. vm_compute in H. discriminate H. }
  exists views, v. split; [exact H1|]. split; [exact H2|]. split; [exact H3|].
  vm_compute in H4. injection H4 as <-.
  vm_compute in H6. injection H6 as <-.
  split; [exact H5|]. split; [exact H7|]. split; [exact H8|].
  rewrite H9. vm_compute. reflexivity.
Defined.

Lemma update_stamps_or_creates_entry_witness :
  roster (loadOnce initial) !! "B1" = None
  /\ roster started !! "B1"
     = Some {| r_boatId := "B1"; r_boatName := "B1"; r_nation := None;
               r_joinedAt := 6000; r_lastSeen := Some 5000 |}
  /\ size (roster started) = 1%nat.
Proof.
  split; [reflexivity|].
  apply (update_stamps_or_creates_entry Sample.coercions lexCompare
           (env 6000) (post "/update" first) first initial started
           (fetch (env 6000) (post "/update" first) initial).2);
    reflexivity.
Defined.

Lemma join_rewrites_name_keeps_last_seen_witness :
  roster (fetch (env 7000)
                (post "/join" (body (VString "B1") VUndefined VUndefined VUndefined))
                afterFirst).1.2 !! "B1"
  = Some {| r_boatId := "B1"; r_boatName := "B1"; r_nation := None;
            r_joinedAt := 6000; r_lastSeen := Some 5000 |}.
Proof.
  eapply eq_trans.
  - apply (join_rewrites_name_keeps_last_seen Sample.coercions lexCompare
             (env 7000)
             (post "/join" (body (VString "B1") VUndefined VUndefined VUndefined))
             (body (VString "B1") VUndefined VUndefined VUndefined)
             afterFirst); try reflexivity.
    + intros H0. vm_compute in H0. discriminate H0.
    + intros H0. vm_compute in H0. discriminate H0.
  - vm_compute. reflexivity.
Defined.

Lemma subscribe_sends_current_view_witness :
  exists s',
    fetch (env 7000) liveRequest afterFirst
    = (Returned (Switching 7%nat), s',
       [(7%nat, Full 7000 (boatsView (env 7000) (loadOnce afterFirst)))])
    /\ roster s' = roster (loadOnce afterFirst)
    /\ sockets s' = [1%nat; 7%nat].
Proof.
  destruct (proj2 (subscribe_sends_current_view Sample.coercions lexCompare
                     (env 7000) liveRequest afterFirst eq_refl)
                  eq_refl eq_refl)
    as (s' & H1 & H2 & _ & _ & H3).
  exists s'. split; [exact H1|]. split; [exact H2|]. rewrite H3.
  vm_compute. reflexivity.
Defined.

Lemma other_answers_change_nothing_witness :
  (fetch (env 6000) (post "/update" noLatitude) watched).1.2 = loadOnce watched
  /\ (fetch (env 6000) (post "/update" noLatitude) watched).2 = [].
Proof.
  apply (other_answers_change_nothing Sample.coercions lexCompare
           (env 6000) (post "/update" noLatitude) watched
           (Text 400 "Missing lat")).
  - reflexivity.
  - intros H. discriminate H.
Defined.

Lemma cached_samples_are_valid_witness :
  reachable Sample.coercions lexCompare started
  /\ latest started !! "B1"
     = Some (telemetryOf Sample.coercions (env 6000) first)
  /\ exists lat lon,
       t_lat (telemetryOf Sample.coercions (env 6000) first) = Fin lat
       /\ t_lon (telemetryOf Sample.coercions (env 6000) first) = Fin lon.
Proof.
  assert (Hr : reachable Sample.coercions lexCompare started).
  { apply reach_fetch, reach_initial. }
  assert (Hl : latest started !! "B1"
               = Some (telemetryOf Sample.coercions (env 6000) first)).
  { vm_compute. reflexivity. }
  split; [exact Hr|]. split; [exact Hl|].
  apply (cached_samples_are_valid Sample.coercions lexCompare started "B1"
           (telemetryOf Sample.coercions (env 6000) first) Hr Hl).
Defined.

Lemma view_fields_agree_witness :
  exists v, boatsView (env 7000) started !! "B1" = Some v
            /\ v_boatId v = "B1" /\ v_lastSeen v = v_timestamp v.
Proof.
  assert (Hr : reachable Sample.coercions lexCompare started).
  { apply reach_fetch, reach_initial. }
  destruct (boatsView (env 7000) started !! "B1") as [v|] eqn:Hv.
  2:{ vm_compute in Hv. discriminate Hv. }
  exists v. split; [reflexivity|].
  destruct (view_fields_agree Sample.coercions lexCompare (env 7000) started
              "B1" v Hr Hv) as (H1 & H2 & _).
  split; [exact H1|exact H2].
Defined.

Lemma replay_frames_are_evenly_spaced_witness :
  length framesB = 5%nat
  /\ forall k f, framesB !! k = Some f ->
       IndexSmoothed.f_t f == 0 + inject_Z (Z.of_nat k) * inject_Z 1000
       /\ 0 <= IndexSmoothed.f_t f /\ IndexSmoothed.f_t f <= 4000
       /\ exactMs (IndexSmoothed.f_t f) = true.
Proof.
  destruct (replay_frames_are_evenly_spaced Sample.coercions false queryB
              tableB "R1" 0 4000 1 1000 framesB)
    as (H1 & _ & H2 & _).
  - vm_compute. reflexivity.
  - reflexivity.
  - reflexivity.
  - split; [exact H1|exact H2].
Defined.

Lemma replay_accepts_iff_witness :
  exists raceId hz stepMs frames,
    IndexSmoothed.replay Sample.coercions false queryB tableB
    = Done (IndexSmoothed.Replay raceId 0 4000 hz stepMs frames).
Proof.
  apply (proj2 (proj1 (replay_accepts_iff Sample.coercions false queryB tableB
                         0 4000 eq_refl eq_refl eq_refl eq_refl))).
  split; [exists "R1"; split; [reflexivity|discriminate]|].
  split; [reflexivity|]. split; [|reflexivity].
  vm_compute. discriminate.
Defined.

Lemma replay_frame_lists_every_boat_once_witness :
  In frameB2 framesB
  /\ NoDup (List.map IndexSmoothed.lb_boatId (IndexSmoothed.f_boats frameB2))
  /\ forall f', In f' framesB ->
       List.map IndexSmoothed.lb_boatId (IndexSmoothed.f_boats f')
       = List.map IndexSmoothed.lb_boatId (IndexSmoothed.f_boats frameB2).
Proof.
  assert (Hin : In frameB2 framesB).
  { right. right. left. reflexivity. }
  split; [exact Hin|].
  destruct (replay_frame_lists_every_boat_once Sample.coercions false queryB
              tableB "R1" 0 4000 1 1000 framesB frameB2)
    as (_ & H1 & _ & H2).
  - vm_compute. reflexivity.
  - exact Hin.
  - split; [exact H1|exact H2].
Defined.

Lemma replay_entry_is_fallback_or_interpolation_witness :
  Forall2 (entryAt (IndexSmoothed.f_t frameB2))
          (IndexSmoothed.groupByBoat (select byBoatThenTime "R1" 0 4000 tableB))
          (IndexSmoothed.f_boats frameB2).
Proof.
  apply (replay_entry_is_fallback_or_interpolation Sample.coercions false
           queryB tableB "R1" 0 4000 1 1000 framesB frameB2).
  - vm_compute. reflexivity.
  - right. right. left. reflexivity.
Defined.


Lemma owntracks_report_reaches_channel_witness :
  exists w' sent,
    worker (env 1700000000600) 1700000000500 otRequest IndexTs.empty
    = (IndexTs.Returned (IndexTs.FromChannel (Text 200 "OK")), w', sent)
    /\ latest (IndexTs.channelOf w' "R1") !! "B7" = Some (telemetryFor otPayload).
Proof.
  destruct (owntracks_report_reaches_channel Sample.coercions lexCompare
              sameCase None (env 1700000000600) 1700000000500 otRequest
              otFields otPayload IndexTs.empty)
    as (w' & sent & H1 & H2 & _).
  - repeat split.
  - reflexivity.
  - right. reflexivity.
  - vm_compute. reflexivity.
  - reflexivity.
  - exists w', sent. split; [exact H1|exact H2].
Defined.

Lemma owntracks_boat_is_never_live_witness :
  exists v,
    own (boatsView (env 1700000000700)
           (IndexTs.channelOf
              (worker (env 1700000000600) 1700000000500 otRequest
                      IndexTs.empty).1.2
              "R1")) !! "B7" = Some v
    /\ v_live v = false /\ v_lastSeen v = Some 1700000000.
Proof.
  destruct (owntracks_boat_is_never_live Sample.coercions lexCompare
              sameCase None (env 1700000000600) 1700000000500 otRequest
              otFields otPayload IndexTs.empty (env 1700000000700))
    as (v & H1 & H2 & H3 & _).
  - repeat split.
  - reflexivity.
  - right. reflexivity.
  - vm_compute. reflexivity.
  - reflexivity.
  - intros H. discriminate H.
  - vm_compute. discriminate.
  - vm_compute. reflexivity.
  - exists v. split; [exact H1|]. split; [exact H2|exact H3].
Defined.

Lemma lastKnown_replay_clips_window_witness :
  exists step frames,
    IndexLastKnown.handleReplay Sample.coercions clampNum false queryLastKnown
      tableB
    = Done (IndexLastKnown.Replay "R1" 0 (effectiveTo 0 4000) (Fin 1)
              (Fin (inject_Z step)) frames)
    /\ (100 <= step <= 10000)%Z
    /\ effectiveTo 0 4000 <= 4000.
Proof.
  destruct (lastKnown_replay_clips_window Sample.coercions clampNum
              queryLastKnown tableB "R1" 0 4000 1)
    as (step & frames & H1 & H2 & H3 & _).
  - reflexivity.
  - intros H. discriminate H.
  - vm_compute. reflexivity.
  - vm_compute. reflexivity.
  - reflexivity.
  - reflexivity.
  - reflexivity.
  - vm_compute. reflexivity.
  - split; vm_compute; discriminate.
  - exists step, frames. split; [exact H1|]. split; [exact H2|exact H3].
Defined.


Lemma track_empty_batch_throws_witness :
  IndexBucketsTrack.track Sample.coercions
    (IndexBucketsTrack.Batch batchFields []) = Threw.
Proof.
  apply (proj1 (track_empty_batch_throws Sample.coercions batchFields []
                  ltac:(intros H; vm_compute in H; discriminate H))).
  reflexivity.
Defined.

Lemma latest_lists_recent_boats_witness :
  exists s' l,
    RaceStateLatest.fetch lexCompare (clock 250000) latestRequest twoBoats
    = (RaceStateLatest.Returned (RaceStateLatest.Latest l 250000), s', [])
    /\ (In (boatAt "B2" 200000) l /\ ~ In (boatAt "B1" 1000) l)
    /\ RaceStateLatest.boats s' !! "B1" = None.
Proof.
  destruct (latest_lists_recent_boats lexCompare (clock 250000) latestRequest
              twoBoats eq_refl lexCompare_total lexCompare_trans)
    as (s' & l & H1 & H2 & _ & _ & H3 & _).
  exists s', l. split; [exact H1|]. split; [split|].
  - apply H2. exists "B2". split; [vm_compute; reflexivity|].
    vm_compute. discriminate.
  - intros Hin. apply H2 in Hin as (k & _ & Hle).
    vm_compute in Hle. apply Hle. reflexivity.
  - destruct (RaceStateLatest.boats s' !! "B1") as [b|] eqn:Hb; [|reflexivity].
    apply H3 in Hb as [Hb Hle]. vm_compute in Hb. injection Hb as <-.
    vm_compute in Hle. exfalso. apply Hle. reflexivity.
Defined.

Lemma ingest_then_latest_witness :
  exists s1 s2 l,
    RaceStateLatest.fetch lexCompare (clock 250000) ingestRequest twoBoats
    = (RaceStateLatest.Returned (RaceStateLatest.Text 200 "ok"), s1,
       List.map (fun ws => (ws, RaceStateLatest.Point
                                  (RaceStateLatest.liveBoatOf pointB3)))
                (RaceStateLatest.watchers s1))
    /\ RaceStateLatest.fetch lexCompare (clock 300000) latestRequest s1
       = (RaceStateLatest.Returned (RaceStateLatest.Latest l 300000), s2, [])
    /\ In (RaceStateLatest.liveBoatOf pointB3) l.
Proof.
  destruct (ingest_then_latest lexCompare (clock 250000) ingestRequest pointB3
              twoBoats (clock 300000) latestRequest
              eq_refl eq_refl eq_refl eq_refl eq_refl)
    as (s1 & s2 & l & H1 & _ & _ & _ & H2 & H3).
  exists s1, s2, l. split; [exact H1|]. split; [exact H2|].
  apply H3. vm_compute. discriminate.
Defined.

(** ** The step of a replay *)


(** ** The views *)

(** C5, the claim as stated fails on the snapshot of part_003: B1, last
    seen at 1000, is not in the answer of /latest at 250000 and is gone from
    the map, where the claim keeps a stale boat in the view; and B1, named
    Zoe, comes before B2, named Amy, the list being sorted by boat id. *)
Lemma snapshot_drops_stale_boat_and_sorts_by_id :
  RaceStateLatest.boats twoBoats !! "B1" = Some (boatAt "B1" 1000)
  /\ (RaceStateLatest.fetch lexCompare (clock 250000) latestRequest
                            twoBoats).1.1
     = RaceStateLatest.Returned
         (RaceStateLatest.Latest [boatAt "B2" 200000] 250000)
  /\ RaceStateLatest.boats
       (RaceStateLatest.fetch lexCompare (clock 250000) latestRequest
                              twoBoats).1.2 !! "B1" = None
  /\ (RaceStateLatest.fetch lexCompare (clock 250000) latestRequest
                            namedBoats).1.1
     = RaceStateLatest.Returned
         (RaceStateLatest.Latest [boatNamed "B1" "Zoe"; boatNamed "B2" "Amy"]
                                 250000)
  /\ lexCompare "Amy" "Zoe" = (-1)%Z.
Proof. repeat split; vm_compute; reflexivity. Qed.

(** The view of the channel two minutes and one second after B1's report
    at 5000, and the snapshot of part_003 at 250000. *)
Lemma view_live_iff_recent_and_sorted_witness :
  (exists v, own (boatsView (env 126000) afterFirst) !! "B1" = Some v
             /\ v_live v = false
             /\ v_lat v = Some (Fin 10) /\ v_lng v = Some (Fin 20))
  /\ StronglySorted (before lexCompare)
                    (boatsViewArray lexCompare (env 126000) afterFirst)
  /\ (forall b,
        In b (RaceStateLatest.snapshot lexCompare (clock 250000) twoBoats).2
        <-> exists k, RaceStateLatest.boats twoBoats !! k = Some b
                      /\ 250000 - IndexSmoothed.lb_t b
                         <= RaceStateLatest.ACTIVE_MS).
Proof.
  destruct (view_live_iff_recent_and_sorted lexCompare (env 126000) afterFirst
              (clock 250000) twoBoats)
    as (Hview & _ & Hsorted & Hsnap).
  - reflexivity.
  - apply lexCompare_total.
  - apply lexCompare_trans.
  - split; [|split; [exact Hsorted|]].
    + destruct (roster afterFirst !! "B1") as [entry|] eqn:Hentry;
        [|vm_compute in Hentry; discriminate].
      destruct (Hview "B1" entry Hentry)
        as (v & Hv & _ & Hseen & Hlive & Hlat & Hlng).
      { intros H. discriminate H. }
      exists v. split; [exact Hv|]. split; [|split].
      * destruct (v_live v) eqn:Hl; [|reflexivity]. exfalso.
        destruct Hlive as [Hlive _]. destruct (Hlive eq_refl) as (ls & Hls & Hle).
        rewrite Hseen in Hls. vm_compute in Hentry. injection Hentry as <-.
        vm_compute in Hls. injection Hls as <-.
        vm_compute in Hle. apply Hle. reflexivity.
      * rewrite Hlat. vm_compute. reflexivity.
      * rewrite Hlng. vm_compute. reflexivity.
    + destruct (RaceStateLatest.snapshot lexCompare (clock 250000) twoBoats)
        as [s3' l].
      destruct Hsnap as (Hin & _). exact Hin.
Defined.

(** ** Repeated runs *)


End ExampleFacts.
